(** * Lisp stream handling (streams.c): a shallow embedding

    The four stream primitives [stream_getc], [stream_ungetc],
    [stream_putc] and [stream_puts], the escape reader [stream_read_esc]
    and the Lisp-visible operations built on them ([write], [copy-stream],
    the string streams, [open] and the file sweep), written as functions
    over an explicit interpreter state.

    Conventions.
    - A C [u_char] is a [byte]; a C [int] or [long] holding a character,
      a length or a return code is a [Z].  [EOF] is [-1].
    - A computation that would read or write outside an allocated object,
      or dereference a null or dangling pointer, has no defined result:
      it yields [Undefined].  A loop that did not finish within its fuel
      yields [Timeout].
    - Functions of the interpreter that live outside streams.c (function
      application, the buffer editor, the C library's FILE operations,
      subprocess output, ...) are the fields of a [Collab] record, over
      which the whole development is parametric.
    - Allocation ([make_string], [string_dupn], [cmd_cons], [ALLOC_OBJECT])
      always succeeds; a fresh object gets the next free address.
    - The build has subprocesses ([HAVE_SUBPROCESSES]), so the switches
      have their [V_Process] case. *)

From Stdlib Require Import ZArith Lia List Bool String.
From Stdlib Require Import Strings.Byte.
From stdpp Require Import base list.
Import ListNotations.
Local Open Scope Z_scope.

(** ** Characters and C integers *)

Definition EOF : Z := -1.

(** [(int)b] for a [u_char] b. *)
Definition int_of_uchar (b : byte) : Z := Z.of_N (Byte.to_N b).

(** [(u_char)c] for an [int] c: reduction modulo 256. *)
Definition uchar_of_int (c : Z) : byte :=
  match Byte.of_N (Z.to_N (c mod 256)) with
  | Some b => b
  | None => x00
  end.

(** A C [int]: 32 bits, two's complement.  Arithmetic on lengths and
    capacities that leaves the range wraps around; a value unboxed from a
    Lisp integer or read from a length field fits as it is (a Lisp
    integer is a tagged machine word, a length an [int] field). *)
Definition int_wrap (z : Z) : Z := (z + 2 ^ 31) mod 2 ^ 32 - 2 ^ 31.

(** [a[i]] for a C array held as a list; [None] outside the array. *)
Definition zlookup {A : Type} (l : list A) (i : Z) : option A :=
  if i <? 0 then None else l !! Z.to_nat i.

(** [a[i] = x]; [None] outside the array. *)
Definition zstore {A : Type} (l : list A) (i : Z) (x : A) : option (list A) :=
  if (0 <=? i) && (i <? Z.of_nat (length l)) then Some (<[Z.to_nat i := x]> l)
  else None.

(** [memcpy(dst + off, src, n)]: [None] when [n] is negative or either
    range leaves its array. *)
Definition memcpy (dst : list byte) (off : Z) (src : list byte) (n : Z)
  : option (list byte) :=
  if (0 <=? n) && (0 <=? off) && (n <=? Z.of_nat (length src))
     && (off + n <=? Z.of_nat (length dst))
  then Some (take (Z.to_nat off) dst ++ take (Z.to_nat n) src
             ++ drop (Z.to_nat (off + n)) dst)
  else None.

(** [strlen(buf)]: the offset of the first zero byte; [None] when the
    array holds none. *)
Fixpoint strlen (buf : list byte) : option Z :=
  match buf with
  | [] => None
  | b :: rest =>
      if Byte.eqb b x00 then Some 0
      else match strlen rest with
           | Some n => Some (n + 1)
           | None => None
           end
  end.

(** The C library's character classes, in the C locale; [EOF] and every
    other value outside the letters is left alone. *)
Definition toupper (c : Z) : Z :=
  if (97 <=? c) && (c <=? 122) then c - 32 else c.

Definition isxdigit (c : Z) : bool :=
  ((48 <=? c) && (c <=? 57)) || ((65 <=? c) && (c <=? 70))
  || ((97 <=? c) && (c <=? 102)).

(** ** Lisp values *)

(** A [VALUE] is a tagged pointer.  Heap objects are named by their
    address in the matching table of the [World]; integers, positions and
    symbols carry their contents; [V_StaticString] is a [DEFSTRING]
    constant (a string that is not writable); [V_Other] stands for every
    type this file never looks into (vectors, windows, subrs, ...). *)
Inductive VALUE : Type :=
| LISP_NULL
| V_Int (n : Z)
| V_String (p : nat)
| V_StaticString (s : list byte)
| V_Cons (p : nat)
| V_Symbol (name : string)
| V_File (p : nat)
| V_Buffer (p : nat)
| V_Mark (p : nat)
| V_Pos (col row : Z)
| V_Process (p : nat)
| V_Other (tag : nat).

Definition sym_nil : VALUE := V_Symbol "nil".
Definition sym_t : VALUE := V_Symbol "t".
Definition sym_lambda : VALUE := V_Symbol "lambda".
Definition sym_standard_input : VALUE := V_Symbol "standard-input".
Definition sym_standard_output : VALUE := V_Symbol "standard-output".
Definition sym_invalid_stream : VALUE := V_Symbol "invalid-stream".
Definition sym_file_error : VALUE := V_Symbol "file-error".
Definition sym_bad_arg : VALUE := V_Symbol "bad-arg".

Definition non_resident : VALUE :=
  V_StaticString (list_byte_of_string "Marks used as streams must be resident").
Definition proc_not_input : VALUE :=
  V_StaticString (list_byte_of_string "Processes are not input streams").

(** Pointer comparison with a symbol ([v == sym_t], [NILP(v)], ...). *)
Definition is_sym (s : VALUE) (v : VALUE) : bool :=
  match s, v with
  | V_Symbol a, V_Symbol b => String.eqb a b
  | _, _ => false
  end.

Definition NILP (v : VALUE) : bool := is_sym sym_nil v.

(** [if(v)]: the pointer is not null. *)
Definition non_null (v : VALUE) : bool :=
  match v with LISP_NULL => false | _ => true end.

Definition INTP (v : VALUE) : bool :=
  match v with V_Int _ => true | _ => false end.
Definition STRINGP (v : VALUE) : bool :=
  match v with V_String _ | V_StaticString _ => true | _ => false end.
Definition STRING_WRITABLE_P (v : VALUE) : bool :=
  match v with V_String _ => true | _ => false end.
Definition BUFFERP (v : VALUE) : bool :=
  match v with V_Buffer _ => true | _ => false end.
Definition POSP (v : VALUE) : bool :=
  match v with V_Pos _ _ => true | _ => false end.
Definition FILEP (v : VALUE) : bool :=
  match v with V_File _ => true | _ => false end.

(** Lisp integers are kept exact: every integer this file boxes is an
    offset into, or the size of, an allocated string. *)
Definition MAKE_INT (n : Z) : VALUE := V_Int n.
Definition VINT (v : VALUE) : Z :=
  match v with V_Int n => n | _ => 0 end.

Definition make_pos (col row : Z) : VALUE := V_Pos col row.

(** ** Heap objects *)

(** A Lisp string: its allocated bytes (terminator included) and its
    length field. *)
Record Lisp_String : Type := mkString {
  str_data : list byte;
  str_len : Z
}.

(** One line of a buffer; [ln_Strlen] counts the terminating zero. *)
Record LINE : Type := mkLine {
  ln_Line : list byte;
  ln_Strlen : Z
}.

(** An editor buffer; [tx_cursor] is the position [get_tx_cursor_ptr]
    points to. *)
Record TX : Type := mkTX {
  tx_Lines : list LINE;
  tx_LogicalEnd : Z;
  tx_cursor : VALUE
}.

(** A mark; [mk_tx] is [mk_File.tx], meaningful only while the mark is
    resident. *)
Record Mark : Type := mkMark {
  mk_resident : bool;
  mk_tx : nat;
  mk_Pos : VALUE
}.

(** A file object.  [lf_name] is [LISP_NULL] while the file is unbound;
    [lf_file] is the C [FILE *] ([None] for a null pointer);
    [lf_dont_close] and [lf_marked] are the [LFF_DONT_CLOSE] and GC mark
    bits of the [car] word. *)
Record Lisp_File : Type := mkFile {
  lf_name : VALUE;
  lf_file : option nat;
  lf_dont_close : bool;
  lf_marked : bool
}.

Declare Scope stream_scope.
Delimit Scope stream_scope with stream.

Section Streams.

(** Whatever state the collaborators keep for themselves (the contents of
    open C files, the Lisp environment, the display, ...). *)
Context {Host : Type}.

(** ** The interpreter state *)

Record World : Type := mkWorld {
  strings : list Lisp_String;
  conses : list (VALUE * VALUE);
  files : list (option Lisp_File);     (* [None]: freed *)
  lfile_chain : list nat;              (* head first *)
  buffers : list TX;
  marks : list Mark;
  gc_inhibit : bool;
  conditions : list (VALUE * list VALUE);  (* signalled so far, oldest first *)
  w_has_message : bool;                (* curr_win->w_Flags & WINFF_MESSAGE *)
  w_Message : list byte;
  w_MessageLen : Z;
  minibuf_refresh : bool;              (* VWFF_FORCE_REFRESH of the minibuffer *)
  host : Host
}.

Definition set_strings (f : list Lisp_String -> list Lisp_String) (w : World) :=
  mkWorld (f (strings w)) (conses w) (files w) (lfile_chain w) (buffers w)
    (marks w) (gc_inhibit w) (conditions w) (w_has_message w) (w_Message w)
    (w_MessageLen w) (minibuf_refresh w) (host w).
Definition set_conses (f : list (VALUE * VALUE) -> list (VALUE * VALUE)) (w : World) :=
  mkWorld (strings w) (f (conses w)) (files w) (lfile_chain w) (buffers w)
    (marks w) (gc_inhibit w) (conditions w) (w_has_message w) (w_Message w)
    (w_MessageLen w) (minibuf_refresh w) (host w).
Definition set_files (f : list (option Lisp_File) -> list (option Lisp_File)) (w : World) :=
  mkWorld (strings w) (conses w) (f (files w)) (lfile_chain w) (buffers w)
    (marks w) (gc_inhibit w) (conditions w) (w_has_message w) (w_Message w)
    (w_MessageLen w) (minibuf_refresh w) (host w).
Definition set_lfile_chain (c : list nat) (w : World) :=
  mkWorld (strings w) (conses w) (files w) c (buffers w)
    (marks w) (gc_inhibit w) (conditions w) (w_has_message w) (w_Message w)
    (w_MessageLen w) (minibuf_refresh w) (host w).
Definition set_buffers (f : list TX -> list TX) (w : World) :=
  mkWorld (strings w) (conses w) (files w) (lfile_chain w) (f (buffers w))
    (marks w) (gc_inhibit w) (conditions w) (w_has_message w) (w_Message w)
    (w_MessageLen w) (minibuf_refresh w) (host w).
Definition set_marks (f : list Mark -> list Mark) (w : World) :=
  mkWorld (strings w) (conses w) (files w) (lfile_chain w) (buffers w)
    (f (marks w)) (gc_inhibit w) (conditions w) (w_has_message w) (w_Message w)
    (w_MessageLen w) (minibuf_refresh w) (host w).
Definition set_gc_inhibit (b : bool) (w : World) :=
  mkWorld (strings w) (conses w) (files w) (lfile_chain w) (buffers w)
    (marks w) b (conditions w) (w_has_message w) (w_Message w)
    (w_MessageLen w) (minibuf_refresh w) (host w).
Definition set_conditions
    (f : list (VALUE * list VALUE) -> list (VALUE * list VALUE)) (w : World) :=
  mkWorld (strings w) (conses w) (files w) (lfile_chain w) (buffers w)
    (marks w) (gc_inhibit w) (f (conditions w)) (w_has_message w) (w_Message w)
    (w_MessageLen w) (minibuf_refresh w) (host w).
Definition set_message (m : list byte) (n : Z) (w : World) :=
  mkWorld (strings w) (conses w) (files w) (lfile_chain w) (buffers w)
    (marks w) (gc_inhibit w) (conditions w) true m n true (host w).

(** ** Results and the state monad *)

Inductive Res (A : Type) : Type :=
| Ok (a : A) (w : World)
| Undefined
| Timeout.
Arguments Ok {A} a w.
Arguments Undefined {A}.
Arguments Timeout {A}.

Definition M (A : Type) : Type := World -> Res A.

Definition ret {A : Type} (a : A) : M A := fun w => Ok a w.

Definition bind {A B : Type} (m : M A) (k : A -> M B) : M B :=
  fun w => match m w with
           | Ok a w' => k a w'
           | Undefined => Undefined
           | Timeout => Timeout
           end.

(** A collaborator always returns. *)
Definition call {A : Type} (f : World -> A * World) : M A :=
  fun w => let '(a, w') := f w in Ok a w'.

Definition get_world : M World := fun w => Ok w w.
Definition modify (f : World -> World) : M unit := fun w => Ok tt (f w).

(** Proceed with the contents of a pointer, or stop when it is invalid. *)
Definition deref {A : Type} (o : World -> option A) : M A :=
  fun w => match o w with Some a => Ok a w | None => Undefined end.

(** Replace the state by [o]'s result, or stop when a store was invalid. *)
Definition update (o : World -> option World) : M unit :=
  fun w => match o w with Some w' => Ok tt w' | None => Undefined end.

Notation "'let*' x ':=' m 'in' k" := (bind m (fun x => k))
  (at level 10, x name, m at level 100, k at level 200) : stream_scope.
Notation "'do' m 'then' k" := (bind m (fun _ => k))
  (at level 10, m at level 100, k at level 200) : stream_scope.
Local Open Scope stream_scope.

(** ** Collaborators

    Everything streams.c calls but does not define.  Each takes the state
    and returns its result with the state it leaves. *)
Record Collab : Type := mkCollab {
  (* symbols.c: the dynamic value of a symbol; null when there is none *)
  cmd_symbol_value : VALUE -> VALUE -> World -> VALUE * World;
  (* the evaluator: apply a function to no argument, to one argument *)
  call_lisp0 : VALUE -> World -> VALUE * World;
  call_lisp1 : VALUE -> VALUE -> World -> VALUE * World;
  (* the buffer editor; a buffer is passed by its address *)
  read_only : nat -> World -> bool;
  pad_pos : nat -> VALUE -> World -> bool * World;
  insert_string : nat -> list byte -> Z -> VALUE -> World -> VALUE * World;
  cmd_restriction_end : VALUE -> World -> VALUE * World;
  (* the status line *)
  messagen : list byte -> Z -> World -> World;
  (* subprocesses *)
  write_to_process : VALUE -> list byte -> Z -> World -> Z * World;
  (* the C library; a FILE pointer is [None] when null *)
  c_getc : option nat -> World -> Z * World;
  c_ungetc : Z -> option nat -> World -> Z * World;
  c_putc : Z -> option nat -> World -> Z * World;
  c_fwrite : list byte -> Z -> option nat -> World -> Z * World;
  c_fopen : list byte -> list byte -> World -> option nat * World;
  c_fclose : option nat -> World -> World;
  (* fcntl(fileno(f), F_SETFD, 1) *)
  c_set_cloexec : option nat -> World -> World;
  lookup_errno : World -> VALUE * World;
  (* TEST_INT followed by INT_P: poll, and report a pending interrupt *)
  test_int : World -> bool * World;
  (* what freshly allocated memory holds *)
  uninit : byte
}.

Variable K : Collab.

(** ** Conditions

    Modelled from the spec: [cmd_signal] is not part of streams.c.  The
    spec's [signal(kind, list-of-args)] records the condition; the C
    function returns the null value.  The argument list is kept as a
    list of values rather than as cons cells. *)
Definition cmd_signal (kind : VALUE) (args : list VALUE) : M VALUE :=
  fun w => Ok LISP_NULL (set_conditions (fun l => l ++ [(kind, args)]) w).

(** Modelled from the spec: [signal_arg_error] is not part of streams.c;
    a [bad-arg] condition carries the value and the argument position. *)
Definition signal_arg_error (obj : VALUE) (argnum : Z) : M VALUE :=
  cmd_signal sym_bad_arg [obj; MAKE_INT argnum].

(** ** Heap access *)

Definition VSTRING (v : VALUE) (w : World) : option Lisp_String :=
  match v with
  | V_String p => strings w !! p
  | V_StaticString s => Some (mkString (s ++ [x00]) (Z.of_nat (length s)))
  | _ => None
  end.

(** Overwrite a string object; constants live in read-only memory. *)
Definition store_string (v : VALUE) (s : Lisp_String) (w : World) : option World :=
  match v with
  | V_String p =>
      match strings w !! p with
      | Some _ => Some (set_strings (fun l => <[p := s]> l) w)
      | None => None
      end
  | _ => None
  end.

Definition VCONS (p : nat) (w : World) : option (VALUE * VALUE) := conses w !! p.

Definition store_cons (p : nat) (cell : VALUE * VALUE) (w : World) : option World :=
  match conses w !! p with
  | Some _ => Some (set_conses (fun l => <[p := cell]> l) w)
  | None => None
  end.

Definition VFILE (p : nat) (w : World) : option Lisp_File :=
  match files w !! p with
  | Some (Some lf) => Some lf
  | _ => None
  end.

Definition store_file (p : nat) (lf : Lisp_File) (w : World) : option World :=
  match files w !! p with
  | Some (Some _) => Some (set_files (fun l => <[p := Some lf]> l) w)
  | _ => None
  end.

Definition VTX (p : nat) (w : World) : option TX := buffers w !! p.
Definition VMARK (p : nat) (w : World) : option Mark := marks w !! p.

(** Modelled from the spec: [cmd_cons] is not part of streams.c; the
    spec's [cons] constructor returns a fresh cell. *)
Definition cmd_cons (a d : VALUE) : M VALUE :=
  fun w => Ok (V_Cons (length (conses w))) (set_conses (fun l => l ++ [(a, d)]) w).

(** Modelled from the spec: [make_string] is not part of streams.c.
    [make_string(n)] returns a fresh writable string of [n] allocated
    bytes, the last one for the terminator; the bytes are not
    initialised. *)
Definition make_string (n : Z) : M VALUE :=
  fun w => Ok (V_String (length (strings w)))
              (set_strings (fun l => l ++ [mkString (replicate (Z.to_nat n) (uninit K)) (n - 1)]) w).

(** Modelled from the spec: [string_dupn] is not part of streams.c.
    [string_dupn(buf, n)] returns a fresh string holding the [n] bytes at
    [buf] and a terminator. *)
Definition string_dupn (buf : list byte) (n : Z) : M VALUE :=
  fun w =>
    if (0 <=? n) && (n <=? Z.of_nat (length buf)) then
      Ok (V_String (length (strings w)))
         (set_strings (fun l => l ++ [mkString (take (Z.to_nat n) buf ++ [x00]) n]) w)
    else Undefined.

(** ** Positions behind a pointer

    [pos_getc], [pos_putc], [pos_puts] and [POS_UNGETC] update a position
    through a [VALUE *]; the four places such a pointer can lead to. *)
Inductive pos_ptr : Type :=
| P_mark (m : nat)        (* &VMARK(stream)->mk_Pos *)
| P_cursor (tx : nat)     (* get_tx_cursor_ptr(tx) *)
| P_cdr (c : nat)         (* &VCDR(stream) *)
| P_local (v : VALUE).    (* the address of a local variable *)

Definition load_pos (p : pos_ptr) (w : World) : option VALUE :=
  match p with
  | P_mark m => mk_Pos <$> marks w !! m
  | P_cursor t => tx_cursor <$> buffers w !! t
  | P_cdr c => snd <$> conses w !! c
  | P_local v => Some v
  end.

Definition store_pos (p : pos_ptr) (v : VALUE) (w : World) : option World :=
  match p with
  | P_mark m =>
      match marks w !! m with
      | Some mk =>
          Some (set_marks (fun l => <[m := mkMark (mk_resident mk) (mk_tx mk) v]> l) w)
      | None => None
      end
  | P_cursor t =>
      match buffers w !! t with
      | Some tx =>
          Some (set_buffers (fun l => <[t := mkTX (tx_Lines tx) (tx_LogicalEnd tx) v]> l) w)
      | None => None
      end
  | P_cdr c =>
      match conses w !! c with
      | Some cell => Some (set_conses (fun l => <[c := (fst cell, v)]> l) w)
      | None => None
      end
  | P_local _ => Some w
  end.

Definition pos_getc (tx : nat) (pos : pos_ptr) : M Z :=
  let* p := deref (load_pos pos) in
  let* t := deref (VTX tx) in
  match p with
  | V_Pos col row =>
      if row <? tx_LogicalEnd t then
        let* ln := deref (fun _ => zlookup (tx_Lines t) row) in
        if col >=? ln_Strlen ln - 1 then
          if row + 1 =? tx_LogicalEnd t then
            do update (store_pos pos (make_pos col row)) then ret EOF
          else
            do update (store_pos pos (make_pos 0 (row + 1))) then ret 10
        else
          let* b := deref (fun _ => zlookup (ln_Line ln) col) in
          do update (store_pos pos (make_pos (col + 1) row)) then
          ret (int_of_uchar b)
      else
        do update (store_pos pos (make_pos col row)) then ret EOF
  | _ => fun _ => Undefined
  end.

Definition pos_putc (tx : nat) (pos : pos_ptr) (c : Z) : M Z :=
  let* w := get_world in
  if read_only K tx w then ret EOF
  else
    let* p := deref (load_pos pos) in
    let* padded := call (pad_pos K tx p) in
    if padded then
      let* p := deref (load_pos pos) in
      let* e := call (insert_string K tx [uchar_of_int c; x00] 1 p) in
      if non_null e then do update (store_pos pos e) then ret 1
      else ret EOF
    else ret EOF.

Definition pos_puts (tx : nat) (pos : pos_ptr) (buf : list byte) (bufLen : Z) : M Z :=
  let* w := get_world in
  if read_only K tx w then ret EOF
  else
    let* p := deref (load_pos pos) in
    let* padded := call (pad_pos K tx p) in
    if padded then
      let* p := deref (load_pos pos) in
      let* e := call (insert_string K tx buf bufLen p) in
      if non_null e then do update (store_pos pos e) then ret bufLen
      else ret EOF
    else ret EOF.

(** The macro [POS_UNGETC(p, tx)]; [tx] is [None] when the expression
    handed in for it is not a valid buffer pointer. *)
Definition POS_UNGETC (pos : pos_ptr) (tx : option nat) : M unit :=
  let* p := deref (load_pos pos) in
  match p with
  | V_Pos col row =>
      let col := col - 1 in
      if col <? 0 then
        let row := row - 1 in
        let* a := deref (fun _ => tx) in
        let* t := deref (VTX a) in
        let* ln := deref (fun _ => zlookup (tx_Lines t) row) in
        update (store_pos pos (make_pos (ln_Strlen ln - 1) row))
      else update (store_pos pos (make_pos col row))
  | _ => fun _ => Undefined
  end.

(** The buffer a [V_Buffer] value points to. *)
Definition buffer_addr (v : VALUE) : option nat :=
  match v with V_Buffer p => Some p | _ => None end.

(** ** String objects in place *)

(** [memcpy(VSTR(dst) + off, src, n)]. *)
Definition string_memcpy (dst : VALUE) (off : Z) (src : list byte) (n : Z) : M unit :=
  let* s := deref (VSTRING dst) in
  let* d := deref (fun _ => memcpy (str_data s) off src n) in
  update (store_string dst (mkString d (str_len s))).

(** [VSTR(dst)[i] = b]. *)
Definition string_poke (dst : VALUE) (i : Z) (b : byte) : M unit :=
  let* s := deref (VSTRING dst) in
  let* d := deref (fun _ => zstore (str_data s) i b) in
  update (store_string dst (mkString d (str_len s))).

(** Modelled from the spec: [set_string_len] is not part of streams.c;
    the spec's [set-string-len] overwrites the length field. *)
Definition set_string_len (v : VALUE) (n : Z) : M unit :=
  let* s := deref (VSTRING v) in
  update (store_string v (mkString (str_data s) n)).

(** Modelled from the spec: [str_dupn] is not part of streams.c.  The
    status line's byte buffer is resized to [n] bytes and a terminator;
    bytes the old buffer did not have are not initialised. *)
Definition str_dupn (src : list byte) (n : Z) : list byte :=
  take (Z.to_nat n) src ++ replicate (Z.to_nat n - length src)%nat (uninit K) ++ [x00].

(** ** stream_getc *)

(** The [V_Symbol] case, also reached from [V_Cons] by falling through:
    call the stream as a function of no argument, with GC inhibited. *)
Definition getc_callable (stream : VALUE) : M Z :=
  let* w := get_world in
  let oldgci := gc_inhibit w in
  do modify (set_gc_inhibit true) then
  let* res := call (call_lisp0 K stream) in
  do modify (set_gc_inhibit oldgci) then
  ret (if non_null res && INTP res then VINT res else EOF).

(** The [switch(VTYPE(stream))] of [stream_getc]. *)
Definition getc_switch (stream : VALUE) : M Z :=
  match stream with
  | LISP_NULL => fun _ => Undefined
  | V_File p =>
      let* lf := deref (VFILE p) in
      if non_null (lf_name lf) then call (c_getc K (lf_file lf)) else ret EOF
  | V_Mark p =>
      let* mk := deref (VMARK p) in
      if negb (mk_resident mk) then
        do cmd_signal sym_invalid_stream [stream; non_resident] then ret EOF
      else pos_getc (mk_tx mk) (P_mark p)
  | V_Buffer p => pos_getc p (P_cursor p)
  | V_Cons p =>
      let* cell := deref (VCONS p) in
      let res := fst cell in
      if INTP res && STRINGP (snd cell) then
        let* s := deref (VSTRING (snd cell)) in
        let* b := deref (fun _ => zlookup (str_data s) (VINT res)) in
        let c := int_of_uchar b in
        if negb (c =? 0) then
          do update (store_cons p (MAKE_INT (VINT res + 1), snd cell)) then ret c
        else ret EOF
      else if BUFFERP res && POSP (snd cell) then
        let* tx := deref (fun _ => buffer_addr res) in
        pos_getc tx (P_cdr p)
      else if negb (is_sym sym_lambda res) then
        do cmd_signal sym_invalid_stream [stream] then ret EOF
      else getc_callable stream
  | V_Symbol _ => getc_callable stream
  | V_Process _ =>
      do cmd_signal sym_invalid_stream [stream; proc_not_input] then ret EOF
  | _ => do cmd_signal sym_invalid_stream [stream] then ret EOF
  end.

Definition stream_getc (stream : VALUE) : M Z :=
  if NILP stream then
    let* v := call (cmd_symbol_value K sym_standard_input sym_nil) in
    if non_null v then getc_switch v else ret EOF
  else getc_switch stream.

(** ** stream_ungetc *)

Definition ungetc_callable (stream : VALUE) (c : Z) : M Z :=
  let* w := get_world in
  let oldgci := gc_inhibit w in
  do modify (set_gc_inhibit true) then
  let* tmp := call (call_lisp1 K stream (MAKE_INT c)) in
  do modify (set_gc_inhibit oldgci) then
  ret (if non_null tmp && negb (NILP tmp) then 1 else 0).

(** The [switch(VTYPE(stream))] of [stream_ungetc]; it has no [default]. *)
Definition ungetc_switch (stream : VALUE) (c : Z) : M Z :=
  match stream with
  | LISP_NULL => fun _ => Undefined
  | V_File p =>
      let* lf := deref (VFILE p) in
      let* r := call (c_ungetc K c (lf_file lf)) in
      ret (if negb (r =? EOF) then 1 else 0)
  | V_Mark p =>
      let* mk := deref (VMARK p) in
      do POS_UNGETC (P_mark p) (if mk_resident mk then Some (mk_tx mk) else None) then
      ret 1
  | V_Buffer p =>
      do POS_UNGETC (P_cursor p) (Some p) then ret 1
  | V_Cons p =>
      let* cell := deref (VCONS p) in
      let tmp := fst cell in
      if INTP tmp && STRINGP (snd cell) then
        do update (store_cons p (MAKE_INT (VINT tmp - 1), snd cell)) then ret 1
      else if BUFFERP tmp && POSP (snd cell) then
        do POS_UNGETC (P_cdr p) (buffer_addr tmp) then ret 1
      else ungetc_callable stream c
  | V_Symbol _ => ungetc_callable stream c
  | _ => ret 0
  end.

Definition stream_ungetc (stream : VALUE) (c : Z) : M Z :=
  if NILP stream then
    let* v := call (cmd_symbol_value K sym_standard_input sym_nil) in
    if non_null v then ungetc_switch v c else ret 0
  else ungetc_switch stream c.

(** ** stream_putc *)

(** The [V_Symbol] case of [stream_putc], also reached from [V_Cons]:
    [t] is the status line, anything else is called with the character. *)
Definition putc_symbol (stream : VALUE) (c : Z) : M Z :=
  if is_sym sym_t stream then
    let* w := get_world in
    if w_has_message w then
      let n := w_MessageLen w in
      let s := str_dupn (w_Message w) (n + 1) in
      let* s1 := deref (fun _ => zstore s n (uchar_of_int c)) in
      let* s2 := deref (fun _ => zstore s1 (n + 1) x00) in
      do modify (set_message s2 (n + 1)) then ret 1
    else
      do modify (messagen K [uchar_of_int c; x00] 1) then ret 1
  else
    let* w := get_world in
    let oldgci := gc_inhibit w in
    do modify (set_gc_inhibit true) then
    let* res := call (call_lisp1 K stream (MAKE_INT c)) in
    do modify (set_gc_inhibit oldgci) then
    ret (if non_null res && negb (NILP res) then 1 else 0).

(** The [switch(VTYPE(stream))] of [stream_putc]. *)
Definition putc_switch (stream : VALUE) (c : Z) : M Z :=
  match stream with
  | LISP_NULL => fun _ => Undefined
  | V_File p =>
      let* lf := deref (VFILE p) in
      if non_null (lf_name lf) then
        let* r := call (c_putc K c (lf_file lf)) in
        ret (if negb (r =? EOF) then 1 else 0)
      else ret 0
  | V_Mark p =>
      let* mk := deref (VMARK p) in
      if negb (mk_resident mk) then
        do cmd_signal sym_invalid_stream [stream; non_resident] then ret 0
      else pos_putc (mk_tx mk) (P_mark p) c
  | V_Buffer p => pos_putc p (P_cursor p) c
  | V_Cons p =>
      let* cell := deref (VCONS p) in
      let args := fst cell in
      if STRINGP args && STRING_WRITABLE_P args && INTP (snd cell) then
        let actuallen := VINT (snd cell) in
        let* s := deref (VSTRING args) in
        let len := str_len s in
        let* args :=
          (if int_wrap (len + 1) >=? actuallen then
             let newlen := if actuallen <? 16 then 32 else int_wrap (actuallen * 2) in
             let* new := make_string (int_wrap (newlen + 1)) in
             do string_memcpy new 0 (str_data s) len then
             do update (store_cons p (new, MAKE_INT newlen)) then
             ret new
           else ret args) in
        do string_poke args len (uchar_of_int c) then
        do string_poke args (int_wrap (len + 1)) x00 then
        do set_string_len args (int_wrap (len + 1)) then
        ret 1
      else if BUFFERP args then
        let* tx := deref (fun _ => buffer_addr args) in
        if POSP (snd cell) then pos_putc tx (P_cdr p) c
        else
          let* pos := call (cmd_restriction_end K args) in
          pos_putc tx (P_local pos) c
      else if negb (is_sym sym_lambda args) then
        do cmd_signal sym_invalid_stream [stream] then ret 0
      else putc_symbol stream c
  | V_Symbol _ => putc_symbol stream c
  | V_Process _ =>
      call (write_to_process K stream [uchar_of_int c; x00] 1)
  | _ => do cmd_signal sym_invalid_stream [stream] then ret 0
  end.

Definition stream_putc (stream : VALUE) (c : Z) : M Z :=
  if NILP stream then
    let* v := call (cmd_symbol_value K sym_standard_output sym_nil) in
    if non_null v then putc_switch v c else ret 0
  else putc_switch stream c.

(** ** stream_puts *)

(** The [void *data] argument: a Lisp string, or a pointer to raw bytes
    (the bytes from that address to the end of its array). *)
Inductive puts_data : Type :=
| Data_value (v : VALUE)
| Data_raw (buf : list byte).

(** [buf = isValString ? VSTR(data) : data]. *)
Definition data_bytes (data : puts_data) (isValString : bool) (w : World)
  : option (list byte) :=
  match data, isValString with
  | Data_value v, true => str_data <$> VSTRING v w
  | Data_raw b, false => Some b
  | _, _ => None
  end.

(** [STRING_LEN(VAL(data))]. *)
Definition data_len (data : puts_data) (w : World) : option Z :=
  match data with
  | Data_value v => str_len <$> VSTRING v w
  | Data_raw _ => None
  end.

(** The [V_Symbol] case of [stream_puts], also reached from [V_Cons]. *)
Definition puts_symbol (stream : VALUE) (data : puts_data) (buf : list byte)
    (bufLen : Z) (isValString : bool) : M Z :=
  if is_sym sym_t stream then
    let* w := get_world in
    do (if w_has_message w then
          let newlen := int_wrap (w_MessageLen w + bufLen) in
          let s := str_dupn (w_Message w) newlen in
          let* s1 := deref (fun _ => memcpy s (w_MessageLen w) buf bufLen) in
          let* s2 := deref (fun _ => zstore s1 newlen x00) in
          modify (set_message s2 newlen)
        else modify (messagen K buf bufLen)) then
    ret bufLen
  else
    let* w := get_world in
    let oldgci := gc_inhibit w in
    let* args :=
      (if isValString then
         match data with
         | Data_value v => ret v
         | Data_raw _ => fun _ => Undefined
         end
       else string_dupn buf bufLen) in
    do modify (set_gc_inhibit true) then
    let* res := call (call_lisp1 K stream args) in
    do modify (set_gc_inhibit oldgci) then
    ret (if non_null res && negb (NILP res) then
           if INTP res then VINT res else bufLen
         else 0).

(** The [switch(VTYPE(stream))] of [stream_puts]. *)
Definition puts_switch (stream : VALUE) (data : puts_data) (buf : list byte)
    (bufLen : Z) (isValString : bool) : M Z :=
  match stream with
  | LISP_NULL => fun _ => Undefined
  | V_File p =>
      let* lf := deref (VFILE p) in
      if non_null (lf_name lf) then call (c_fwrite K buf bufLen (lf_file lf))
      else ret 0
  | V_Mark p =>
      let* mk := deref (VMARK p) in
      if negb (mk_resident mk) then
        do cmd_signal sym_invalid_stream [stream; non_resident] then ret 0
      else pos_puts (mk_tx mk) (P_mark p) buf bufLen
  | V_Buffer p => pos_puts p (P_cursor p) buf bufLen
  | V_Cons p =>
      let* cell := deref (VCONS p) in
      let args := fst cell in
      if STRINGP args && STRING_WRITABLE_P args && INTP (snd cell) then
        let actuallen := VINT (snd cell) in
        let* s := deref (VSTRING args) in
        let len := str_len s in
        let newlen := int_wrap (len + bufLen + 1) in
        let* args :=
          (if actuallen <=? newlen then
             let tmp := if actuallen <? 16 then 32 else int_wrap (actuallen * 2) in
             let newlen := if tmp >? newlen then tmp else newlen in
             let* new := make_string (int_wrap (newlen + 1)) in
             do string_memcpy new 0 (str_data s) len then
             do update (store_cons p (new, MAKE_INT newlen)) then
             ret new
           else ret args) in
        do string_memcpy args len buf bufLen then
        do string_poke args (int_wrap (len + bufLen)) x00 then
        do set_string_len args (int_wrap (len + bufLen)) then
        ret bufLen
      else if BUFFERP args then
        let* tx := deref (fun _ => buffer_addr args) in
        if POSP (snd cell) then pos_puts tx (P_cdr p) buf bufLen
        else
          let* pos := call (cmd_restriction_end K args) in
          pos_puts tx (P_local pos) buf bufLen
      else if negb (is_sym sym_lambda args) then
        do cmd_signal sym_invalid_stream [stream] then ret 0
      else puts_symbol stream data buf bufLen isValString
  | V_Symbol _ => puts_symbol stream data buf bufLen isValString
  | V_Process _ => call (write_to_process K stream buf bufLen)
  | _ => do cmd_signal sym_invalid_stream [stream] then ret 0
  end.

(** What follows the resolution of a nil stream: [buf], the [-1] length
    convention, and the switch. *)
Definition puts_body (stream : VALUE) (data : puts_data) (bufLen : Z)
    (isValString : bool) : M Z :=
  let* buf := deref (data_bytes data isValString) in
  let* bufLen :=
    (if bufLen =? -1 then
       if isValString then
         deref (data_len data)
       else
         deref (fun _ => strlen buf)
     else ret bufLen) in
  puts_switch stream data buf bufLen isValString.

Definition stream_puts (stream : VALUE) (data : puts_data) (bufLen : Z)
    (isValString : bool) : M Z :=
  if NILP stream then
    let* v := call (cmd_symbol_value K sym_standard_output sym_nil) in
    if non_null v then puts_body v data bufLen isValString else ret 0
  else puts_body stream data bufLen isValString.

(** ** stream_read_esc *)

(** [(c >= '0') && (c <= '7')]. *)
Definition is_octal (c : Z) : bool := (48 <=? c) && (c <=? 55).

(** The [while(1)] loop of the ['x'] case; [c] is the [u_char]
    accumulator.  The result is the returned character and the final
    [*c_p]. *)
Fixpoint read_hex (fuel : nat) (stream : VALUE) (c : byte) : M (Z * Z) :=
  match fuel with
  | O => fun _ => Timeout
  | S fuel' =>
      let* c_p := stream_getc stream in
      if negb (isxdigit c_p) then ret (int_of_uchar c, c_p)
      else if (48 <=? c_p) && (c_p <=? 57) then
        read_hex fuel' stream (uchar_of_int (int_of_uchar c * 16 + (c_p - 48)))
      else
        read_hex fuel' stream
          (uchar_of_int (int_of_uchar c * 16 + (toupper c_p - 65) + 10))
  end.

(** The statements after the [switch]: read the lookahead and return. *)
Definition read_esc_finish (stream : VALUE) (c : byte) : M (Z * Z) :=
  let* c_p := stream_getc stream in
  ret (int_of_uchar c, c_p).

(** [stream_read_esc(stream, &c_p)]: the returned character paired with
    the value left in [*c_p]. *)
Definition stream_read_esc (fuel : nat) (stream : VALUE) (c_p : Z) : M (Z * Z) :=
  if c_p =? 110 then read_esc_finish stream (uchar_of_int 10)        (* 'n' *)
  else if c_p =? 114 then read_esc_finish stream (uchar_of_int 13)   (* 'r' *)
  else if c_p =? 102 then read_esc_finish stream (uchar_of_int 12)   (* 'f' *)
  else if c_p =? 116 then read_esc_finish stream (uchar_of_int 9)    (* 't' *)
  else if c_p =? 118 then read_esc_finish stream (uchar_of_int 11)   (* 'v' *)
  else if c_p =? 97 then read_esc_finish stream (uchar_of_int 7)     (* 'a' *)
  else if c_p =? 94 then                                             (* '^' *)
    let* x := stream_getc stream in
    read_esc_finish stream (uchar_of_int (Z.lxor (toupper x) 64))
  else if is_octal c_p then
    let c := uchar_of_int (c_p - 48) in
    let* c_p := stream_getc stream in
    if is_octal c_p then
      let c := uchar_of_int (int_of_uchar c * 8 + (c_p - 48)) in
      let* c_p := stream_getc stream in
      if is_octal c_p then
        let c := uchar_of_int (int_of_uchar c * 8 + (c_p - 48)) in
        read_esc_finish stream c
      else ret (int_of_uchar c, c_p)
    else ret (int_of_uchar c, c_p)
  else if c_p =? 120 then read_hex fuel stream x00                   (* 'x' *)
  else read_esc_finish stream (uchar_of_int c_p).

(** ** write and read-char *)

Definition cmd_write (stream data len : VALUE) : M VALUE :=
  match data with
  | LISP_NULL => fun _ => Undefined
  | V_Int _ =>
      let* actual := stream_putc stream (VINT data) in
      ret (MAKE_INT actual)
  | V_String _ | V_StaticString _ =>
      let* s := deref (VSTRING data) in
      if INTP len then
        let actual := VINT len in
        if actual >? str_len s then signal_arg_error len 3
        else if actual =? str_len s then
          let* actual := stream_puts stream (Data_value data) actual true in
          ret (MAKE_INT actual)
        else
          let* actual := stream_puts stream (Data_raw (str_data s)) actual false in
          ret (MAKE_INT actual)
      else
        let* actual := stream_puts stream (Data_value data) (str_len s) true in
        ret (MAKE_INT actual)
  | _ => signal_arg_error data 2
  end.

Definition cmd_read_char (stream : VALUE) : M VALUE :=
  let* rc := stream_getc stream in
  if negb (rc =? EOF) then ret (MAKE_INT rc) else ret sym_nil.

(** ** copy-stream *)

Definition COPY_BUFSIZ : Z := 512.

(** The statements after the [while] loop. *)
Definition copy_finish (dest : VALUE) (buff : list byte) (ptr len : Z) : M VALUE :=
  do (if negb (ptr =? 0) then
        let* buff := deref (fun _ => zstore buff ptr x00) in
        do stream_puts dest (Data_raw buff) ptr false then ret tt
      else ret tt) then
  if negb (len =? 0) then ret (MAKE_INT len) else ret sym_nil.

(** The [while] loop; [buff] is the 512-byte array, [ptr] the offset
    [ptr - buff] into it. *)
Fixpoint copy_loop (fuel : nat) (source dest : VALUE) (buff : list byte)
    (ptr len : Z) : M VALUE :=
  match fuel with
  | O => fun _ => Timeout
  | S fuel' =>
      let* c := stream_getc source in
      if c =? EOF then copy_finish dest buff ptr len
      else if ptr >=? COPY_BUFSIZ - 1 then
        let* buff := deref (fun _ => zstore buff ptr x00) in
        let* r := stream_puts dest (Data_raw buff) ptr false in
        if r =? EOF then copy_finish dest buff ptr len
        else
          let len := int_wrap (len + 1) in
          let* interrupted := call (test_int K) in
          if interrupted : bool then ret LISP_NULL
          else copy_loop fuel' source dest buff 0 len
      else
        let* buff := deref (fun _ => zstore buff ptr (uchar_of_int c)) in
        let len := int_wrap (len + 1) in
        let* interrupted := call (test_int K) in
        if interrupted : bool then ret LISP_NULL
        else copy_loop fuel' source dest buff (ptr + 1) len
  end.

Definition cmd_copy_stream (fuel : nat) (source dest : VALUE) : M VALUE :=
  copy_loop fuel source dest (replicate (Z.to_nat COPY_BUFSIZ) (uninit K)) 0 0.

(** ** String streams *)

Definition cmd_make_string_input_stream (string start : VALUE) : M VALUE :=
  if negb (STRINGP string) then signal_arg_error string 1
  else cmd_cons (if INTP start then start else MAKE_INT 0) string.

Definition cmd_make_string_output_stream : M VALUE :=
  let* s := string_dupn [x00] 0 in
  cmd_cons s (MAKE_INT 0).

(** ** File objects *)

(** [FREE_OBJECT(lf)]. *)
Definition free_file (p : nat) (w : World) : option World :=
  match files w !! p with
  | Some (Some _) => Some (set_files (fun l => <[p := None]> l) w)
  | _ => None
  end.

(** [if(lf->name && !(lf->car & LFF_DONT_CLOSE)) fclose(lf->file)]. *)
Definition close_if_owned (lf : Lisp_File) : M unit :=
  if non_null (lf_name lf) && negb (lf_dont_close lf)
  then modify (c_fclose K (lf_file lf))
  else ret tt.

(** The loop of [file_sweep] over the old chain. *)
Fixpoint sweep_chain (lf : list nat) : M unit :=
  match lf with
  | [] => ret tt
  | p :: nxt =>
      let* f := deref (VFILE p) in
      do (if negb (lf_marked f) then
            do close_if_owned f then update (free_file p)
          else
            do update (store_file p (mkFile (lf_name f) (lf_file f) (lf_dont_close f) false)) then
            modify (fun w => set_lfile_chain (p :: lfile_chain w) w)) then
      sweep_chain nxt
  end.

Definition file_sweep : M unit :=
  let* w := get_world in
  do modify (set_lfile_chain []) then
  sweep_chain (lfile_chain w).

Definition cmd_open (name modes file : VALUE) : M VALUE :=
  let* lf :=
    (match file with
     | V_File p =>
         let* f := deref (VFILE p) in
         do close_if_owned f then ret p
     | _ =>
         let* w := get_world in
         let p := length (files w) in
         do modify (fun w =>
              set_lfile_chain (p :: lfile_chain w)
                (set_files (fun l => l ++ [Some (mkFile LISP_NULL None false false)]) w)) then
         ret p
     end) in
  do update (store_file lf (mkFile LISP_NULL None false false)) then
  if STRINGP name && STRINGP modes then
    let* n := deref (VSTRING name) in
    let* m := deref (VSTRING modes) in
    let* fh := call (c_fopen K (str_data n) (str_data m)) in
    match fh with
    | Some h =>
        do update (store_file lf (mkFile name (Some h) false false)) then
        do modify (c_set_cloexec K (Some h)) then
        ret (V_File lf)
    | None =>
        let* e := call (lookup_errno K) in
        cmd_signal sym_file_error [e; name]
    end
  else ret (V_File lf).

(** ** Vocabulary of the specification *)

(** [n] successive reads with [stream_getc], in order. *)
Fixpoint read_chars (n : nat) (stream : VALUE) : M (list Z) :=
  match n with
  | O => ret []
  | S n' =>
      let* c := stream_getc stream in
      let* cs := read_chars n' stream in
      ret (c :: cs)
  end.

(** Write the bytes of [B] one at a time with [stream_putc]; the sum of
    the return codes. *)
Fixpoint put_chars (stream : VALUE) (B : list byte) : M Z :=
  match B with
  | [] => ret 0
  | b :: rest =>
      let* r := stream_putc stream (int_of_uchar b) in
      let* n := put_chars stream rest in
      ret (r + n)
  end.

(** The cell [strm] is an output accumulator [(String . cap)] whose
    payload string has length field [|B|], holds the bytes [B] followed
    by a zero byte, and owns [cap + 1] allocated bytes. *)
Definition accumulator_holds (strm : nat) (B : list byte) (cap : Z) (w : World) : Prop :=
  exists q s,
    VCONS strm w = Some (V_String q, V_Int cap)
    /\ strings w !! q = Some s
    /\ str_len s = Z.of_nat (length B)
    /\ take (length B) (str_data s) = B
    /\ str_data s !! length B = Some x00
    /\ Z.of_nat (length (str_data s)) = cap + 1.

(** [c = get(); unget(c); c' = get()]. *)
Definition get_unget_get (stream : VALUE) : M (Z * Z * Z) :=
  let* c := stream_getc stream in
  let* r := stream_ungetc stream c in
  let* c' := stream_getc stream in
  ret (c, r, c').

(** [c = get(); unget(c)]. *)
Definition get_unget (stream : VALUE) : M (Z * Z) :=
  let* c := stream_getc stream in
  let* r := stream_ungetc stream c in
  ret (c, r).

(** The position addresses a column of its line, the terminator slot
    [ln_Strlen - 1] at most. *)
Definition pos_in_line (tx : TX) (pos : VALUE) : Prop :=
  match pos with
  | V_Pos col row =>
      match zlookup (tx_Lines tx) row with
      | Some ln => col <= ln_Strlen ln - 1
      | None => False
      end
  | _ => False
  end.

(** The stream variants with a position to rewind: a string input
    stream, a buffer, a resident mark, and [(Buffer . Pos)]; for the
    three buffer variants the position lies within its line. *)
Inductive unget_variant (w : World) : VALUE -> Prop :=
| uv_string p i sv :
    VCONS p w = Some (V_Int i, sv) -> STRINGP sv = true ->
    unget_variant w (V_Cons p)
| uv_buffer p tx :
    VTX p w = Some tx -> pos_in_line tx (tx_cursor tx) ->
    unget_variant w (V_Buffer p)
| uv_mark p mk tx :
    VMARK p w = Some mk -> mk_resident mk = true ->
    VTX (mk_tx mk) w = Some tx -> pos_in_line tx (mk_Pos mk) ->
    unget_variant w (V_Mark p)
| uv_buffer_pos p q pos tx :
    VCONS p w = Some (V_Buffer q, pos) -> POSP pos = true ->
    VTX q w = Some tx -> pos_in_line tx pos ->
    unget_variant w (V_Cons p).

(** The types for which a [switch(VTYPE(stream))] has no [case] in any
    of the primitives. *)
Definition no_stream_type (v : VALUE) : bool :=
  match v with
  | V_Int _ | V_String _ | V_StaticString _ | V_Pos _ _ | V_Other _ => true
  | _ => false
  end.

(** A computation that leaves the signalled conditions as they were. *)
Definition silent {A : Type} (m : M A) : Prop :=
  forall (w w' : World) (a : A), m w = Ok a w' -> conditions w' = conditions w.

(** The pointer leads to a local variable of the caller. *)
Definition is_local (pos : pos_ptr) : bool :=
  match pos with P_local _ => true | _ => false end.

(** The collaborators [stream_ungetc] relies on signal nothing. *)
Definition quiet_collaborators : Prop :=
  (forall s e w, conditions (snd (cmd_symbol_value K s e w)) = conditions w)
  /\ (forall f a w, conditions (snd (call_lisp1 K f a w)) = conditions w)
  /\ (forall c f w, conditions (snd (c_ungetc K c f w)) = conditions w).

(** The return code of [stream_puts] on a callable stream, from the
    value [res] the call returned and the byte count [bufLen]. *)
Definition callable_rc (res : VALUE) (bufLen : Z) : Z :=
  if non_null res && negb (NILP res) then
    if INTP res then VINT res else bufLen
  else 0.

(** A stream that is called as a function by [stream_puts]: a symbol
    other than [t] and [nil], or a cons whose car is [lambda]. *)
Definition callable_stream (stream : VALUE) (w : World) : Prop :=
  match stream with
  | V_Symbol _ => is_sym sym_t stream = false /\ NILP stream = false
  | V_Cons p => exists d, VCONS p w = Some (sym_lambda, d)
  | _ => False
  end.

Definition set_host (h : Host) (w : World) :=
  mkWorld (strings w) (conses w) (files w) (lfile_chain w) (buffers w)
    (marks w) (gc_inhibit w) (conditions w) (w_has_message w) (w_Message w)
    (w_MessageLen w) (minibuf_refresh w) h.

End Streams.

Arguments Ok {Host A} a w.
Arguments Undefined {Host A}.
Arguments Timeout {Host A}.

Notation "'let*' x ':=' m 'in' k" := (bind m (fun x => k))
  (at level 10, x name, m at level 100, k at level 200) : stream_scope.
Notation "'do' m 'then' k" := (bind m (fun _ => k))
  (at level 10, m at level 100, k at level 200) : stream_scope.


(** * The other operations of streams.c *)

Section Operations.

Context {Host : Type}.

Local Open Scope stream_scope.

(** ** More collaborators

    What the operations below call and streams.c does not define. *)
Record Collab2 : Type := mkCollab2 {
  (* fgets(buf, n, f): the bytes it stored, terminator included, or
     [None] when it returns a null pointer *)
  c_fgets : Z -> option nat -> @World Host -> option (list byte) * @World Host;
  (* fflush(f) and feof(f) *)
  c_fflush : option nat -> @World Host -> @World Host;
  c_feof : option nat -> @World Host -> bool * @World Host;
  (* sprintf(tbuf, "%l<c>", v): the characters it stores before the
     terminator, from the conversion character and the long *)
  c_sprintf : Z -> Z -> list byte;
  (* (long)val for a value that is not an integer: its pointer word *)
  value_word : VALUE -> Z;
  (* princ_val(stream, obj) and print_val(stream, obj) *)
  princ_val : VALUE -> VALUE -> @World Host -> @World Host;
  print_val : VALUE -> VALUE -> @World Host -> @World Host;
  (* same_files(name1, name2) *)
  same_files : list byte -> list byte -> @World Host -> bool * @World Host;
  (* the C library's stdin, stdout and stderr *)
  c_stdin : option nat;
  c_stdout : option nat;
  c_stderr : option nat;
  (* mark_static(&v): pin the value held in a static variable *)
  mark_static : VALUE -> @World Host -> @World Host
}.

Variable K : @Collab Host.
Variable L : Collab2.

(** Modelled from the spec: [string_dup] is not part of streams.c; the
    spec's [string-dup] copies a zero-terminated byte string into a fresh
    Lisp string. *)
Definition string_dup (buf : list byte) : @M Host VALUE :=
  let* n := deref (fun _ => strlen buf) in
  string_dupn buf n.

(** Modelled from the spec: [cmd_copy_sequence] is not part of
    streams.c; for a string the spec has it return a fresh copy of the
    exact length. *)
Definition cmd_copy_sequence (seq : VALUE) : @M Host VALUE :=
  let* s := deref (VSTRING seq) in
  string_dupn (str_data s) (str_len s).

(** ** read-line *)

(** The [while] loop of the second branch of [cmd_read_line]; [buf] is
    the 400-byte array and [len] the count, also the offset of [bufp]. *)
Fixpoint read_line_loop (fuel : nat) (stream : VALUE) (buf : list byte) (len : Z)
  : @M Host (list byte * Z) :=
  match fuel with
  | O => fun _ => Timeout
  | S fuel' =>
      let* c := stream_getc K stream in
      if c =? EOF then ret (buf, len)
      else
        let* buf := deref (fun _ => zstore buf len (uchar_of_int c)) in
        let len := int_wrap (len + 1) in
        if (len >=? 399) || (c =? 10) then ret (buf, len)
        else read_line_loop fuel' stream buf len
  end.

(** The loop leaves after 399 bytes at the latest, so 399 rounds are all
    it can take. *)
Definition cmd_read_line (stream : VALUE) : @M Host VALUE :=
  match stream with
  | V_File p =>
      let* lf := deref (VFILE p) in
      if non_null (lf_name lf) then
        let* r := call (c_fgets L 400 (lf_file lf)) in
        match r with
        | Some buf => string_dup buf
        | None => ret sym_nil
        end
      else ret sym_nil
  | _ =>
      let* r := read_line_loop 399 stream (replicate 400 (uninit K)) 0 in
      if snd r =? 0 then ret sym_nil
      else string_dupn (fst r) (snd r)
  end.

(** ** format *)

Definition sym_missing_arg : VALUE := V_Symbol "missing-arg".

(** Modelled from the spec: [signal_missing_arg] is not part of
    streams.c; the spec's [missing-arg] condition carries the argument
    position. *)
Definition signal_missing_arg (argnum : Z) : @M Host VALUE :=
  cmd_signal sym_missing_arg [MAKE_INT argnum].

(** [*fmt] with [fmt] at offset [i] of the format string's bytes. *)
Definition read_fmt (format : VALUE) (i : Z) : @M Host Z :=
  let* s := deref (VSTRING format) in
  let* b := deref (fun _ => zlookup (str_data s) i) in
  ret (int_of_uchar b).

(** [stream_puts(stream, last_fmt, n, FALSE)] with [last_fmt] at offset
    [j] of the format string's bytes. *)
Definition puts_fmt (stream format : VALUE) (j n : Z) : @M Host unit :=
  let* s := deref (VSTRING format) in
  let* tail := deref (fun _ => if (0 <=? j) && (j <=? Z.of_nat (length (str_data s)))
                               then Some (drop (Z.to_nat j) (str_data s))
                               else None) in
  do stream_puts K stream (Data_raw tail) n false then ret tt.

(** The [switch(c)] on the conversion character. *)
Definition format_directive (stream : VALUE) (c : Z) (val : VALUE) : @M Host unit :=
  if (c =? 100) || (c =? 120) || (c =? 111) || (c =? 99) then   (* d x o c *)
    let text := c_sprintf L c (if INTP val then VINT val else value_word L val) in
    if 40 <=? Z.of_nat (length text) then fun _ => Undefined
    else do stream_puts K stream (Data_raw (text ++ [x00])) (-1) false then ret tt
  else if c =? 115 then modify (princ_val L stream val)           (* s *)
  else if c =? 83 then modify (print_val L stream val)            (* S *)
  else ret tt.

(** The statements after the [while] loop; [fmt] is the offset behind
    the terminator that ended the loop. *)
Definition format_finish (stream format : VALUE) (mk_str : bool) (fmt last_fmt : Z)
  : @M Host VALUE :=
  do (if negb (last_fmt =? fmt - 1)
      then puts_fmt stream format last_fmt (fmt - last_fmt - 1)
      else ret tt) then
  if mk_str then
    match stream with
    | V_Cons p =>
        let* cell := deref (VCONS p) in
        let* s := deref (VSTRING (fst cell)) in
        if negb (str_len s =? VINT (snd cell))
        then cmd_copy_sequence (fst cell)
        else ret (fst cell)
    | _ => fun _ => Undefined
    end
  else ret stream.

(** The [while] loop; [fmt] and [last_fmt] are offsets into the format
    string's bytes. *)
Fixpoint format_loop (fuel : nat) (stream format : VALUE) (mk_str : bool)
    (fmt last_fmt : Z) (args : VALUE) : @M Host VALUE :=
  match fuel with
  | O => fun _ => Timeout
  | S fuel' =>
      let* c := read_fmt format fmt in
      let fmt := fmt + 1 in
      if c =? 0 then format_finish stream format mk_str fmt last_fmt
      else if c =? 37 then                                          (* % *)
        do (if negb (last_fmt =? fmt)
            then puts_fmt stream format last_fmt (fmt - last_fmt - 1)
            else ret tt) then
        let* c := read_fmt format fmt in
        let fmt := fmt + 1 in
        if c =? 37 then
          do stream_putc K stream 37 then
          format_loop fuel' stream format mk_str fmt fmt args
        else
          match args with
          | LISP_NULL => fun _ => Undefined
          | V_Cons a =>
              let* cell := deref (VCONS a) in
              do format_directive stream c (fst cell) then
              format_loop fuel' stream format mk_str fmt fmt (snd cell)
          | _ => signal_missing_arg 0
          end
      else format_loop fuel' stream format mk_str fmt last_fmt args
  end.

Definition cmd_format (fuel : nat) (args : VALUE) : @M Host VALUE :=
  match args with
  | LISP_NULL => fun _ => Undefined
  | V_Cons a0 =>
      let* cell0 := deref (VCONS a0) in
      let* sm :=
        (if NILP (fst cell0) then
           let* e := string_dupn [x00] 0 in
           let* strm := cmd_cons e (MAKE_INT 0) in
           ret (strm, true)
         else ret (fst cell0, false)) in
      match snd cell0 with
      | LISP_NULL => fun _ => Undefined
      | V_Cons a1 =>
          let* cell1 := deref (VCONS a1) in
          let format := fst cell1 in
          match format with
          | LISP_NULL => fun _ => Undefined
          | V_String _ | V_StaticString _ =>
              format_loop fuel (fst sm) format (snd sm) 0 0 (snd cell1)
          | _ => signal_arg_error format 2
          end
      | _ => signal_missing_arg 2
      end
  | _ => signal_missing_arg 1
  end.

(** ** get-output-stream-string and streamp *)

Definition cmd_get_output_stream_string (strm : VALUE) : @M Host VALUE :=
  match strm with
  | LISP_NULL => fun _ => Undefined
  | V_Cons p =>
      let* cell := deref (VCONS p) in
      if negb (STRINGP (fst cell)) || negb (INTP (snd cell))
      then signal_arg_error strm 1
      else
        let* s := deref (VSTRING (fst cell)) in
        let* string :=
          (if negb (str_len s =? VINT (snd cell))
           then cmd_copy_sequence (fst cell)
           else ret (fst cell)) in
        let* fresh := string_dupn [x00] 0 in
        let* cell1 := deref (VCONS p) in
        do update (store_cons p (fresh, snd cell1)) then
        let* cell2 := deref (VCONS p) in
        do update (store_cons p (fst cell2, MAKE_INT 0)) then
        ret string
  | _ => signal_arg_error strm 1
  end.

Definition cmd_streamp (arg : VALUE) : @M Host VALUE :=
  match arg with
  | LISP_NULL => fun _ => Undefined
  | V_File _ | V_Buffer _ | V_Mark _ | V_Process _ | V_Symbol _ => ret sym_t
  | V_Cons p =>
      let* cell := deref (VCONS p) in
      let car := fst cell in
      let cdr := snd cell in
      if is_sym sym_lambda car
         || (BUFFERP car && (POSP cdr || is_sym sym_t cdr))
         || (INTP car && STRINGP cdr)
         || (STRINGP car && INTP cdr)
      then ret sym_t else ret sym_nil
  | _ => ret sym_nil
  end.

(** ** File objects, continued *)

(** [VTYPE(v)] for a value that is not null, as a number; a string
    constant has the type of a string, as in the [case V_String] of
    [cmd_write]. *)
Definition VTYPE (v : VALUE) : nat :=
  match v with
  | LISP_NULL => 0
  | V_Int _ => 1
  | V_String _ | V_StaticString _ => 2
  | V_Cons _ => 3
  | V_Symbol _ => 4
  | V_File _ => 5
  | V_Buffer _ => 6
  | V_Mark _ => 7
  | V_Pos _ _ => 8
  | V_Process _ => 9
  | V_Other tag => 10 + tag
  end.

(** [VTYPE(v1) == VTYPE(v2)]. *)
Definition same_type (v1 v2 : VALUE) : bool := Nat.eqb (VTYPE v1) (VTYPE v2).

(** [file_cmp] reads both values as file objects once their types are
    the same; it is the comparison entry of the file type. *)
Definition file_cmp (v1 v2 : VALUE) : @M Host Z :=
  match v1, v2 with
  | LISP_NULL, _ | _, LISP_NULL => fun _ => Undefined
  | _, _ =>
      if same_type v1 v2 then
        match v1, v2 with
        | V_File p1, V_File p2 =>
            let* f1 := deref (VFILE p1) in
            if non_null (lf_name f1) then
              let* f2 := deref (VFILE p2) in
              if non_null (lf_name f2) then
                let* n1 := deref (VSTRING (lf_name f1)) in
                let* n2 := deref (VSTRING (lf_name f2)) in
                let* same := call (same_files L (str_data n1) (str_data n2)) in
                ret (if same : bool then 0 else 1)
              else ret 1
            else ret 1
        | _, _ => fun _ => Undefined
        end
      else ret 1
  end.

(** [VFILE(v)] for a value already known to be a file. *)
Definition file_addr (v : VALUE) : option nat :=
  match v with V_File p => Some p | _ => None end.

Definition file_prin (strm obj : VALUE) : @M Host unit :=
  do stream_puts K strm (Data_raw (list_byte_of_string "#<file " ++ [x00])) (-1) false then
  let* p := deref (fun _ => file_addr obj) in
  let* lf := deref (VFILE p) in
  if non_null (lf_name lf) then
    let* n := deref (VSTRING (lf_name lf)) in
    do stream_puts K strm (Data_raw (str_data n)) (-1) false then
    do stream_putc K strm 62 then
    ret tt
  else
    do stream_puts K strm (Data_raw (list_byte_of_string "*unbound*>" ++ [x00])) (-1) false then
    ret tt.

Definition cmd_close (file : VALUE) : @M Host VALUE :=
  match file with
  | LISP_NULL => fun _ => Undefined
  | V_File p =>
      let* lf := deref (VFILE p) in
      do close_if_owned K lf then
      let* lf1 := deref (VFILE p) in
      do update (store_file p (mkFile (lf_name lf1) None (lf_dont_close lf1) (lf_marked lf1))) then
      let* lf2 := deref (VFILE p) in
      do update (store_file p (mkFile LISP_NULL (lf_file lf2) (lf_dont_close lf2) (lf_marked lf2))) then
      ret file
  | _ => signal_arg_error file 1
  end.


Definition cmd_filep (arg : VALUE) : @M Host VALUE :=
  match arg with
  | LISP_NULL => fun _ => Undefined
  | _ => if FILEP arg then ret sym_t else ret sym_nil
  end.

Definition cmd_file_bound_p (file : VALUE) : @M Host VALUE :=
  match file with
  | LISP_NULL => fun _ => Undefined
  | V_File p =>
      let* lf := deref (VFILE p) in
      if non_null (lf_name lf) then ret sym_t else ret sym_nil
  | _ => signal_arg_error file 1
  end.

Definition cmd_file_binding (file : VALUE) : @M Host VALUE :=
  match file with
  | LISP_NULL => fun _ => Undefined
  | V_File p =>
      let* lf := deref (VFILE p) in
      if non_null (lf_name lf) then ret (lf_name lf) else ret sym_nil
  | _ => signal_arg_error file 1
  end.


(** The loop of [streams_kill]. *)
Fixpoint kill_chain (lf : list nat) : @M Host unit :=
  match lf with
  | [] => ret tt
  | p :: nxt =>
      let* f := deref (VFILE p) in
      do close_if_owned K f then
      do update (free_file p) then
      kill_chain nxt
  end.

Definition streams_kill : @M Host unit :=
  let* w := get_world in
  do kill_chain (lfile_chain w) then
  modify (set_lfile_chain []).

(** ** The standard streams

    [cmd_stdin_file], [cmd_stdout_file] and [cmd_stderr_file] have the
    same body up to the name and the C stream.  The function-local
    [static VALUE] is passed in and handed back with the result. *)
Definition std_file (name : VALUE) (handle : option nat) (static : VALUE)
  : @M Host (VALUE * VALUE) :=
  if non_null static then ret (static, static)
  else
    let* f := cmd_open K sym_nil sym_nil sym_nil in
    let* p := deref (fun _ => file_addr f) in
    let* lf := deref (VFILE p) in
    do update (store_file p (mkFile name (lf_file lf) (lf_dont_close lf) (lf_marked lf))) then
    let* lf1 := deref (VFILE p) in
    do update (store_file p (mkFile (lf_name lf1) handle (lf_dont_close lf1) (lf_marked lf1))) then
    let* lf2 := deref (VFILE p) in
    do update (store_file p (mkFile (lf_name lf2) (lf_file lf2) true (lf_marked lf2))) then
    do modify (mark_static L f) then
    ret (f, f).

Definition stdin_name : VALUE := V_StaticString (list_byte_of_string "<stdin>").
Definition stdout_name : VALUE := V_StaticString (list_byte_of_string "<stdout>").
Definition stderr_name : VALUE := V_StaticString (list_byte_of_string "<stderr>").

Definition cmd_stdin_file : VALUE -> @M Host (VALUE * VALUE) := std_file stdin_name (c_stdin L).
Definition cmd_stdout_file : VALUE -> @M Host (VALUE * VALUE) := std_file stdout_name (c_stdout L).
Definition cmd_stderr_file : VALUE -> @M Host (VALUE * VALUE) := std_file stderr_name (c_stderr L).

(** ** Vocabulary for the properties of these operations *)

(** The capacity [stream_puts] records after appending [n] bytes to an
    accumulator of [len] bytes and capacity [cap]. *)
Definition puts_capacity (cap len n : Z) : Z :=
  if cap <=? len + n + 1
  then Z.max (len + n + 1) (if cap <? 16 then 32 else cap * 2)
  else cap.

(** Every file object on the chain [chain] is live, and none is on it
    twice. *)
Definition chain_ok (chain : list nat) (w : @World Host) : Prop :=
  NoDup chain /\ forall p, In p chain -> exists f, VFILE p w = Some f.

(** [fclose] leaves the Lisp file objects and their chain alone. *)
Definition fclose_frames : Prop :=
  forall h (w : @World Host),
    files (c_fclose K h w) = files w
    /\ lfile_chain (c_fclose K h w) = lfile_chain w.

(** [fopen] and the [fcntl] call after it leave the Lisp file objects
    and their chain alone. *)
Definition fopen_frames : Prop :=
  (forall n m (w : @World Host),
      files (snd (c_fopen K n m w)) = files w
      /\ lfile_chain (snd (c_fopen K n m w)) = lfile_chain w)
  /\ (forall h (w : @World Host),
         files (c_set_cloexec K h w) = files w
         /\ lfile_chain (c_set_cloexec K h w) = lfile_chain w).

(** The state after [cmd_open] has allocated a file object, linked it at
    the head of the chain and cleared it. *)
Definition with_new_file (w : @World Host) : @World Host :=
  set_lfile_chain (length (files w) :: lfile_chain w)
    (set_files (fun l => l ++ [Some (mkFile LISP_NULL None false false)]) w).

(** The GC mark of the file object at [p]. *)
Definition is_marked (w : @World Host) (p : nat) : bool :=
  match VFILE p w with
  | Some f => lf_marked f
  | None => false
  end.

(** [GC_CLR_CELL]: the file object with its mark cleared. *)
Definition unmark (f : Lisp_File) : Lisp_File :=
  mkFile (lf_name f) (lf_file f) (lf_dont_close f) false.

(** [fclose] would be called for this file object: it is bound and not
    flagged [LFF_DONT_CLOSE]. *)
Definition closable (f : Lisp_File) : bool :=
  non_null (lf_name f) && negb (lf_dont_close f).

(** What a write to the accumulator [strm] may change between [w] and
    [w']: the cell [strm] itself, its payload string, and strings
    allocated since [w].  Everything else is as it was; the payload of
    [w'] is the one of [w] or a string allocated since. *)
Definition accumulator_frame (strm : nat) (w w' : @World Host) : Prop :=
  files w' = files w
  /\ lfile_chain w' = lfile_chain w
  /\ conditions w' = conditions w
  /\ host w' = host w
  /\ length (conses w') = length (conses w)
  /\ (length (strings w) <= length (strings w'))%nat
  /\ (forall c, c <> strm -> VCONS c w' = VCONS c w)
  /\ (forall q s, strings w !! q = Some s ->
                  (forall d, VCONS strm w <> Some (V_String q, d)) ->
                  strings w' !! q = Some s)
  /\ (forall q d, VCONS strm w' = Some (V_String q, d) ->
                  (exists d0, VCONS strm w = Some (V_String q, d0))
                  \/ (length (strings w) <= q)%nat).

(** The value [v] is a proper-enough Lisp list of the values [vs]: a
    chain of cons cells, all at addresses below [bound], ended by a
    value that is neither a cons nor null. *)
Inductive lisp_list (w : @World Host) (bound : nat) : VALUE -> list VALUE -> Prop :=
| ll_end (v : VALUE) :
    non_null v = true -> (forall p, v <> V_Cons p) -> lisp_list w bound v []
| ll_cons (p : nat) (v rest : VALUE) (vs : list VALUE) :
    (p < bound)%nat -> VCONS p w = Some (v, rest) ->
    lisp_list w bound rest vs -> lisp_list w bound (V_Cons p) (v :: vs).

(** The text [sprintf] stored fits [tbuf] and holds no zero byte. *)
Definition text_ok (text : list byte) : bool :=
  (Z.of_nat (length text) <? 40)
  && forallb (fun b => negb (int_of_uchar b =? 0)) text.

(** The characters [format] writes for the bytes [fmt] of a format
    string (its terminator excluded) and the arguments [args], following
    the words of its documentation: [%%] is a percent sign, [%d], [%x],
    [%o] and [%c] are the next argument through [sprintf], any other
    character after [%] but [s] and [S] drops the next argument, and
    everything else stands for itself.  [None] when an argument is
    missing, when the string ends in a lone [%], when the printer is
    called for, or when [sprintf] stores a zero byte or too much. *)
Fixpoint render (fmt : list byte) (args : list VALUE) : option (list byte) :=
  match fmt with
  | [] => Some []
  | b :: rest =>
      if int_of_uchar b =? 37 then
        match rest with
        | [] => None
        | c :: rest' =>
            let c := int_of_uchar c in
            if c =? 37 then cons x25 <$> render rest' args
            else
              match args with
              | [] => None
              | v :: args' =>
                  if (c =? 100) || (c =? 120) || (c =? 111) || (c =? 99) then
                    let text := c_sprintf L c (if INTP v then VINT v
                                               else value_word L v) in
                    if text_ok text then app text <$> render rest' args'
                    else None
                  else if (c =? 115) || (c =? 83) then None
                  else render rest' args'
              end
        end
      else cons b <$> render rest args
  end.

(** Write each of the byte strings [chunks] with one [stream_puts]. *)
Fixpoint puts_all (stream : VALUE) (chunks : list (list byte)) : @M Host unit :=
  match chunks with
  | [] => ret tt
  | c :: rest =>
      do stream_puts K stream (Data_raw c) (Z.of_nat (length c)) false then
      puts_all stream rest
  end.

(** The capacity an accumulator of [len] bytes can have reached by
    doubling. *)
Definition cap_ok (cap len : Z) : Prop :=
  0 <= cap <= Z.max 32 (2 * (len + 1)).

(** [fclose] does nothing to the Lisp state; what it does to the host
    is [g]. *)
Definition fclose_acts (g : option nat -> Host -> Host) : Prop :=
  forall h (w : @World Host), c_fclose K h w = set_host (g h (host w)) w.

(** The handles of the file objects of [l] that are unmarked, bound and
    not flagged [LFF_DONT_CLOSE], in the order of [l]. *)
Definition swept_handles (w : @World Host) (l : list nat) : list (option nat) :=
  flat_map (fun p => match VFILE p w with
                     | Some f => if negb (lf_marked f) && closable f
                                 then [lf_file f] else []
                     | None => []
                     end) l.

(** [TEST_INT] finds no interrupt and changes nothing. *)
Definition never_interrupted : Prop :=
  forall w : @World Host, test_int K w = (false, w).

End Operations.

(** The value of a digit of a hex escape, and of a run of digits as the
    [u_char] accumulator leaves it. *)
Definition hex_digit (c : Z) : Z :=
  if (48 <=? c) && (c <=? 57) then c - 48 else toupper c - 65 + 10.

Definition hex_value (ds : list Z) : Z :=
  fold_left (fun acc d => (acc * 16 + hex_digit d) mod 256) ds 0.

(** A capacity of the form [max(32, 2^k)]. *)
Definition is_cap_form (v : Z) : Prop := exists k : nat, v = Z.max 32 (2 ^ Z.of_nat k).

(** The capacity recorded after [n] one-byte writes to a fresh
    accumulator, following the growth test of [stream_putc]. *)
Fixpoint cap_after (n : nat) : Z :=
  match n with
  | O => 0
  | S n' =>
      let cap := cap_after n' in
      if Z.of_nat n' + 1 >=? cap then (if cap <? 16 then 32 else cap * 2) else cap
  end.

(** ** Hosts to run the model in

    The Lisp environment holds the two standard streams and a log of the
    functions applied.  The only function is the symbol [sink], which
    accepts anything.  In the [strict] host, applying anything else
    signals [invalid-function] and looking up a void variable signals
    [void-value], the way a Lisp evaluator does; in the other host both
    just yield the null value.  No file can be opened, every buffer is
    read-only, and no interrupt is ever pending. *)
Record DemoHost : Type := mkDemoHost {
  dh_standard_input : VALUE;
  dh_standard_output : VALUE;
  dh_calls : list (VALUE * list VALUE)
}.

Definition demo_signal (strict : bool) (kind : VALUE) (args : list VALUE)
    (w : @World DemoHost) : @World DemoHost :=
  if strict then set_conditions (fun l => l ++ [(kind, args)]) w else w.

Definition demo_symbol_value (strict : bool) (sym no_err : VALUE)
    (w : @World DemoHost) : VALUE * @World DemoHost :=
  let v := if is_sym sym_standard_input sym then dh_standard_input (host w)
           else if is_sym sym_standard_output sym then dh_standard_output (host w)
           else LISP_NULL in
  if non_null v then (v, w)
  else (LISP_NULL, demo_signal strict (V_Symbol "void-value") [sym] w).

Definition demo_apply (strict : bool) (f : VALUE) (args : list VALUE)
    (w : @World DemoHost) : VALUE * @World DemoHost :=
  let h := host w in
  let w1 := set_host (mkDemoHost (dh_standard_input h) (dh_standard_output h)
                        (dh_calls h ++ [(f, args)])) w in
  if is_sym (V_Symbol "sink") f then (sym_t, w1)
  else (LISP_NULL, demo_signal strict (V_Symbol "invalid-function") [f] w1).

Definition demo_collab (strict : bool) : @Collab DemoHost :=
  {| cmd_symbol_value := demo_symbol_value strict;
     call_lisp0 := fun f => demo_apply strict f [];
     call_lisp1 := fun f a => demo_apply strict f [a];
     read_only := fun _ _ => true;
     pad_pos := fun _ _ w => (true, w);
     insert_string := fun _ _ _ _ w => (LISP_NULL, w);
     cmd_restriction_end := fun _ w => (make_pos 0 0, w);
     messagen := fun _ _ w => w;
     write_to_process := fun _ _ _ w => (0, w);
     c_getc := fun _ w => (EOF, w);
     c_ungetc := fun _ _ w => (EOF, w);
     c_putc := fun _ _ w => (EOF, w);
     c_fwrite := fun _ _ _ w => (0, w);
     c_fopen := fun _ _ w => (None, w);
     c_fclose := fun _ w => w;
     c_set_cloexec := fun _ w => w;
     lookup_errno := fun w =>
       (V_StaticString (list_byte_of_string "No such file or directory"), w);
     test_int := fun w => (false, w);
     uninit := xff |}.

Definition demo : @Collab DemoHost := demo_collab true.
Definition quiet_demo : @Collab DemoHost := demo_collab false.

(** The digits of [n] in base [base], most significant first, for
    [0 <= n]; [fuel] bounds their number. *)
Fixpoint digits (fuel : nat) (base n : Z) : list byte :=
  match fuel with
  | O => []
  | S fuel' =>
      let d := n mod base in
      let ch := uchar_of_int (if d <? 10 then 48 + d else 87 + d) in
      if n <? base then [ch] else digits fuel' base (n / base) ++ [ch]
  end.

(** [sprintf] with the conversions [%ld], [%lx], [%lo] and [%lc], for a
    long that is not negative. *)
Definition demo_sprintf (c n : Z) : list byte :=
  if c =? 100 then digits 20 10 n
  else if c =? 120 then digits 20 16 n
  else if c =? 111 then digits 20 8 n
  else [uchar_of_int n].

(** The C library of the demo hosts: [fgets] finds nothing to read, the
    three standard streams are the handles 0, 1 and 2, two names are the
    same file when they are equal, and the printer prints nothing. *)
Definition demo2 : @Collab2 DemoHost :=
  {| c_fgets := fun _ _ w => (None, w);
     c_fflush := fun _ w => w;
     c_feof := fun _ w => (true, w);
     c_sprintf := demo_sprintf;
     value_word := fun _ => 0;
     princ_val := fun _ _ w => w;
     print_val := fun _ _ w => w;
     same_files := fun a b w =>
       (Nat.eqb (length a) (length b)
        && forallb (fun ab => Byte.eqb (fst ab) (snd ab)) (combine a b), w);
     c_stdin := Some 0%nat;
     c_stdout := Some 1%nat;
     c_stderr := Some 2%nat;
     mark_static := fun _ w => w |}.

(** A state with the given strings, cons cells, buffers and marks, and
    the two standard streams. *)
Definition demo_world (ss : list Lisp_String) (cs : list (VALUE * VALUE))
    (bs : list TX) (ms : list Mark) (stdin stdout : VALUE) : @World DemoHost :=
  mkWorld ss cs [] [] bs ms false [] false [] 0 false
    (mkDemoHost stdin stdout []).

(** A Lisp string object holding the bytes [bs]. *)
Definition lisp_string (bs : list byte) : Lisp_String :=
  mkString (bs ++ [x00]) (Z.of_nat (length bs)).

(** A buffer of two lines, "ab" and "c", the cursor at its start. *)
Definition demo_buffer : TX :=
  mkTX [mkLine [x61; x62; x00] 3; mkLine [x63; x00] 2] 2 (make_pos 0 0).

(** [n] bytes, none of them zero. *)
Definition payload (n : nat) : list byte :=
  map (fun i => uchar_of_int (Z.of_nat i mod 255 + 1)) (seq 0 n).

(** Copy the bytes of [payload n] from a string input stream to a fresh
    output accumulator with [copy-stream]: the value returned, and the
    bytes the accumulator then holds. *)
Definition copy_payload (n : nat) : option (VALUE * list byte) :=
  let w := demo_world [lisp_string (payload n)] [] [] [] sym_nil sym_nil in
  match (let* src := cmd_make_string_input_stream (V_String 0) sym_nil in
         let* dst := cmd_make_string_output_stream in
         let* r := cmd_copy_stream demo (S n) src dst in
         let* cell := deref (match dst with
                             | V_Cons p => VCONS p
                             | _ => fun _ => None
                             end) in
         let* s := deref (VSTRING (fst cell)) in
         ret (r, take (Z.to_nat (str_len s)) (str_data s)))%stream w with
  | Ok x _ => Some x
  | _ => None
  end.

(** A state holding only the file objects [fs], chained as [chain]. *)
Definition file_world (fs : list (option Lisp_File)) (chain : list nat)
  : @World DemoHost :=
  mkWorld [] [] fs chain [] [] false [] false [] 0 false
    (mkDemoHost sym_nil sym_nil []).

(** A state with the given strings, cons cells and file objects. *)
Definition heap_world (ss : list Lisp_String) (cs : list (VALUE * VALUE))
    (fs : list (option Lisp_File)) (chain : list nat) : @World DemoHost :=
  mkWorld ss cs fs chain [] [] false [] false [] 0 false
    (mkDemoHost sym_nil sym_nil []).

(** What [fclose] does to the host with a disk: it enters the call in
    the host's log. *)
Definition log_fclose (h : option nat) (hst : DemoHost) : DemoHost :=
  mkDemoHost (dh_standard_input hst) (dh_standard_output hst)
    (dh_calls hst ++ [(V_Symbol "fclose", [])]).

(** The strict host with a disk: every [fopen] succeeds with handle 7,
    and every [fclose] is entered in the host's log of calls. *)
Definition disk_demo : @Collab DemoHost :=
  {| cmd_symbol_value := cmd_symbol_value demo;
     call_lisp0 := call_lisp0 demo;
     call_lisp1 := call_lisp1 demo;
     read_only := read_only demo;
     pad_pos := pad_pos demo;
     insert_string := insert_string demo;
     cmd_restriction_end := cmd_restriction_end demo;
     messagen := messagen demo;
     write_to_process := write_to_process demo;
     c_getc := c_getc demo;
     c_ungetc := c_ungetc demo;
     c_putc := c_putc demo;
     c_fwrite := c_fwrite demo;
     c_fopen := fun _ _ w => (Some 7%nat, w);
     c_fclose := fun h w => set_host (log_fclose h (host w)) w;
     c_set_cloexec := c_set_cloexec demo;
     lookup_errno := lookup_errno demo;
     test_int := test_int demo;
     uninit := uninit demo |}.

(** * Properties *)

Section Properties.

Context {Host : Type} (K : @Collab Host).

Local Open Scope stream_scope.

Lemma int_of_uchar_zero (b : byte) : (int_of_uchar b =? 0) = true <-> b = x00.
Proof.
  split.
  - destruct b; vm_compute; congruence.
  - intros ->. reflexivity.
Qed.

Lemma int_of_uchar_range (b : byte) : 0 <= int_of_uchar b < 256.
Proof.
  unfold int_of_uchar. pose proof (Byte.to_N_bounded b). lia.
Qed.

Lemma uchar_of_int_of_uchar (b : byte) : uchar_of_int (int_of_uchar b) = b.
Proof.
  unfold uchar_of_int. rewrite Z.mod_small by apply int_of_uchar_range.
  unfold int_of_uchar. rewrite N2Z.id, Byte.of_to_N. reflexivity.
Qed.

(** Stepping through the monad. *)

Lemma bind_deref {A B : Type} (o : World -> option A) (k : A -> M B)
    (w : @World Host) (a : A) :
  o w = Some a -> bind (deref o) k w = k a w.
Proof. intros H. unfold bind, deref. rewrite H. reflexivity. Qed.

Lemma bind_deref_none {A B : Type} (o : World -> option A) (k : A -> M B)
    (w : @World Host) :
  o w = None -> bind (deref o) k w = Undefined.
Proof. intros H. unfold bind, deref. rewrite H. reflexivity. Qed.

Lemma bind_update {B : Type} (o : World -> option World) (k : unit -> M B)
    (w w' : @World Host) :
  o w = Some w' -> bind (update o) k w = k tt w'.
Proof. intros H. unfold bind, update. rewrite H. reflexivity. Qed.

Lemma bind_ok {A B : Type} (m : M A) (k : A -> M B) (w w' : @World Host) (a : A) :
  m w = Ok a w' -> bind m k w = k a w'.
Proof. intros H. unfold bind. rewrite H. reflexivity. Qed.

Lemma bind_assoc {A B C : Type} (m : M A) (k1 : A -> M B) (k2 : B -> M C)
    (w : @World Host) :
  bind (bind m k1) k2 w = bind m (fun x => bind (k1 x) k2) w.
Proof. unfold bind. destruct (m w); reflexivity. Qed.

Lemma bind_ret {A B : Type} (a : A) (k : A -> M B) (w : @World Host) :
  bind (ret a) k w = k a w.
Proof. reflexivity. Qed.

Lemma bind_modify {B : Type} (f : World -> World) (k : unit -> M B)
    (w : @World Host) :
  bind (modify f) k w = k tt (f w).
Proof. reflexivity. Qed.

Lemma bind_get_world {B : Type} (k : World -> M B) (w : @World Host) :
  bind get_world k w = k w w.
Proof. reflexivity. Qed.

(** One step of a computation: a load, a store, or a call whose result
    is known. *)
Ltac mderef H :=
  rewrite ?bind_assoc;
  erewrite bind_deref by (first [exact H | reflexivity]); cbv beta.
Ltac mupdate tac :=
  rewrite ?bind_assoc; erewrite bind_update by tac; cbv beta.
Ltac mok H :=
  rewrite ?bind_assoc; rewrite (bind_ok _ _ _ _ _ H); cbv beta.

Lemma store_cons_some (p : nat) (c c' : VALUE * VALUE) (w : @World Host) :
  VCONS p w = Some c ->
  store_cons p c' w = Some (set_conses (fun l => <[p := c']> l) w).
Proof. unfold VCONS, store_cons. intros ->. reflexivity. Qed.

(** One read from an [(Int . String)] stream. *)
Lemma getc_string_step (p : nat) (i : Z) (sv : VALUE) (s : Lisp_String)
    (b : byte) (w : World) :
  VCONS p w = Some (V_Int i, sv) ->
  VSTRING sv w = Some s ->
  zlookup (str_data s) i = Some b ->
  stream_getc K (V_Cons p) w
  = if negb (int_of_uchar b =? 0)
    then Ok (int_of_uchar b)
           (set_conses (fun l => <[p := (V_Int (i + 1), sv)]> l) w)
    else Ok EOF w.
Proof.
  intros Hcell Hstr Hb.
  assert (Hsp : STRINGP sv = true).
  { destruct sv; simpl in Hstr; try discriminate; reflexivity. }
  unfold stream_getc, getc_switch. simpl.
  rewrite (bind_deref _ _ _ _ Hcell). simpl. rewrite Hsp.
  rewrite (bind_deref _ _ _ _ Hstr).
  erewrite bind_deref by exact Hb.
  destruct (int_of_uchar b =? 0); simpl; [reflexivity|].
  erewrite bind_update by (eapply store_cons_some; exact Hcell).
  reflexivity.
Qed.

(** C7.  Reading from an [(Int . String)] stream: when the byte at offset
    [Int] is zero the result is [EOF] and the state is untouched (so in
    particular at [Int] = the string's length, where the terminator
    sits); otherwise the result is that byte and the car of the cell
    becomes [Int + 1], nothing else changing. *)
Theorem getc_string_stream (p : nat) (i : Z) (sv : VALUE) (s : Lisp_String)
    (b : byte) (w : World) :
  VCONS p w = Some (V_Int i, sv) ->
  VSTRING sv w = Some s ->
  zlookup (str_data s) i = Some b ->
  (b = x00 -> stream_getc K (V_Cons p) w = Ok EOF w)
  /\ (i = str_len s -> zlookup (str_data s) (str_len s) = Some x00 ->
      stream_getc K (V_Cons p) w = Ok EOF w)
  /\ (b <> x00 ->
      stream_getc K (V_Cons p) w
      = Ok (int_of_uchar b)
           (set_conses (fun l => <[p := (V_Int (i + 1), sv)]> l) w)).
Proof.
  intros Hcell Hstr Hb.
  pose proof (getc_string_step p i sv s b w Hcell Hstr Hb) as Hgen.
  repeat split.
  - intros ->. rewrite Hgen. reflexivity.
  - intros -> Hz. rewrite Hb in Hz. injection Hz as ->. rewrite Hgen. reflexivity.
  - intros Hne. rewrite Hgen.
    destruct (int_of_uchar b =? 0) eqn:E; [|reflexivity].
    apply int_of_uchar_zero in E. contradiction.
Qed.

(** Reading a run of non-zero bytes that starts at the stream's offset. *)
Lemma read_chars_string (S : list byte) :
  forall (p q : nat) (s : Lisp_String) (pre slack : list byte) (w : World),
    VCONS p w = Some (V_Int (Z.of_nat (length pre)), V_String q) ->
    strings w !! q = Some s ->
    str_data s = pre ++ S ++ slack ->
    Forall (fun b => b <> x00) S ->
    exists w',
      read_chars K (length S) (V_Cons p) w = Ok (map int_of_uchar S) w'
      /\ VCONS p w' = Some (V_Int (Z.of_nat (length pre + length S)), V_String q)
      /\ strings w' = strings w.
Proof.
  induction S as [|b S IH]; intros p q s pre slack w Hcell Hstr Hdata Hnz.
  - exists w. simpl. rewrite Nat.add_0_r. auto.
  - inversion Hnz as [|? ? Hb HS]; subst.
    assert (Hlk : zlookup (str_data s) (Z.of_nat (length pre)) = Some b).
    { unfold zlookup.
      destruct (Z.ltb_spec (Z.of_nat (length pre)) 0) as [?|_]; [lia|].
      rewrite Nat2Z.id, Hdata. apply list_lookup_middle. reflexivity. }
    pose proof (getc_string_step p _ _ s b w Hcell Hstr Hlk) as Hstep.
    destruct (int_of_uchar b =? 0) eqn:E.
    { apply int_of_uchar_zero in E. contradiction. }
    simpl in Hstep.
    set (w1 := set_conses _ w) in Hstep.
    assert (Hcell1 : VCONS p w1
                     = Some (V_Int (Z.of_nat (length (pre ++ [b]))), V_String q)).
    { unfold VCONS, w1. simpl. rewrite length_app. simpl.
      rewrite list_lookup_insert_eq.
      - do 3 f_equal. lia.
      - apply lookup_lt_Some in Hcell. exact Hcell. }
    destruct (IH p q s (pre ++ [b]) slack w1 Hcell1 Hstr) as (w' & Hrd & Hc' & Hs').
    { rewrite Hdata, <- app_assoc. reflexivity. }
    { exact HS. }
    exists w'. split; [|split].
    + simpl. rewrite (bind_ok _ _ _ _ _ Hstep).
      rewrite (bind_ok _ _ _ _ _ Hrd). reflexivity.
    + rewrite Hc'. rewrite length_app. simpl. do 3 f_equal. lia.
    + rewrite Hs'. reflexivity.
Qed.

(** C3 (amended).  For a string whose bytes [S] are all non-zero, the
    stream made by [make-string-input-stream] yields exactly the bytes of
    [S] in [|S|] reads; the next read yields [EOF], and the stream's
    offset is then [|S|]. *)
Theorem string_input_stream_exhaustion (S slack : list byte) (q : nat)
    (w : World) :
  strings w !! q = Some (mkString (S ++ x00 :: slack) (Z.of_nat (length S))) ->
  Forall (fun b => b <> x00) S ->
  exists strm w1 w2,
    cmd_make_string_input_stream (V_String q) sym_nil w = Ok (V_Cons strm) w1
    /\ read_chars K (length S) (V_Cons strm) w1 = Ok (map int_of_uchar S) w2
    /\ stream_getc K (V_Cons strm) w2 = Ok EOF w2
    /\ VCONS strm w2 = Some (V_Int (Z.of_nat (length S)), V_String q).
Proof.
  intros Hstr Hnz.
  set (strm := length (conses w)).
  set (w1 := set_conses (fun l => l ++ [(V_Int 0, V_String q)]) w).
  assert (Hcell : VCONS strm w1 = Some (V_Int (Z.of_nat (@length byte [])), V_String q)).
  { unfold VCONS, w1, strm. simpl. apply list_lookup_middle. reflexivity. }
  destruct (read_chars_string S strm q _ [] (x00 :: slack) w1 Hcell Hstr eq_refl Hnz)
    as (w2 & Hrd & Hc2 & Hs2).
  simpl in Hc2.
  exists strm, w1, w2. split; [reflexivity|]. split; [exact Hrd|]. split; [|exact Hc2].
  assert (Hstr2 : VSTRING (V_String q) w2
                  = Some (mkString (S ++ x00 :: slack) (Z.of_nat (length S)))).
  { simpl. rewrite Hs2. exact Hstr. }
  assert (Hlk : zlookup (S ++ x00 :: slack) (Z.of_nat (length S)) = Some x00).
  { unfold zlookup.
    destruct (Z.ltb_spec (Z.of_nat (length S)) 0) as [?|_]; [lia|].
    rewrite Nat2Z.id. apply list_lookup_middle. reflexivity. }
  rewrite (getc_string_step strm _ _ _ x00 w2 Hc2 Hstr2 Hlk). reflexivity.
Qed.

(** *** Positions: what a store through a pointer does *)

Lemma world_eta (w : @World Host) :
  mkWorld (strings w) (conses w) (files w) (lfile_chain w) (buffers w)
    (marks w) (gc_inhibit w) (conditions w) (w_has_message w) (w_Message w)
    (w_MessageLen w) (minibuf_refresh w) (host w) = w.
Proof. destruct w; reflexivity. Qed.

Lemma store_pos_defined (pos : pos_ptr) (p v : VALUE) (w : @World Host) :
  load_pos pos w = Some p -> exists w1, store_pos pos v w = Some w1.
Proof.
  destruct pos as [m|t|c|l]; simpl; intros H.
  - destruct (marks w !! m); [eauto|discriminate].
  - destruct (buffers w !! t); [eauto|discriminate].
  - destruct (conses w !! c); [eauto|discriminate].
  - eauto.
Qed.

Lemma store_pos_load (pos : pos_ptr) (v : VALUE) (w w1 : @World Host) :
  is_local pos = false ->
  store_pos pos v w = Some w1 -> load_pos pos w1 = Some v.
Proof.
  destruct pos as [m|t|c|l]; simpl; intros Hl H; try discriminate.
  - destruct (marks w !! m) eqn:E; [|discriminate]. injection H as <-. simpl.
    rewrite list_lookup_insert_eq by (eapply lookup_lt_Some; exact E). reflexivity.
  - destruct (buffers w !! t) eqn:E; [|discriminate]. injection H as <-. simpl.
    rewrite list_lookup_insert_eq by (eapply lookup_lt_Some; exact E). reflexivity.
  - destruct (conses w !! c) eqn:E; [|discriminate]. injection H as <-. simpl.
    rewrite list_lookup_insert_eq by (eapply lookup_lt_Some; exact E). reflexivity.
Qed.

Lemma store_pos_restore (pos : pos_ptr) (p v : VALUE) (w w1 : @World Host) :
  load_pos pos w = Some p ->
  store_pos pos v w = Some w1 -> store_pos pos p w1 = Some w.
Proof.
  destruct pos as [m|t|c|l]; simpl; intros Hld H.
  - destruct (marks w !! m) as [mk|] eqn:E; [|discriminate].
    injection H as <-. injection Hld as <-. simpl.
    rewrite list_lookup_insert_eq by (eapply lookup_lt_Some; exact E).
    unfold set_marks. simpl. rewrite list_insert_insert_eq.
    rewrite list_insert_id by (destruct mk; exact E).
    rewrite world_eta. reflexivity.
  - destruct (buffers w !! t) as [tx|] eqn:E; [|discriminate].
    injection H as <-. injection Hld as <-. simpl.
    rewrite list_lookup_insert_eq by (eapply lookup_lt_Some; exact E).
    unfold set_buffers. simpl. rewrite list_insert_insert_eq.
    rewrite list_insert_id by (destruct tx; exact E).
    rewrite world_eta. reflexivity.
  - destruct (conses w !! c) as [cell|] eqn:E; [|discriminate].
    injection H as <-. injection Hld as <-. simpl.
    rewrite list_lookup_insert_eq by (eapply lookup_lt_Some; exact E).
    unfold set_conses. simpl. rewrite list_insert_insert_eq.
    rewrite list_insert_id by (destruct cell; exact E).
    rewrite world_eta. reflexivity.
  - injection H as <-. reflexivity.
Qed.

(** A store through a position pointer leaves every buffer's lines and
    end alone. *)
Lemma store_pos_lines (pos : pos_ptr) (v : VALUE) (w w1 : @World Host) (tx : nat) (t : TX) :
  store_pos pos v w = Some w1 -> VTX tx w = Some t ->
  exists t1, VTX tx w1 = Some t1 /\ tx_Lines t1 = tx_Lines t
             /\ tx_LogicalEnd t1 = tx_LogicalEnd t.
Proof.
  unfold VTX. destruct pos as [m|b|c|l]; simpl; intros H Ht.
  - destruct (marks w !! m); [|discriminate]. injection H as <-. simpl. eauto.
  - destruct (buffers w !! b) as [tb|] eqn:E; [|discriminate]. injection H as <-. simpl.
    destruct (decide (b = tx)) as [->|Hne].
    + rewrite list_lookup_insert_eq by (eapply lookup_lt_Some; exact E).
      rewrite E in Ht. injection Ht as <-. eexists. split; [reflexivity|]. auto.
    + rewrite list_lookup_insert_ne by exact Hne. eauto.
  - destruct (conses w !! c); [|discriminate]. injection H as <-. simpl. eauto.
  - injection H as <-. eauto.
Qed.

(** The heart of C5 for the three buffer variants: after a successful
    [pos_getc] from a position within its line, [POS_UNGETC] puts the
    state back. *)
Lemma pos_get_unget (tx : nat) (pos : pos_ptr) (t : TX) (p : VALUE)
    (c : Z) (w w1 : @World Host) :
  is_local pos = false ->
  load_pos pos w = Some p -> VTX tx w = Some t -> pos_in_line t p ->
  pos_getc tx pos w = Ok c w1 -> c <> EOF ->
  POS_UNGETC pos (Some tx) w1 = Ok tt w.
Proof.
  intros Hloc Hld Ht Hin Hget Hc.
  destruct p as [| | | | | | | | |col row| |]; simpl in Hin; try contradiction.
  destruct (zlookup (tx_Lines t) row) as [ln|] eqn:Hln; [|contradiction].
  unfold pos_getc in Hget.
  rewrite (bind_deref _ _ _ _ Hld), (bind_deref _ _ _ _ Ht) in Hget.
  destruct (row <? tx_LogicalEnd t).
  2:{ destruct (store_pos_defined pos _ (make_pos col row) w Hld) as [w' Hw'].
      rewrite (bind_update _ _ _ _ Hw') in Hget. injection Hget as <- _.
      contradiction. }
  erewrite bind_deref in Hget by exact Hln.
  destruct (Z.geb_spec col (ln_Strlen ln - 1)) as [Hge|Hlt].
  - assert (col = ln_Strlen ln - 1) as Hcol by lia.
    destruct (row + 1 =? tx_LogicalEnd t).
    { destruct (store_pos_defined pos _ (make_pos col row) w Hld) as [w' Hw'].
      rewrite (bind_update _ _ _ _ Hw') in Hget. injection Hget as <- _.
      contradiction. }
    destruct (store_pos_defined pos _ (make_pos 0 (row + 1)) w Hld) as [w' Hw'].
    rewrite (bind_update _ _ _ _ Hw') in Hget. injection Hget as <- <-.
    destruct (store_pos_lines _ _ _ _ _ _ Hw' Ht) as (t1 & Ht1 & Hl1 & _).
    unfold POS_UNGETC.
    rewrite (bind_deref _ _ _ _ (store_pos_load _ _ _ _ Hloc Hw')).
    simpl.
    erewrite bind_deref by reflexivity.
    rewrite (bind_deref _ _ _ _ Ht1).
    replace (row + 1 - 1) with row by lia.
    erewrite bind_deref by (rewrite Hl1; exact Hln).
    unfold update, make_pos. rewrite <- Hcol.
    rewrite (store_pos_restore _ _ _ _ _ Hld Hw'). reflexivity.
  - destruct (zlookup (ln_Line ln) col) as [b|] eqn:Hb.
    2:{ erewrite bind_deref_none in Hget by reflexivity. discriminate. }
    erewrite bind_deref in Hget by reflexivity.
    destruct (store_pos_defined pos _ (make_pos (col + 1) row) w Hld) as [w' Hw'].
    rewrite (bind_update _ _ _ _ Hw') in Hget. injection Hget as <- <-.
    assert (0 <= col).
    { unfold zlookup in Hb. destruct (Z.ltb_spec col 0); [discriminate|lia]. }
    unfold POS_UNGETC.
    rewrite (bind_deref _ _ _ _ (store_pos_load _ _ _ _ Hloc Hw')).
    simpl.
    destruct (Z.ltb_spec (col + 1 - 1) 0); [lia|].
    replace (col + 1 - 1) with col by lia.
    unfold update, make_pos.
    rewrite (store_pos_restore _ _ _ _ _ Hld Hw'). reflexivity.
Qed.

(** [pos_getc] changes the state by one store through its pointer. *)
Lemma pos_getc_store (tx : nat) (pos : pos_ptr) (c : Z) (w w1 : @World Host) :
  pos_getc tx pos w = Ok c w1 ->
  exists col row, store_pos pos (V_Pos col row) w = Some w1.
Proof.
  unfold pos_getc, bind, deref, update, ret, make_pos. intros H.
  destruct (load_pos pos w) as [p|]; [|discriminate].
  destruct (VTX tx w) as [t|]; [|discriminate].
  destruct p; try discriminate.
  destruct (row <? tx_LogicalEnd t).
  - destruct (zlookup (tx_Lines t) row) as [ln|]; [|discriminate].
    destruct (col >=? ln_Strlen ln - 1).
    + destruct (row + 1 =? tx_LogicalEnd t).
      * destruct (store_pos pos (V_Pos col row) w) eqn:E; [|discriminate].
        injection H as _ <-. eauto.
      * destruct (store_pos pos (V_Pos 0 (row + 1)) w) eqn:E; [|discriminate].
        injection H as _ <-. eauto.
    + destruct (zlookup (ln_Line ln) col); [|discriminate].
      destruct (store_pos pos (V_Pos (col + 1) row) w) eqn:E; [|discriminate].
      injection H as _ <-. eauto.
  - destruct (store_pos pos (V_Pos col row) w) eqn:E; [|discriminate].
    injection H as _ <-. eauto.
Qed.

(** After a successful read from one of the four variants, [unget-char]
    succeeds and puts the state back. *)
Lemma ungetc_after_getc (stream : VALUE) (c : Z) (w w1 : World) :
  unget_variant w stream ->
  stream_getc K stream w = Ok c w1 -> c <> EOF ->
  stream_ungetc K stream c w1 = Ok 1 w.
Proof.
  intros Hv Hget Hc. destruct Hv as [p i sv Hcell Hsp|p tx Htx Hin
    |p mk tx Hmk Hres Htx Hin|p q pos tx Hcell Hpp Htx Hin].
  - (* (Int . String) *)
    unfold stream_getc, getc_switch in Hget. simpl in Hget.
    rewrite (bind_deref _ _ _ _ Hcell) in Hget. simpl in Hget. rewrite Hsp in Hget.
    destruct (VSTRING sv w) as [s|] eqn:Hs.
    2:{ erewrite bind_deref_none in Hget by exact Hs. discriminate. }
    rewrite (bind_deref _ _ _ _ Hs) in Hget.
    destruct (zlookup (str_data s) i) as [b|] eqn:Hb.
    2:{ erewrite bind_deref_none in Hget by reflexivity. discriminate. }
    erewrite bind_deref in Hget by reflexivity.
    destruct (int_of_uchar b =? 0); simpl in Hget.
    { injection Hget as <- _. contradiction. }
    erewrite bind_update in Hget by (eapply store_cons_some; exact Hcell).
    injection Hget as _ <-.
    assert (Hcell1 : VCONS p (set_conses (fun l => <[p := (MAKE_INT (i + 1), sv)]> l) w)
                     = Some (V_Int (i + 1), sv)).
    { unfold VCONS. simpl.
      apply list_lookup_insert_eq. eapply lookup_lt_Some; exact Hcell. }
    unfold stream_ungetc, ungetc_switch. simpl.
    rewrite (bind_deref _ _ _ _ Hcell1). simpl. rewrite Hsp.
    erewrite bind_update by (eapply store_cons_some; exact Hcell1).
    unfold ret, set_conses, MAKE_INT. simpl.
    rewrite list_insert_insert_eq. replace (i + 1 - 1) with i by lia.
    rewrite list_insert_id by exact Hcell. rewrite world_eta. reflexivity.
  - (* Buffer *)
    unfold stream_getc in Hget. simpl in Hget.
    assert (Hld : load_pos (P_cursor p) w = Some (tx_cursor tx)).
    { simpl. unfold VTX in Htx. rewrite Htx. reflexivity. }
    unfold stream_ungetc, ungetc_switch. simpl.
    rewrite (bind_ok _ _ _ _ _
               (pos_get_unget p (P_cursor p) tx _ c w w1 eq_refl Hld Htx Hin Hget Hc)).
    reflexivity.
  - (* resident Mark *)
    unfold stream_getc, getc_switch in Hget. simpl in Hget.
    rewrite (bind_deref _ _ _ _ Hmk) in Hget. rewrite Hres in Hget. simpl in Hget.
    assert (Hld : load_pos (P_mark p) w = Some (mk_Pos mk)).
    { simpl. unfold VMARK in Hmk. rewrite Hmk. reflexivity. }
    destruct (pos_getc_store _ _ _ _ _ Hget) as (col & row & Hst).
    assert (Hmk1 : VMARK p w1 = Some (mkMark true (mk_tx mk) (V_Pos col row))).
    { simpl in Hst. unfold VMARK in *. rewrite Hmk in Hst. injection Hst as <-.
      simpl. rewrite Hres.
      apply list_lookup_insert_eq. eapply lookup_lt_Some; exact Hmk. }
    unfold stream_ungetc, ungetc_switch. simpl.
    rewrite (bind_deref _ _ _ _ Hmk1). simpl.
    rewrite (bind_ok _ _ _ _ _
               (pos_get_unget _ (P_mark p) tx _ c w w1 eq_refl Hld Htx Hin Hget Hc)).
    reflexivity.
  - (* (Buffer . Pos) *)
    unfold stream_getc, getc_switch in Hget. simpl in Hget.
    rewrite (bind_deref _ _ _ _ Hcell) in Hget. simpl in Hget. rewrite Hpp in Hget.
    erewrite bind_deref in Hget by reflexivity.
    assert (Hld : load_pos (P_cdr p) w = Some pos).
    { simpl. unfold VCONS in Hcell. rewrite Hcell. reflexivity. }
    destruct (pos_getc_store _ _ _ _ _ Hget) as (col & row & Hst).
    assert (Hcell1 : VCONS p w1 = Some (V_Buffer q, V_Pos col row)).
    { simpl in Hst. unfold VCONS in *. rewrite Hcell in Hst. injection Hst as <-.
      simpl. apply list_lookup_insert_eq. eapply lookup_lt_Some; exact Hcell. }
    unfold stream_ungetc, ungetc_switch. simpl.
    rewrite (bind_deref _ _ _ _ Hcell1). simpl.
    rewrite (bind_ok _ _ _ _ _
               (pos_get_unget _ (P_cdr p) tx _ c w w1 eq_refl Hld Htx Hin Hget Hc)).
    reflexivity.
Qed.

(** C5 (amended).  For a string input stream, a buffer, a resident mark
    or [(Buffer . Pos)] (the position of the latter three lying within
    its line): when [get-char] succeeds with byte [c], [unget-char(c)]
    succeeds and leaves the state exactly as it was before the read, and
    the next [get-char] returns [c] again, ending in the state the first
    read ended in. *)
Theorem unget_inverts_read (stream : VALUE) (c : Z) (w w1 : World) :
  unget_variant w stream ->
  stream_getc K stream w = Ok c w1 -> c <> EOF ->
  get_unget K stream w = Ok (c, 1) w
  /\ get_unget_get K stream w = Ok (c, 1, c) w1.
Proof.
  intros Hv Hget Hc.
  pose proof (ungetc_after_getc stream c w w1 Hv Hget Hc) as Hun.
  unfold get_unget, get_unget_get. split.
  - rewrite (bind_ok _ _ _ _ _ Hget), (bind_ok _ _ _ _ _ Hun). reflexivity.
  - rewrite (bind_ok _ _ _ _ _ Hget), (bind_ok _ _ _ _ _ Hun),
      (bind_ok _ _ _ _ _ Hget). reflexivity.
Qed.

(** *** The output accumulator *)

Lemma int_wrap_small (z : Z) : - 2 ^ 31 <= z < 2 ^ 31 -> int_wrap z = z.
Proof. intros H. unfold int_wrap. rewrite Z.mod_small by lia. lia. Qed.

(** Writing a byte and a terminator after the bytes [B] of an array. *)
Lemma tail_write (B rest : list byte) (b : byte) :
  (2 <= length rest)%nat ->
  let d := <[S (length B) := x00]> (<[length B := b]> (B ++ rest)) in
  take (length (B ++ [b])) d = B ++ [b]
  /\ d !! length (B ++ [b]) = Some x00
  /\ length d = length (B ++ rest).
Proof.
  intros Hr. destruct rest as [|r0 [|r1 rest]]; simpl in Hr; try lia.
  intros d.
  assert (Hd : d = (B ++ [b]) ++ x00 :: rest).
  { subst d.
    rewrite (insert_app_r_alt B _ (length B)) by lia.
    rewrite Nat.sub_diag. simpl.
    rewrite (insert_app_r_alt B _ (S (length B))) by lia.
    replace (S (length B) - length B)%nat with 1%nat by lia. simpl.
    rewrite <- app_assoc. reflexivity. }
  rewrite Hd. repeat split.
  - apply take_app_length.
  - apply list_lookup_middle. reflexivity.
  - rewrite !length_app. simpl. lia.
Qed.

Lemma store_string_some (q : nat) (s s' : Lisp_String) (w : @World Host) :
  strings w !! q = Some s ->
  store_string (V_String q) s' w = Some (set_strings (fun l => <[q := s']> l) w).
Proof. unfold store_string. intros ->. reflexivity. Qed.

Lemma strings_insert_lookup (q : nat) (s s' : Lisp_String) (w : @World Host) :
  strings w !! q = Some s ->
  strings (set_strings (fun l => <[q := s']> l) w) !! q = Some s'.
Proof.
  intros H. simpl. apply list_lookup_insert_eq. eapply lookup_lt_Some; exact H.
Qed.

(** The three statements that end the accumulator case of [stream_putc]:
    store the byte, store the terminator, set the length. *)
Lemma putc_tail (q : nat) (s : Lisp_String) (n : nat) (b : byte) (w : @World Host) :
  strings w !! q = Some s ->
  (n + 1 < length (str_data s))%nat ->
  (do string_poke (V_String q) (Z.of_nat n) b then
   do string_poke (V_String q) (Z.of_nat n + 1) x00 then
   do set_string_len (V_String q) (Z.of_nat n + 1) then
   ret 1) w
  = Ok 1 (set_strings
            (fun l => <[q := mkString (<[S n := x00]> (<[n := b]> (str_data s)))
                                      (Z.of_nat n + 1)]> l) w).
Proof.
  intros Hs Hn.
  assert (Hz1 : zstore (str_data s) (Z.of_nat n) b = Some (<[n := b]> (str_data s))).
  { unfold zstore.
    destruct (Z.leb_spec 0 (Z.of_nat n)); [|lia].
    destruct (Z.ltb_spec (Z.of_nat n) (Z.of_nat (length (str_data s)))); [|lia].
    simpl. rewrite Nat2Z.id. reflexivity. }
  assert (Hz2 : zstore (<[n := b]> (str_data s)) (Z.of_nat n + 1) x00
                = Some (<[S n := x00]> (<[n := b]> (str_data s)))).
  { unfold zstore. rewrite length_insert.
    destruct (Z.leb_spec 0 (Z.of_nat n + 1)); [|lia].
    destruct (Z.ltb_spec (Z.of_nat n + 1) (Z.of_nat (length (str_data s)))); [|lia].
    simpl. replace (Z.to_nat (Z.of_nat n + 1)) with (S n) by lia. reflexivity. }
  unfold string_poke, set_string_len.
  mderef Hs. mderef Hz1. mupdate ltac:(eapply store_string_some; exact Hs).
  set (w1 := set_strings _ w).
  assert (Hs1 : VSTRING (V_String q) w1
                = Some (mkString (<[n := b]> (str_data s)) (str_len s))).
  { apply (strings_insert_lookup q s _ w Hs). }
  mderef Hs1. mderef Hz2. mupdate ltac:(eapply store_string_some; exact Hs1).
  set (w2 := set_strings _ w1).
  assert (Hs2 : VSTRING (V_String q) w2
                = Some (mkString (<[S n := x00]> (<[n := b]> (str_data s))) (str_len s))).
  { apply (strings_insert_lookup q _ _ w1 Hs1). }
  mderef Hs2. mupdate ltac:(eapply store_string_some; exact Hs2).
  unfold ret, w2, w1, set_strings. simpl.
  rewrite !list_insert_insert_eq. reflexivity.
Qed.

Lemma memcpy_prefix (dst src : list byte) (n : nat) :
  (n <= length src)%nat -> (n <= length dst)%nat ->
  memcpy dst 0 src (Z.of_nat n) = Some (take n src ++ drop n dst).
Proof.
  intros Hs Hd. unfold memcpy.
  destruct (Z.leb_spec 0 (Z.of_nat n)); [|lia].
  destruct (Z.leb_spec (Z.of_nat n) (Z.of_nat (length src))); [|lia].
  destruct (Z.leb_spec (0 + Z.of_nat n) (Z.of_nat (length dst))); [|lia].
  simpl. rewrite Nat2Z.id.
  replace (Z.to_nat (0 + Z.of_nat n)) with n by lia. reflexivity.
Qed.

(** One [put-char] on an accumulator. *)
Lemma putc_accumulator_step (strm : nat) (B : list byte) (cap : Z) (b : byte)
    (w : World) :
  accumulator_holds strm B cap w ->
  Z.of_nat (length B) <= cap < 2 ^ 31 ->
  Z.of_nat (length B) + 1 < 2 ^ 30 ->
  exists w',
    stream_putc K (V_Cons strm) (int_of_uchar b) w = Ok 1 w'
    /\ accumulator_holds strm (B ++ [b])
         (if Z.of_nat (length B) + 1 >=? cap
          then (if cap <? 16 then 32 else cap * 2) else cap) w'.
Proof.
  intros (q & s & Hcell & Hs & Hlen & Htake & Hterm & Hsize) Hcap Hmax.
  assert (Hdata : str_data s = B ++ drop (length B) (str_data s)).
  { rewrite <- Htake at 1. symmetry. apply take_drop. }
  assert (Hrest : length (drop (length B) (str_data s))
                  = Z.to_nat (cap + 1 - Z.of_nat (length B))).
  { rewrite length_drop. lia. }
  unfold stream_putc, putc_switch. simpl.
  mderef Hcell. simpl.
  mderef Hs. rewrite Hlen.
  rewrite !(int_wrap_small (Z.of_nat (length B) + 1)) by lia.
  rewrite uchar_of_int_of_uchar.
  destruct (Z.geb_spec (Z.of_nat (length B) + 1) cap) as [Hgrow|Hfit].
  - (* the string is replaced by a larger one *)
    set (cap' := if cap <? 16 then 32 else cap * 2).
    assert (Hcap' : Z.of_nat (length B) + 1 < cap' /\ cap' + 1 < 2 ^ 31).
    { unfold cap'. destruct (Z.ltb_spec cap 16); lia. }
    replace (if cap <? 16 then 32 else int_wrap (cap * 2)) with cap'.
    2:{ unfold cap'. destruct (Z.ltb_spec cap 16); [reflexivity|].
        rewrite int_wrap_small by lia. reflexivity. }
    rewrite (int_wrap_small (cap' + 1)) by lia.
    rewrite bind_assoc. unfold make_string at 1. unfold bind at 1.
    set (junk := replicate (Z.to_nat (cap' + 1)) (uninit K)).
    set (q' := length (strings w)).
    set (w1 := set_strings _ w).
    assert (Hnew : VSTRING (V_String q') w1 = Some (mkString junk (cap' + 1 - 1))).
    { simpl. apply list_lookup_middle. reflexivity. }
    assert (Hjunk : length junk = Z.to_nat (cap' + 1)).
    { unfold junk. apply length_replicate. }
    unfold string_memcpy.
    mderef Hnew. simpl str_data.
    rewrite ?bind_assoc.
    erewrite bind_deref
      by (apply (memcpy_prefix junk (str_data s) (length B)); lia).
    cbv beta. rewrite Htake.
    mupdate ltac:(eapply store_string_some; exact Hnew).
    set (w2 := set_strings _ w1).
    assert (Hcell2 : VCONS strm w2 = Some (V_String q, V_Int cap)) by exact Hcell.
    mupdate ltac:(eapply store_cons_some; exact Hcell2).
    set (w3 := set_conses _ w2).
    rewrite bind_ret.
    assert (Hs3 : strings w3 !! q'
                  = Some (mkString (B ++ drop (length B) junk) (cap' + 1 - 1))).
    { apply (strings_insert_lookup q' _ _ w1 Hnew). }
    assert (Hrest3 : length (drop (length B) junk)
                     = Z.to_nat (cap' + 1 - Z.of_nat (length B))).
    { rewrite length_drop. lia. }
    rewrite (putc_tail q' _ (length B) b w3 Hs3)
      by (simpl; rewrite length_app; lia).
    eexists. split; [reflexivity|].
    destruct (tail_write B (drop (length B) junk) b) as (Ht1 & Ht2 & Ht3); [lia|].
    exists q', (mkString (<[S (length B) := x00]>
                           (<[length B := b]> (B ++ drop (length B) junk)))
                         (Z.of_nat (length B) + 1)).
    split.
    { unfold VCONS. simpl. apply list_lookup_insert_eq.
      eapply lookup_lt_Some; exact Hcell. }
    split.
    { apply (strings_insert_lookup q' _ _ w3 Hs3). }
    simpl. split; [rewrite length_app; simpl; lia|].
    split; [exact Ht1|]. split; [exact Ht2|].
    rewrite Ht3, length_app. lia.
  - (* the string has room *)
    rewrite bind_ret.
    rewrite (putc_tail q s (length B) b w Hs) by lia.
    eexists. split; [reflexivity|].
    destruct (tail_write B (drop (length B) (str_data s)) b) as (Ht1 & Ht2 & Ht3);
      [lia|].
    rewrite <- Hdata in Ht1, Ht2, Ht3.
    exists q, (mkString (<[S (length B) := x00]> (<[length B := b]> (str_data s)))
                        (Z.of_nat (length B) + 1)).
    split; [exact Hcell|].
    split.
    { apply (strings_insert_lookup q s _ w Hs). }
    simpl. split; [rewrite length_app; simpl; lia|].
    split; [exact Ht1|]. split; [exact Ht2|].
    rewrite Ht3. exact Hsize.
Qed.

(** The capacity after [n >= 1] writes: a power of two from 32 up, above
    [n], and either 32 or at most [2 n]. *)
Lemma cap_after_spec (n : nat) :
  (1 <= n)%nat ->
  exists j : nat,
    cap_after n = 2 ^ (5 + Z.of_nat j)
    /\ Z.of_nat n < cap_after n
    /\ (j = 0%nat \/ cap_after n <= 2 * Z.of_nat n).
Proof.
  induction n as [|n IH]; [lia|]. intros _.
  destruct n as [|n].
  - exists 0%nat. split; [reflexivity|]. split; [simpl; lia | left; reflexivity].
  - destruct IH as (j & Hj & Hlt & Hmin); [lia|].
    change (cap_after (S (S n)))
      with (let cap := cap_after (S n) in
            if Z.of_nat (S n) + 1 >=? cap
            then (if cap <? 16 then 32 else cap * 2) else cap).
    cbv zeta.
    assert (H32 : 32 <= cap_after (S n)).
    { rewrite Hj. change 32 with (2 ^ 5).
      apply Z.pow_le_mono_r; lia. }
    destruct (Z.geb_spec (Z.of_nat (S n) + 1) (cap_after (S n))) as [Hg|Hf].
    + destruct (Z.ltb_spec (cap_after (S n)) 16); [lia|].
      exists (S j). repeat split.
      * rewrite Hj. replace (5 + Z.of_nat (S j)) with (Z.succ (5 + Z.of_nat j)) by lia.
        rewrite Z.pow_succ_r by lia. lia.
      * lia.
      * right. lia.
    + exists j. repeat split; [exact Hj | lia | ].
      destruct Hmin as [->|Hmin]; [left; reflexivity | right; lia].
Qed.

Lemma cap_after_bounds (n : nat) :
  Z.of_nat n < 2 ^ 30 -> Z.of_nat n <= cap_after n < 2 ^ 31.
Proof.
  intros Hn. destruct n as [|n]; [simpl; lia|].
  destruct (cap_after_spec (S n)) as (j & Hj & Hlt & Hmin); [lia|].
  split; [lia|].
  destruct Hmin as [->|Hmin]; [rewrite Hj; simpl; lia | lia].
Qed.

(** The capacity after [n >= 1] writes is the least of the form
    [max(32, 2^k)] above [n]. *)
Lemma cap_after_least (n : nat) :
  (1 <= n)%nat ->
  is_cap_form (cap_after n)
  /\ Z.of_nat n < cap_after n
  /\ forall v, is_cap_form v -> Z.of_nat n < v -> cap_after n <= v.
Proof.
  intros Hn. destruct (cap_after_spec n Hn) as (j & Hj & Hlt & Hmin).
  assert (H32 : 32 <= 2 ^ (5 + Z.of_nat j)).
  { change 32 with (2 ^ 5). apply Z.pow_le_mono_r; lia. }
  split; [|split; [exact Hlt|]].
  - exists (5 + j)%nat. rewrite Hj.
    replace (Z.of_nat (5 + j)) with (5 + Z.of_nat j) by lia. lia.
  - intros v [k ->] Hv. rewrite Hj in *.
    destruct Hmin as [->|Hmin]; [simpl; lia|].
    destruct (Z.le_gt_cases (5 + Z.of_nat j) (Z.of_nat k)) as [Hk|Hk].
    + pose proof (Z.pow_le_mono_r 2 (5 + Z.of_nat j) (Z.of_nat k)). lia.
    + assert (Hk' : Z.of_nat k <= 4 + Z.of_nat j) by lia.
      pose proof (Z.pow_le_mono_r 2 (Z.of_nat k) (4 + Z.of_nat j) ltac:(lia) Hk').
      assert (H16 : 32 <= 2 * 2 ^ (4 + Z.of_nat j)).
      { replace (5 + Z.of_nat j) with (Z.succ (4 + Z.of_nat j)) in H32 by lia.
        rewrite Z.pow_succ_r in H32 by lia. exact H32. }
      replace (5 + Z.of_nat j) with (Z.succ (4 + Z.of_nat j)) in Hmin by lia.
      rewrite Z.pow_succ_r in Hmin by lia.
      assert (j <> 0%nat -> 32 <= 2 ^ (4 + Z.of_nat j)).
      { intros Hj0. change 32 with (2 ^ 5). apply Z.pow_le_mono_r; lia. }
      destruct j as [|j].
      * simpl in *. lia.
      * lia.
Qed.

(** Writing [B] byte by byte after the bytes [P] already written. *)
Lemma put_chars_accumulator (strm : nat) (B : list byte) :
  forall (P : list byte) (w : World),
    accumulator_holds strm P (cap_after (length P)) w ->
    Z.of_nat (length P + length B) < 2 ^ 30 ->
    exists w',
      put_chars K (V_Cons strm) B w = Ok (Z.of_nat (length B)) w'
      /\ accumulator_holds strm (P ++ B) (cap_after (length P + length B)) w'.
Proof.
  induction B as [|b B IH]; intros P w Hacc Hmax.
  - exists w. simpl. rewrite app_nil_r, Nat.add_0_r. auto.
  - simpl length in Hmax.
    destruct (putc_accumulator_step strm P _ b w Hacc) as (w1 & Hput & Hacc1).
    { apply cap_after_bounds. lia. }
    { lia. }
    assert (Hacc1' : accumulator_holds strm (P ++ [b])
                       (cap_after (length (P ++ [b]))) w1).
    { rewrite length_app. simpl length. rewrite Nat.add_1_r. exact Hacc1. }
    destruct (IH (P ++ [b]) w1 Hacc1') as (w' & Hrest & Hacc').
    { rewrite length_app. simpl. lia. }
    exists w'. split.
    + simpl put_chars. mok Hput. mok Hrest. unfold ret. f_equal.
      simpl length. lia.
    + rewrite <- app_assoc in Hacc'. simpl in Hacc'.
      rewrite length_app in Hacc'. simpl length in Hacc'.
      replace (length P + length (b :: B))%nat with (length P + 1 + length B)%nat
        by (simpl; lia).
      exact Hacc'.
Qed.

(** C2 (amended).  From the fresh accumulator [("" . 0)], writing the
    bytes [B] (fewer than [2^30], so that doubling the C [int] capacity
    cannot overflow) one at a time succeeds every time and leaves a
    payload string of length [|B|] whose first [|B|] bytes are [B],
    followed by a zero byte.  The recorded capacity is still 0 when [B]
    is empty; otherwise it is the least value of the form [max(32, 2^k)]
    strictly above [|B|]. *)
Theorem string_output_stream_roundtrip (B : list byte) (w : World) :
  Z.of_nat (length B) < 2 ^ 30 ->
  exists strm w1 w2 cap,
    cmd_make_string_output_stream w = Ok (V_Cons strm) w1
    /\ accumulator_holds strm [] 0 w1
    /\ put_chars K (V_Cons strm) B w1 = Ok (Z.of_nat (length B)) w2
    /\ accumulator_holds strm B cap w2
    /\ (B = [] -> cap = 0)
    /\ (B <> [] ->
        is_cap_form cap /\ Z.of_nat (length B) < cap
        /\ forall v, is_cap_form v -> Z.of_nat (length B) < v -> cap <= v).
Proof.
  intros Hmax.
  set (q := length (strings w)).
  set (w0 := set_strings (fun l => l ++ [mkString [x00] 0]) w).
  set (strm := length (conses w0)).
  set (w1 := set_conses (fun l => l ++ [(V_String q, MAKE_INT 0)]) w0).
  assert (Hfresh : accumulator_holds strm [] 0 w1).
  { exists q, (mkString [x00] 0). repeat split.
    - unfold VCONS, w1, strm. simpl. apply list_lookup_middle. reflexivity.
    - unfold w1, w0, q. simpl. apply list_lookup_middle. reflexivity. }
  destruct (put_chars_accumulator strm B [] w1 Hfresh) as (w2 & Hput & Hacc).
  { simpl. lia. }
  simpl in Hacc.
  exists strm, w1, w2, (cap_after (length B)).
  split; [reflexivity|]. split; [exact Hfresh|]. split; [exact Hput|].
  split; [exact Hacc|]. split.
  - intros ->. reflexivity.
  - intros Hne. apply cap_after_least. destruct B; [contradiction|simpl; lia].
Qed.

(** *** Unrecognised stream types *)

Lemma silent_bind {A B : Type} (m : @M Host A) (k : A -> @M Host B) :
  silent m -> (forall a, silent (k a)) -> silent (bind m k).
Proof.
  intros Hm Hk w w' b H. unfold bind in H.
  destruct (m w) as [a w1| |] eqn:E; try discriminate.
  rewrite (Hk a w1 w' b H). exact (Hm w w1 a E).
Qed.

Lemma silent_ret {A : Type} (a : A) : silent (@ret Host A a).
Proof. intros w w' b H. injection H as _ <-. reflexivity. Qed.

Lemma silent_deref {A : Type} (o : @World Host -> option A) : silent (deref o).
Proof.
  intros w w' b H. unfold deref in H. destruct (o w); [|discriminate].
  injection H as _ <-. reflexivity.
Qed.

Lemma silent_get_world : silent (@get_world Host).
Proof. intros w w' b H. injection H as _ <-. reflexivity. Qed.

Lemma silent_update (o : @World Host -> option World) :
  (forall w w', o w = Some w' -> conditions w' = conditions w) ->
  silent (update o).
Proof.
  intros Ho w w' b H. unfold update in H. destruct (o w) eqn:E; [|discriminate].
  injection H as _ ->. exact (Ho w _ E).
Qed.

Lemma silent_modify (f : @World Host -> World) :
  (forall w, conditions (f w) = conditions w) -> silent (modify f).
Proof. intros Hf w w' b H. injection H as _ <-. apply Hf. Qed.

Lemma silent_call {A : Type} (f : @World Host -> A * World) :
  (forall w, conditions (snd (f w)) = conditions w) -> silent (call f).
Proof.
  intros Hf w w' b H. unfold call in H. specialize (Hf w).
  destruct (f w) as [a w1]. injection H as _ <-. exact Hf.
Qed.

Lemma store_pos_conditions (pos : pos_ptr) (v : VALUE) (w w' : @World Host) :
  store_pos pos v w = Some w' -> conditions w' = conditions w.
Proof.
  destruct pos; simpl; intros H.
  - destruct (marks w !! m); [|discriminate]. injection H as <-. reflexivity.
  - destruct (buffers w !! tx); [|discriminate]. injection H as <-. reflexivity.
  - destruct (conses w !! c); [|discriminate]. injection H as <-. reflexivity.
  - injection H as <-. reflexivity.
Qed.

Lemma store_cons_conditions (p : nat) (c : VALUE * VALUE) (w w' : @World Host) :
  store_cons p c w = Some w' -> conditions w' = conditions w.
Proof.
  unfold store_cons. destruct (conses w !! p); [|discriminate].
  intros H. injection H as <-. reflexivity.
Qed.

Lemma silent_POS_UNGETC (pos : pos_ptr) (tx : option nat) :
  silent (@POS_UNGETC Host pos tx).
Proof.
  unfold POS_UNGETC. apply silent_bind; [apply silent_deref|]. intros p.
  destruct p; try (intros w w' b H; discriminate).
  cbv zeta. destruct (col - 1 <? 0).
  - repeat (apply silent_bind; [apply silent_deref|]; intros ?).
    apply silent_update. apply store_pos_conditions.
  - apply silent_update. apply store_pos_conditions.
Qed.

Lemma silent_ungetc_switch (stream : VALUE) (c : Z) :
  quiet_collaborators K -> silent (ungetc_switch K stream c).
Proof.
  intros (Hsv & Hcall & Hunget).
  assert (Hcallable : silent (ungetc_callable K stream c)).
  { unfold ungetc_callable.
    apply silent_bind; [apply silent_get_world|]. intros w0.
    apply silent_bind; [apply silent_modify; reflexivity|]. intros _.
    apply silent_bind; [apply silent_call; apply Hcall|]. intros tmp.
    apply silent_bind; [apply silent_modify; reflexivity|]. intros _.
    apply silent_ret. }
  destruct stream; simpl; try apply silent_ret; try exact Hcallable.
  - intros w w' b H. discriminate.
  - apply silent_bind; [apply silent_deref|]. intros cell.
    destruct (INTP cell.1 && STRINGP cell.2).
    { apply silent_bind; [|intros; apply silent_ret].
      apply silent_update. apply store_cons_conditions. }
    destruct (BUFFERP cell.1 && POSP cell.2); [|exact Hcallable].
    apply silent_bind; [apply silent_POS_UNGETC|intros; apply silent_ret].
  - apply silent_bind; [apply silent_deref|]. intros lf.
    apply silent_bind; [apply silent_call; apply Hunget|]. intros r.
    apply silent_ret.
  - apply silent_bind; [apply silent_POS_UNGETC|intros; apply silent_ret].
  - apply silent_bind; [apply silent_deref|]. intros mk.
    apply silent_bind; [apply silent_POS_UNGETC|intros; apply silent_ret].
Qed.

(** C9 (amended).  [stream_ungetc] signals nothing of its own: whenever
    the collaborators it calls signal nothing, it returns without a new
    condition, for every stream value.  For a value of a type its switch
    has no case for (a process, an integer, a string, a position, ...)
    it returns 0 and leaves the state untouched, where [stream_getc] and
    [stream_putc] signal [invalid-stream] with the value ([stream_getc]
    also for a process).  A cons that is neither [(Int . String)] nor
    [(Buffer . Pos)] is not rejected either, whatever its car: it is
    applied as a function to the character, with GC inhibited, and the
    result is 1 exactly when that call returns neither null nor nil. *)
Theorem ungetc_never_signals (c : Z) (w : World) :
  (quiet_collaborators K ->
   forall v r w', stream_ungetc K v c w = Ok r w' -> conditions w' = conditions w)
  /\ (forall v, no_stream_type v = true ->
      stream_ungetc K v c w = Ok 0 w
      /\ stream_getc K v w
         = Ok EOF (set_conditions (fun l => l ++ [(sym_invalid_stream, [v])]) w)
      /\ stream_putc K v c w
         = Ok 0 (set_conditions (fun l => l ++ [(sym_invalid_stream, [v])]) w))
  /\ (forall p,
      stream_ungetc K (V_Process p) c w = Ok 0 w
      /\ stream_getc K (V_Process p) w
         = Ok EOF (set_conditions
                     (fun l => l ++ [(sym_invalid_stream,
                                      [V_Process p; proc_not_input])]) w))
  /\ (forall p cell res w1,
      VCONS p w = Some cell ->
      INTP (fst cell) && STRINGP (snd cell) = false ->
      BUFFERP (fst cell) && POSP (snd cell) = false ->
      call_lisp1 K (V_Cons p) (MAKE_INT c) (set_gc_inhibit true w) = (res, w1) ->
      stream_ungetc K (V_Cons p) c w
      = Ok (if non_null res && negb (NILP res) then 1 else 0)
           (set_gc_inhibit (gc_inhibit w) w1)).
Proof.
  split; [|split; [|split]].
  - intros Hq v r w' H. unfold stream_ungetc in H.
    destruct (NILP v).
    + pose proof (proj1 Hq sym_standard_input sym_nil w) as Hsv.
      unfold bind, call in H.
      destruct (cmd_symbol_value K sym_standard_input sym_nil w) as [s w1].
      simpl in Hsv. destruct (non_null s).
      * rewrite <- Hsv. exact (silent_ungetc_switch s c Hq w1 w' r H).
      * injection H as _ <-. exact Hsv.
    + exact (silent_ungetc_switch v c Hq w w' r H).
  - intros v Hn. destruct v; try discriminate Hn; repeat split; reflexivity.
  - intros p. split; reflexivity.
  - intros p cell res w1 Hcell H1 H2 Hcall.
    unfold stream_ungetc, ungetc_switch. simpl.
    rewrite (bind_deref _ _ _ _ Hcell). rewrite H1, H2.
    unfold ungetc_callable, bind, get_world, modify, call, ret.
    rewrite Hcall. reflexivity.
Qed.

(** *** The default streams *)

Lemma NILP_sym_nil (v : VALUE) : NILP v = true -> v = sym_nil.
Proof.
  destruct v; try discriminate. unfold NILP, is_sym, sym_nil.
  intros H. apply String.eqb_eq in H. subst. reflexivity.
Qed.

(** C4 (amended).  With a nil stream argument: when looking up
    [standard-output] ([standard-input]) yields the null value,
    [put-char] returns 0 ([get-char] returns [EOF]) and does nothing
    beyond that lookup.  When [standard-output] is bound to a value [S],
    [put-char(nil, c)] is [put-char(S, c)]; this includes [S] = the
    symbol [nil], which is then applied as a function to the character,
    with GC inhibited, the result being 1 exactly when that call returns
    neither null nor nil. *)
Theorem default_stream_fallback (c : Z) (w : World) :
  (forall w', cmd_symbol_value K sym_standard_output sym_nil w = (LISP_NULL, w') ->
              stream_putc K sym_nil c w = Ok 0 w')
  /\ (forall w', cmd_symbol_value K sym_standard_input sym_nil w = (LISP_NULL, w') ->
                 stream_getc K sym_nil w = Ok EOF w')
  /\ (forall S, S <> LISP_NULL ->
                cmd_symbol_value K sym_standard_output sym_nil w = (S, w) ->
                stream_putc K sym_nil c w = stream_putc K S c w)
  /\ (cmd_symbol_value K sym_standard_output sym_nil w = (sym_nil, w) ->
      forall res w1,
        call_lisp1 K sym_nil (MAKE_INT c) (set_gc_inhibit true w) = (res, w1) ->
        stream_putc K sym_nil c w
        = Ok (if non_null res && negb (NILP res) then 1 else 0)
             (set_gc_inhibit (gc_inhibit w) w1)).
Proof.
  split; [|split; [|split]].
  - intros w' H. unfold stream_putc, bind, call. simpl. rewrite H. reflexivity.
  - intros w' H. unfold stream_getc, bind, call. simpl. rewrite H. reflexivity.
  - intros S HS H.
    destruct (NILP S) eqn:E.
    + apply NILP_sym_nil in E. subst S. reflexivity.
    + unfold stream_putc at 2. rewrite E.
      unfold stream_putc, bind, call. simpl. rewrite H.
      destruct S; [contradiction| reflexivity ..].
  - intros H res w1 Hcall.
    unfold stream_putc, bind, call. simpl. rewrite H. simpl.
    unfold putc_symbol. simpl.
    unfold bind, get_world, modify, call, ret. rewrite Hcall. reflexivity.
Qed.

(** *** write *)

(** [stream_puts] on a callable stream, given the Lisp string itself. *)
Lemma puts_callable_value (stream data : VALUE) (s : Lisp_String) (w : World)
    (res : VALUE) (w1 : World) :
  callable_stream stream w ->
  VSTRING data w = Some s ->
  call_lisp1 K stream data (set_gc_inhibit true w) = (res, w1) ->
  stream_puts K stream (Data_value data) (str_len s) true w
  = Ok (callable_rc res (str_len s)) (set_gc_inhibit (gc_inhibit w) w1).
Proof.
  intros Hc Hs Hcall.
  assert (Hbody : puts_body K stream (Data_value data) (str_len s) true w
                  = puts_symbol K stream (Data_value data) (str_data s)
                      (str_len s) true w).
  { unfold puts_body.
    erewrite bind_deref by (simpl; rewrite Hs; reflexivity).
    assert (Hlen : (if str_len s =? -1
                    then deref (data_len (Data_value data))
                    else ret (str_len s)) w = Ok (str_len s) w).
    { destruct (str_len s =? -1); [|reflexivity].
      unfold deref. simpl. rewrite Hs. reflexivity. }
    rewrite (bind_ok _ _ _ _ _ Hlen).
    destruct stream; simpl in Hc; try contradiction.
    - destruct Hc as [d Hd]. unfold puts_switch.
      rewrite (bind_deref _ _ _ _ Hd). reflexivity.
    - reflexivity. }
  assert (Hsym : puts_symbol K stream (Data_value data) (str_data s)
                   (str_len s) true w
                 = Ok (callable_rc res (str_len s))
                      (set_gc_inhibit (gc_inhibit w) w1)).
  { unfold puts_symbol.
    assert (Ht : is_sym sym_t stream = false).
    { destruct stream; simpl in Hc; try contradiction; [reflexivity|tauto]. }
    rewrite Ht. unfold bind, get_world, ret, modify, call. rewrite Hcall.
    reflexivity. }
  unfold stream_puts.
  destruct (NILP stream) eqn:En.
  - destruct stream; simpl in Hc; try contradiction; try discriminate En.
    destruct Hc as [_ Hc]. congruence.
  - rewrite Hbody. exact Hsym.
Qed.

(** [stream_puts] on a callable stream, given raw bytes and their count. *)
Lemma puts_callable_raw (stream : VALUE) (buf : list byte) (n : Z) (w : World)
    (res : VALUE) (w1 : World) :
  callable_stream stream w ->
  0 <= n <= Z.of_nat (length buf) ->
  call_lisp1 K stream (V_String (length (strings w)))
    (set_gc_inhibit true
       (set_strings (fun l => l ++ [mkString (take (Z.to_nat n) buf ++ [x00]) n]) w))
  = (res, w1) ->
  stream_puts K stream (Data_raw buf) n false w
  = Ok (callable_rc res n) (set_gc_inhibit (gc_inhibit w) w1).
Proof.
  intros Hc Hn Hcall.
  assert (Hbody : puts_body K stream (Data_raw buf) n false w
                  = puts_symbol K stream (Data_raw buf) buf n false w).
  { unfold puts_body.
    erewrite bind_deref by reflexivity.
    destruct (Z.eqb_spec n (-1)); [lia|].
    rewrite bind_ret.
    destruct stream; simpl in Hc; try contradiction.
    - destruct Hc as [d Hd]. unfold puts_switch.
      rewrite (bind_deref _ _ _ _ Hd). reflexivity.
    - reflexivity. }
  assert (Hsym : puts_symbol K stream (Data_raw buf) buf n false w
                 = Ok (callable_rc res n) (set_gc_inhibit (gc_inhibit w) w1)).
  { unfold puts_symbol.
    assert (Ht : is_sym sym_t stream = false).
    { destruct stream; simpl in Hc; try contradiction; [reflexivity|tauto]. }
    rewrite Ht. unfold bind, get_world, ret, modify, call, string_dupn.
    destruct (Z.leb_spec 0 n); [|lia].
    destruct (Z.leb_spec n (Z.of_nat (length buf))); [|lia].
    simpl. simpl in Hcall. rewrite Hcall. reflexivity. }
  unfold stream_puts.
  destruct (NILP stream) eqn:En.
  - destruct stream; simpl in Hc; try contradiction; try discriminate En.
    destruct Hc as [_ Hc]. congruence.
  - rewrite Hbody. exact Hsym.
Qed.

(** C10 (amended).  [write] of a string [DATA] with an integer [LENGTH]:
    - [LENGTH] above the string's length: an argument error for
      argument 3 is signalled and nothing else happens;
    - [LENGTH] equal to it: the Lisp string itself goes to
      [stream_puts], and a callable stream is applied to [DATA];
    - [LENGTH] below it: the string's bytes go to [stream_puts] as a raw
      pointer with the count [LENGTH], and for [0 <= LENGTH] a callable
      stream is applied to a fresh string holding the first [LENGTH]
      bytes of [DATA] and a terminator. *)
Theorem write_length_argument (stream data : VALUE) (s : Lisp_String) (n : Z)
    (w : World) :
  VSTRING data w = Some s ->
  (str_len s < n ->
   cmd_write K stream data (V_Int n) w
   = Ok LISP_NULL
        (set_conditions (fun l => l ++ [(sym_bad_arg, [V_Int n; V_Int 3])]) w))
  /\ (n = str_len s ->
      cmd_write K stream data (V_Int n) w
      = (let* r := stream_puts K stream (Data_value data) n true in
         ret (MAKE_INT r)) w)
  /\ (n < str_len s ->
      cmd_write K stream data (V_Int n) w
      = (let* r := stream_puts K stream (Data_raw (str_data s)) n false in
         ret (MAKE_INT r)) w)
  /\ (n = str_len s -> callable_stream stream w ->
      forall res w1,
        call_lisp1 K stream data (set_gc_inhibit true w) = (res, w1) ->
        cmd_write K stream data (V_Int n) w
        = Ok (MAKE_INT (callable_rc res n)) (set_gc_inhibit (gc_inhibit w) w1))
  /\ (0 <= n < str_len s -> str_len s < Z.of_nat (length (str_data s)) ->
      callable_stream stream w ->
      forall res w1,
        call_lisp1 K stream (V_String (length (strings w)))
          (set_gc_inhibit true
             (set_strings
                (fun l => l ++ [mkString (take (Z.to_nat n) (str_data s) ++ [x00]) n])
                w))
        = (res, w1) ->
        cmd_write K stream data (V_Int n) w
        = Ok (MAKE_INT (callable_rc res n)) (set_gc_inhibit (gc_inhibit w) w1)).
Proof.
  intros Hs.
  assert (Hw : cmd_write K stream data (V_Int n) w
               = if n >? str_len s then signal_arg_error (V_Int n) 3 w
                 else if n =? str_len s then
                   (let* r := stream_puts K stream (Data_value data) n true in
                    ret (MAKE_INT r)) w
                 else
                   (let* r := stream_puts K stream (Data_raw (str_data s)) n false in
                    ret (MAKE_INT r)) w).
  { unfold cmd_write.
    destruct data; simpl in Hs; try discriminate;
      (erewrite bind_deref by (simpl; exact Hs)); simpl;
      destruct (n >? str_len s); try reflexivity;
      destruct (n =? str_len s); reflexivity. }
  rewrite Hw. repeat split.
  - intros H. destruct (Z.gtb_spec n (str_len s)); [reflexivity|lia].
  - intros H. destruct (Z.gtb_spec n (str_len s)); [lia|].
    destruct (Z.eqb_spec n (str_len s)); [reflexivity|lia].
  - intros H. destruct (Z.gtb_spec n (str_len s)); [lia|].
    destruct (Z.eqb_spec n (str_len s)); [lia|reflexivity].
  - intros -> Hc res w1 Hcall.
    destruct (Z.gtb_spec (str_len s) (str_len s)); [lia|].
    rewrite Z.eqb_refl.
    rewrite (bind_ok _ _ _ _ _ (puts_callable_value _ _ _ _ _ _ Hc Hs Hcall)).
    reflexivity.
  - intros Hn Hwf Hc res w1 Hcall.
    destruct (Z.gtb_spec n (str_len s)); [lia|].
    destruct (Z.eqb_spec n (str_len s)); [lia|].
    rewrite (bind_ok _ _ _ _ _
               (puts_callable_raw stream (str_data s) n w res w1 Hc ltac:(lia) Hcall)).
    reflexivity.
Qed.

(** *** The escape reader *)

Lemma int_of_uchar_of_int (z : Z) : int_of_uchar (uchar_of_int z) = z mod 256.
Proof.
  unfold uchar_of_int, int_of_uchar.
  pose proof (Z.mod_pos_bound z 256 ltac:(lia)) as Hm.
  destruct (Byte.of_N (Z.to_N (z mod 256))) as [b|] eqn:E.
  - apply Byte.to_of_N in E. rewrite E. lia.
  - apply Byte.of_N_None_iff in E. lia.
Qed.

Lemma int_of_uchar_of_small (z : Z) :
  0 <= z < 256 -> int_of_uchar (uchar_of_int z) = z.
Proof. intros H. rewrite int_of_uchar_of_int. apply Z.mod_small. exact H. Qed.

Lemma is_octal_range (c : Z) : is_octal c = true -> 48 <= c <= 55.
Proof. unfold is_octal. lia. Qed.

Lemma read_chars_cons (n : nat) (stream : VALUE) (c : Z) (cs : list Z)
    (w w' : World) :
  read_chars K (S n) stream w = Ok (c :: cs) w' ->
  exists w1, stream_getc K stream w = Ok c w1
             /\ read_chars K n stream w1 = Ok cs w'.
Proof.
  simpl. unfold bind at 1.
  destruct (stream_getc K stream w) as [c0 w1| |] eqn:Eg; try discriminate.
  unfold bind at 1.
  destruct (read_chars K n stream w1) as [cs0 w2| |] eqn:Er; try discriminate.
  intros H. injection H as -> -> ->. exists w1. split; [reflexivity|exact Er].
Qed.

(** The hex loop over a run of hex digits ended by another character. *)
Lemma read_hex_run (stream : VALUE) (z : Z) (ds : list Z) :
  forall (fuel : nat) (acc : byte) (w w' : World),
    read_chars K (S (length ds)) stream w = Ok (ds ++ [z]) w' ->
    forallb isxdigit ds = true -> isxdigit z = false ->
    (length ds < fuel)%nat ->
    read_hex K fuel stream acc w
    = Ok (fold_left (fun a d => (a * 16 + hex_digit d) mod 256) ds (int_of_uchar acc),
          z) w'.
Proof.
  induction ds as [|d ds IH]; intros fuel acc w w' Hrd Hds Hz Hfuel;
    (destruct fuel as [|fuel]; [simpl in Hfuel; lia|]).
  - change (read_chars K 1 stream w = Ok [z] w') in Hrd.
    apply read_chars_cons in Hrd as (w1 & Hg & Hr).
    injection Hr as <-.
    simpl. mok Hg. rewrite Hz. reflexivity.
  - change (S (length (d :: ds))) with (S (S (length ds))) in Hrd.
    change ((d :: ds) ++ [z]) with (d :: (ds ++ [z])) in Hrd.
    apply read_chars_cons in Hrd as (w1 & Hg & Hr).
    simpl in Hds. apply andb_prop in Hds as [Hd Hds].
    simpl in Hfuel.
    simpl read_hex. mok Hg. rewrite Hd.
    change (negb true) with false. cbv iota.
    simpl fold_left. unfold hex_digit at 2.
    destruct ((48 <=? d) && (d <=? 57)).
    + rewrite (IH fuel _ w1 w' Hr Hds Hz ltac:(lia)).
      rewrite int_of_uchar_of_int. reflexivity.
    + rewrite (IH fuel _ w1 w' Hr Hds Hz ltac:(lia)).
      rewrite int_of_uchar_of_int.
      replace (int_of_uchar acc * 16 + (toupper d - 65) + 10)
        with (int_of_uchar acc * 16 + (toupper d - 65 + 10)) by lia.
      reflexivity.
Qed.

Lemma lxor_64_byte (x : Z) : 0 <= x < 256 -> 0 <= Z.lxor x 64 < 256.
Proof.
  intros H.
  assert (Hnn : 0 <= Z.lxor x 64) by (apply Z.lxor_nonneg; lia).
  split; [exact Hnn|].
  destruct (Z.eq_dec (Z.lxor x 64) 0) as [->|Hne]; [lia|].
  change 256 with (2 ^ 8). apply Z.log2_lt_pow2; [lia|].
  pose proof (Z.log2_lxor x 64 ltac:(lia) ltac:(lia)) as Hl.
  change (Z.log2 64) with 6 in Hl.
  assert (Z.log2 x < 8).
  { destruct (Z.eq_dec x 0) as [->|Hx]; [simpl; lia|].
    apply Z.log2_lt_pow2; [lia|]. change (2 ^ 8) with 256. lia. }
  lia.
Qed.

Lemma toupper_byte (x : Z) : 0 <= x < 256 -> 0 <= toupper x < 256.
Proof. unfold toupper. destruct ((97 <=? x) && (x <=? 122)) eqn:E; lia. Qed.

(** C8.  [stream_read_esc] by first character:
    - n, r, f, t, v, a give 10, 13, 12, 9, 11, 7, and one more character
      is read as the lookahead;
    - [^] reads a character X, gives [toupper(X) xor 0x40] (as a
      [u_char]; exactly that value when X is a byte), and reads one more
      character as the lookahead;
    - a digit 0..7 starts an octal code of at most three digits: the
      first character that is not an octal digit ends it and is the
      lookahead, without a further read; after three digits one more
      character is read as the lookahead;
    - x consumes hex digits, of either case, for as long as they come;
      the first character that is not one ends the code and is the
      lookahead, without a further read;
    - any other byte is returned as it is, and one more character is
      read as the lookahead. *)
Theorem read_escape_cases (fuel : nat) (stream : VALUE) (w : World) :
  (forall c v,
     In (c, v) [(110, 10); (114, 13); (102, 12); (116, 9); (118, 11); (97, 7)] ->
     stream_read_esc K fuel stream c w
     = (let* la := stream_getc K stream in ret (v, la)) w)
  /\ stream_read_esc K fuel stream 94 w
     = (let* x := stream_getc K stream in
        let* la := stream_getc K stream in
        ret (Z.lxor (toupper x) 64 mod 256, la)) w
  /\ (forall x, 0 <= x < 256 ->
                Z.lxor (toupper x) 64 mod 256 = Z.lxor (toupper x) 64)
  /\ (forall d1, is_octal d1 = true ->
        stream_read_esc K fuel stream d1 w
        = (let* c2 := stream_getc K stream in
           if is_octal c2 then
             let* c3 := stream_getc K stream in
             if is_octal c3 then
               let* la := stream_getc K stream in
               ret ((((d1 - 48) * 8 + (c2 - 48)) * 8 + (c3 - 48)) mod 256, la)
             else ret ((d1 - 48) * 8 + (c2 - 48), c3)
           else ret (d1 - 48, c2)) w)
  /\ (forall ds z w',
        read_chars K (S (length ds)) stream w = Ok (ds ++ [z]) w' ->
        forallb isxdigit ds = true -> isxdigit z = false ->
        (length ds < fuel)%nat ->
        stream_read_esc K fuel stream 120 w = Ok (hex_value ds, z) w')
  /\ (forall c, 0 <= c < 256 ->
        ~ In c [110; 114; 102; 116; 118; 97; 94; 120] -> is_octal c = false ->
        stream_read_esc K fuel stream c w
        = (let* la := stream_getc K stream in ret (c, la)) w).
Proof.
  split; [|split; [|split; [|split; [|split]]]].
  - intros c v Hin. simpl in Hin.
    repeat (destruct Hin as [Hin|Hin]; [injection Hin as <- <-; reflexivity|]).
    contradiction.
  - unfold stream_read_esc. simpl. unfold read_esc_finish, bind.
    destruct (stream_getc K stream w) as [x w1| |]; try reflexivity.
    destruct (stream_getc K stream w1) as [la w2| |]; try reflexivity.
    unfold ret. rewrite int_of_uchar_of_int. reflexivity.
  - intros x Hx. apply Z.mod_small. apply lxor_64_byte. apply toupper_byte. exact Hx.
  - intros d1 Hd1. pose proof (is_octal_range d1 Hd1) as Hr.
    unfold stream_read_esc.
    repeat match goal with
           | |- context [d1 =? ?k] => destruct (Z.eqb_spec d1 k); [lia|]
           end.
    rewrite Hd1. unfold read_esc_finish, bind.
    destruct (stream_getc K stream w) as [c2 w1| |]; try reflexivity.
    destruct (is_octal c2) eqn:E2.
    + pose proof (is_octal_range c2 E2).
      destruct (stream_getc K stream w1) as [c3 w2| |]; try reflexivity.
      rewrite (int_of_uchar_of_small (d1 - 48)) by lia.
      rewrite (int_of_uchar_of_small ((d1 - 48) * 8 + (c2 - 48))) by lia.
      destruct (is_octal c3) eqn:E3.
      * destruct (stream_getc K stream w2) as [la w3| |]; try reflexivity.
        unfold ret. rewrite int_of_uchar_of_int. reflexivity.
      * reflexivity.
    + unfold ret. rewrite (int_of_uchar_of_small (d1 - 48)) by lia. reflexivity.
  - intros ds z w' Hrd Hds Hz Hfuel.
    unfold stream_read_esc. simpl.
    rewrite (read_hex_run stream z ds fuel x00 w w' Hrd Hds Hz Hfuel).
    reflexivity.
  - intros c Hc Hnot Hoct.
    unfold stream_read_esc.
    repeat match goal with
           | |- context [c =? ?k] =>
               destruct (Z.eqb_spec c k); [exfalso; apply Hnot; simpl; lia|]
           end.
    rewrite Hoct. unfold read_esc_finish, bind.
    destruct (stream_getc K stream w) as [la w1| |]; try reflexivity.
    unfold ret. rewrite (int_of_uchar_of_small c) by lia. reflexivity.
Qed.

(** *** open *)

(** C6 (amended).  [open] with two strings and no file object to reuse
    first allocates a file object, links it at the head of the file
    chain and clears it; only then is [fopen] called.  When [fopen]
    fails, [file-error] is signalled with the errno message and, second,
    the requested name, and the null value is returned; the new object,
    unbound, is in the chain that the C library was entered with, and
    stays at its head if the C library and [lookup_errno] leave the chain
    alone. *)
Theorem open_failure (name modes file : VALUE) (n m : Lisp_String) (w : World) :
  FILEP file = false ->
  VSTRING name w = Some n -> VSTRING modes w = Some m ->
  exists w0,
    lfile_chain w0 = length (files w) :: lfile_chain w
    /\ VFILE (length (files w)) w0 = Some (mkFile LISP_NULL None false false)
    /\ conditions w0 = conditions w
    /\ forall w1 e w2,
         c_fopen K (str_data n) (str_data m) w0 = (None, w1) ->
         lookup_errno K w1 = (e, w2) ->
         cmd_open K name modes file w
         = Ok LISP_NULL
              (set_conditions (fun l => l ++ [(sym_file_error, [e; name])]) w2)
         /\ (lfile_chain w1 = lfile_chain w0 -> lfile_chain w2 = lfile_chain w1 ->
             lfile_chain
               (set_conditions (fun l => l ++ [(sym_file_error, [e; name])]) w2)
             = length (files w) :: lfile_chain w).
Proof.
  intros Hfile Hn Hm.
  set (p := length (files w)).
  set (blank := mkFile LISP_NULL None false false).
  set (wa := set_lfile_chain (p :: lfile_chain w)
               (set_files (fun l => l ++ [Some blank]) w)).
  assert (Hlk : files wa !! p = Some (Some blank)).
  { unfold wa, p. simpl. apply list_lookup_middle. reflexivity. }
  set (w0 := set_files (fun l => <[p := Some blank]> l) wa).
  assert (Hstore : store_file p blank wa = Some w0).
  { unfold store_file. rewrite Hlk. reflexivity. }
  assert (Hsn : STRINGP name = true).
  { destruct name; simpl in Hn; try discriminate; reflexivity. }
  assert (Hsm : STRINGP modes = true).
  { destruct modes; simpl in Hm; try discriminate; reflexivity. }
  assert (Hn0 : VSTRING name w0 = Some n).
  { destruct name; simpl in Hn |- *; try discriminate; exact Hn. }
  assert (Hm0 : VSTRING modes w0 = Some m).
  { destruct modes; simpl in Hm |- *; try discriminate; exact Hm. }
  exists w0. split; [reflexivity|]. split.
  { unfold VFILE, w0. simpl.
    rewrite list_lookup_insert_eq by (eapply lookup_lt_Some; exact Hlk).
    reflexivity. }
  split; [reflexivity|].
  intros w1 e w2 Hopen Herr. split; [|intros H1 H2; simpl; rewrite H2, H1; reflexivity].
  assert (Halloc : forall B (k : nat -> M B),
            bind (match file with
                  | V_File q =>
                      let* f := deref (VFILE q) in
                      do close_if_owned K f then ret q
                  | _ =>
                      let* w := get_world in
                      let p := length (files w) in
                      do modify (fun w =>
                           set_lfile_chain (p :: lfile_chain w)
                             (set_files (fun l => l ++ [Some blank]) w)) then
                      ret p
                  end) k w = k p wa).
  { intros B k. destruct file; try discriminate Hfile; reflexivity. }
  unfold cmd_open. fold blank. rewrite Halloc.
  mupdate ltac:(exact Hstore).
  rewrite Hsn, Hsm. change (true && true) with true. cbv iota.
  mderef Hn0. mderef Hm0.
  unfold bind at 1. unfold call at 1. rewrite Hopen.
  unfold bind at 1. unfold call at 1. rewrite Herr.
  reflexivity.
Qed.

(** What becomes of such an object: the next sweep finds it unmarked and
    unbound, frees it without calling [fclose], and the chain is empty
    again. *)
Lemma sweep_frees_unbound (p : nat) (w : World) :
  lfile_chain w = [p] ->
  VFILE p w = Some (mkFile LISP_NULL None false false) ->
  file_sweep K w
  = Ok tt (set_files (fun l => <[p := None]> l) (set_lfile_chain [] w)).
Proof.
  intros Hchain Hfile.
  unfold file_sweep. rewrite bind_get_world, bind_modify, Hchain.
  assert (Hfile' : VFILE p (set_lfile_chain [] w)
                   = Some (mkFile LISP_NULL None false false)) by exact Hfile.
  simpl sweep_chain. mderef Hfile'. simpl.
  unfold close_if_owned. simpl. rewrite !bind_assoc, bind_ret.
  assert (Hfree : free_file p (set_lfile_chain [] w)
                  = Some (set_files (fun l => <[p := None]> l) (set_lfile_chain [] w))).
  { unfold free_file. unfold VFILE in Hfile'.
    destruct (files (set_lfile_chain [] w) !! p) as [[f|]|]; try discriminate.
    reflexivity. }
  mupdate ltac:(exact Hfree). reflexivity.
Qed.

(** *** copy-stream *)

(** C1 fails on the code.  Once 511 bytes are buffered, the byte that
    was just read is counted but neither stored nor written: of 512
    bytes copied the destination receives the first 511, and of 2000
    bytes it receives 1997, those at offsets 511, 1023 and 1535 being
    lost; the count returned is 512 and 2000 all the same. *)
Theorem copy_stream_drops_bytes :
  copy_payload 512 = Some (V_Int 512, take 511 (payload 512))
  /\ copy_payload 2000
     = Some (V_Int 2000,
             take 511 (payload 2000)
             ++ take 511 (drop 512 (payload 2000))
             ++ take 511 (drop 1024 (payload 2000))
             ++ drop 1536 (payload 2000))
  /\ copy_payload 511 = Some (V_Int 511, payload 511).
Proof.
  split; [|split]; vm_compute; reflexivity.
Qed.

(** * Properties of the other operations *)

Variable L : @Collab2 Host.

(** *** put-bytes on an accumulator *)

Lemma frame_refl (strm : nat) (w : @World Host) : accumulator_frame strm w w.
Proof.
  repeat split; auto.
  intros q d H. left. exists d. exact H.
Qed.

Lemma frame_trans (strm : nat) (w1 w2 w3 : @World Host) :
  accumulator_frame strm w1 w2 -> accumulator_frame strm w2 w3 ->
  accumulator_frame strm w1 w3.
Proof.
  intros (F1 & C1 & S1 & H1 & L1 & G1 & O1 & K1 & P1)
         (F2 & C2 & S2 & H2 & L2 & G2 & O2 & K2 & P2).
  repeat split; try congruence; try lia.
  - intros c Hc. rewrite (O2 c Hc). apply O1. exact Hc.
  - intros q s Hq Hnp. apply K2; [apply K1; assumption|].
    intros d Hd. destruct (P1 q d Hd) as [[d0 Hd0]|Hfresh].
    + exact (Hnp d0 Hd0).
    + apply lookup_lt_Some in Hq. lia.
  - intros q d Hd. destruct (P2 q d Hd) as [[d0 Hd0]|Hfresh].
    + apply (P1 q d0 Hd0).
    + right. lia.
Qed.

(** A write into the payload in place. *)
Lemma frame_fit (strm q : nat) (d : VALUE) (s' : Lisp_String) (w : @World Host) :
  VCONS strm w = Some (V_String q, d) ->
  accumulator_frame strm w (set_strings (fun l => <[q := s']> l) w).
Proof.
  intros Hcell. repeat split.
  - simpl. rewrite length_insert. lia.
  - intros q0 s0 Hq0 Hnp. simpl. rewrite list_lookup_insert_ne; [exact Hq0|].
    intros ->. exact (Hnp d Hcell).
  - intros q0 d0 Hd. left. exists d0. exact Hd.
Qed.

(** A write that moves the payload to a newly allocated string. *)
Lemma frame_grow (strm : nat) (c' : VALUE) (s0 s1 s2 : Lisp_String)
    (w : @World Host) :
  let q' := length (strings w) in
  accumulator_frame strm w
    (set_strings (fun l => <[q' := s2]> l)
       (set_conses (fun l => <[strm := (V_String q', c')]> l)
          (set_strings (fun l => <[q' := s1]> l)
             (set_strings (fun l => l ++ [s0]) w)))).
Proof.
  intros q'. repeat split.
  - simpl. apply length_insert.
  - simpl. rewrite !length_insert, length_app. lia.
  - intros c Hc. unfold VCONS. simpl. apply list_lookup_insert_ne. congruence.
  - intros q0 s0' Hq0 _. simpl.
    assert (q0 < q')%nat by (eapply lookup_lt_Some; exact Hq0).
    rewrite !list_lookup_insert_ne by lia.
    rewrite lookup_app_l by assumption. exact Hq0.
  - intros q0 d0 Hd. unfold VCONS in Hd. simpl in Hd.
    destruct (decide (strm < length (conses w))%nat) as [Hlt|Hge].
    + rewrite list_lookup_insert_eq in Hd by exact Hlt.
      injection Hd as <- _. right. unfold q'. lia.
    + rewrite list_insert_ge in Hd by lia.
      left. exists d0. exact Hd.
Qed.

(** The statements that end the accumulator case of [stream_puts]: copy
    the bytes, store the terminator, set the length. *)
Lemma puts_tail (q : nat) (s : Lisp_String) (B buf : list byte) (n : Z)
    (w : @World Host) :
  strings w !! q = Some s ->
  take (length B) (str_data s) = B ->
  0 <= n <= Z.of_nat (length buf) ->
  Z.of_nat (length B) + n + 1 <= Z.of_nat (length (str_data s)) ->
  exists s',
    (do string_memcpy (V_String q) (Z.of_nat (length B)) buf n then
     do string_poke (V_String q) (Z.of_nat (length B) + n) x00 then
     do set_string_len (V_String q) (Z.of_nat (length B) + n) then
     ret n) w
    = Ok n (set_strings (fun l => <[q := s']> l) w)
    /\ str_len s' = Z.of_nat (length (B ++ take (Z.to_nat n) buf))
    /\ take (length (B ++ take (Z.to_nat n) buf)) (str_data s')
       = B ++ take (Z.to_nat n) buf
    /\ str_data s' !! length (B ++ take (Z.to_nat n) buf) = Some x00
    /\ length (str_data s') = length (str_data s).
Proof.
  intros Hs Htake Hn Hroom.
  set (T := take (Z.to_nat n) buf).
  assert (HT : length T = Z.to_nat n).
  { unfold T. rewrite length_take. lia. }
  assert (HB : (length B <= length (str_data s))%nat) by lia.
  set (rest := drop (Z.to_nat (Z.of_nat (length B) + n)) (str_data s)).
  assert (Hrest : (1 <= length rest)%nat).
  { unfold rest. rewrite length_drop. lia. }
  assert (Hm : memcpy (str_data s) (Z.of_nat (length B)) buf n
               = Some ((B ++ T) ++ rest)).
  { unfold memcpy.
    destruct (Z.leb_spec 0 n); [|lia].
    destruct (Z.leb_spec 0 (Z.of_nat (length B))); [|lia].
    destruct (Z.leb_spec n (Z.of_nat (length buf))); [|lia].
    destruct (Z.leb_spec (Z.of_nat (length B) + n) (Z.of_nat (length (str_data s))));
      [|lia].
    simpl. rewrite Nat2Z.id, Htake, <- app_assoc. reflexivity. }
  destruct rest as [|r0 rest'] eqn:Er; [simpl in Hrest; lia|].
  assert (Hlen1 : length ((B ++ T) ++ r0 :: rest') = length (str_data s)).
  { rewrite <- Er. unfold rest. rewrite !length_app, length_drop, HT. lia. }
  assert (Hz : zstore ((B ++ T) ++ r0 :: rest') (Z.of_nat (length B) + n) x00
               = Some ((B ++ T) ++ x00 :: rest')).
  { unfold zstore. rewrite Hlen1.
    destruct (Z.leb_spec 0 (Z.of_nat (length B) + n)); [|lia].
    destruct (Z.ltb_spec (Z.of_nat (length B) + n)
                (Z.of_nat (length (str_data s)))); [|lia].
    simpl. f_equal.
    replace (Z.to_nat (Z.of_nat (length B) + n)) with (length (B ++ T) + 0)%nat
      by (rewrite length_app, HT; lia).
    rewrite insert_app_r. reflexivity. }
  exists (mkString ((B ++ T) ++ x00 :: rest') (Z.of_nat (length B) + n)).
  split; [|split; [|split; [|split]]].
  - unfold string_memcpy, string_poke, set_string_len.
    mderef Hs. mderef Hm. mupdate ltac:(eapply store_string_some; exact Hs).
    set (w1 := set_strings _ w).
    assert (Hs1 : VSTRING (V_String q) w1
                  = Some (mkString ((B ++ T) ++ r0 :: rest') (str_len s))).
    { apply (strings_insert_lookup q s _ w Hs). }
    mderef Hs1. mderef Hz. mupdate ltac:(eapply store_string_some; exact Hs1).
    set (w2 := set_strings _ w1).
    assert (Hs2 : VSTRING (V_String q) w2
                  = Some (mkString ((B ++ T) ++ x00 :: rest') (str_len s))).
    { apply (strings_insert_lookup q _ _ w1 Hs1). }
    mderef Hs2. mupdate ltac:(eapply store_string_some; exact Hs2).
    unfold ret, w2, w1, set_strings. simpl.
    rewrite !list_insert_insert_eq. reflexivity.
  - simpl. rewrite length_app, HT. lia.
  - simpl. apply take_app_length.
  - simpl. apply list_lookup_middle. reflexivity.
  - simpl. rewrite <- Hlen1. rewrite !length_app. reflexivity.
Qed.

(** The accumulator case of [stream_puts]. *)
Lemma puts_switch_accumulator (strm : nat) (B : list byte) (cap : Z)
    (data : puts_data) (buf : list byte) (n : Z) (isVal : bool) (w : World) :
  accumulator_holds strm B cap w ->
  0 <= n <= Z.of_nat (length buf) ->
  0 <= cap < 2 ^ 30 ->
  Z.of_nat (length B) + n + 1 < 2 ^ 31 - 1 ->
  exists w',
    puts_switch K (V_Cons strm) data buf n isVal w = Ok n w'
    /\ accumulator_holds strm (B ++ take (Z.to_nat n) buf)
         (puts_capacity cap (Z.of_nat (length B)) n) w'
    /\ accumulator_frame strm w w'.
Proof.
  intros (q & s & Hcell & Hs & Hlen & Htake & Hterm & Hsize) Hn Hcap Hmax.
  assert (HBl : (length B <= length (str_data s))%nat).
  { rewrite <- Htake at 1. rewrite length_take. lia. }
  unfold puts_switch.
  mderef Hcell. simpl.
  mderef Hs. rewrite Hlen.
  rewrite !(int_wrap_small (Z.of_nat (length B) + n + 1)) by lia.
  rewrite !(int_wrap_small (Z.of_nat (length B) + n)) by lia.
  unfold puts_capacity.
  destruct (Z.leb_spec cap (Z.of_nat (length B) + n + 1)) as [Hgrow|Hfit].
  - set (tmp := if cap <? 16 then 32 else cap * 2).
    replace (if cap <? 16 then 32 else int_wrap (cap * 2)) with tmp.
    2:{ unfold tmp. destruct (Z.ltb_spec cap 16); [reflexivity|].
        rewrite int_wrap_small by lia. reflexivity. }
    assert (Htmp : 32 <= tmp <= 2 ^ 31 - 2).
    { unfold tmp. destruct (Z.ltb_spec cap 16); lia. }
    set (cap' := Z.max (Z.of_nat (length B) + n + 1) tmp).
    replace (if tmp >? Z.of_nat (length B) + n + 1
             then tmp else Z.of_nat (length B) + n + 1) with cap'.
    2:{ unfold cap'. destruct (Z.gtb_spec tmp (Z.of_nat (length B) + n + 1)); lia. }
    assert (Hcap' : Z.of_nat (length B) + n + 1 <= cap' /\ cap' + 1 < 2 ^ 31).
    { unfold cap'. lia. }
    rewrite (int_wrap_small (cap' + 1)) by lia.
    rewrite bind_assoc. unfold make_string at 1. unfold bind at 1.
    set (junk := replicate (Z.to_nat (cap' + 1)) (uninit K)).
    set (q' := length (strings w)).
    set (w1 := set_strings _ w).
    assert (Hnew : VSTRING (V_String q') w1 = Some (mkString junk (cap' + 1 - 1))).
    { simpl. apply list_lookup_middle. reflexivity. }
    assert (Hjunk : length junk = Z.to_nat (cap' + 1)).
    { unfold junk. apply length_replicate. }
    unfold string_memcpy at 1.
    mderef Hnew. simpl str_data.
    rewrite ?bind_assoc.
    erewrite bind_deref
      by (apply (memcpy_prefix junk (str_data s) (length B)); lia).
    cbv beta. rewrite Htake.
    mupdate ltac:(eapply store_string_some; exact Hnew).
    set (w2 := set_strings _ w1).
    assert (Hcell2 : VCONS strm w2 = Some (V_String q, V_Int cap)) by exact Hcell.
    mupdate ltac:(eapply store_cons_some; exact Hcell2).
    set (w3 := set_conses _ w2).
    rewrite bind_ret.
    assert (Hs3 : strings w3 !! q'
                  = Some (mkString (B ++ drop (length B) junk) (cap' + 1 - 1))).
    { apply (strings_insert_lookup q' _ _ w1 Hnew). }
    destruct (puts_tail q' _ B buf n w3 Hs3) as (s' & Hrun & Hl' & Ht' & Hz' & Hsz').
    { simpl. apply take_app_length. }
    { exact Hn. }
    { simpl. rewrite length_app, length_drop. lia. }
    rewrite Hrun. eexists. split; [reflexivity|].
    split; [|apply frame_grow].
    exists q', s'. split.
    { unfold VCONS. simpl. apply list_lookup_insert_eq.
      eapply lookup_lt_Some; exact Hcell. }
    split.
    { apply (strings_insert_lookup q' _ _ w3 Hs3). }
    split; [exact Hl'|]. split; [exact Ht'|]. split; [exact Hz'|].
    rewrite Hsz'. simpl. rewrite length_app, length_drop. lia.
  - rewrite bind_ret.
    destruct (puts_tail q s B buf n w Hs Htake Hn ltac:(lia))
      as (s' & Hrun & Hl' & Ht' & Hz' & Hsz').
    rewrite Hrun. eexists. split; [reflexivity|].
    split; [|eapply frame_fit; exact Hcell].
    exists q, s'. split; [exact Hcell|]. split.
    { apply (strings_insert_lookup q s _ w Hs). }
    split; [exact Hl'|]. split; [exact Ht'|]. split; [exact Hz'|].
    rewrite Hsz'. exact Hsize.
Qed.

(** [stream_puts] of raw bytes on an accumulator. *)
Lemma puts_accumulator (strm : nat) (B : list byte) (cap : Z) (buf : list byte)
    (n : Z) (w : World) :
  accumulator_holds strm B cap w ->
  0 <= n <= Z.of_nat (length buf) ->
  0 <= cap < 2 ^ 30 ->
  Z.of_nat (length B) + n + 1 < 2 ^ 31 - 1 ->
  exists w',
    stream_puts K (V_Cons strm) (Data_raw buf) n false w = Ok n w'
    /\ accumulator_holds strm (B ++ take (Z.to_nat n) buf)
         (puts_capacity cap (Z.of_nat (length B)) n) w'
    /\ Z.of_nat (length B) + n < puts_capacity cap (Z.of_nat (length B)) n
    /\ accumulator_frame strm w w'.
Proof.
  intros Hacc Hn Hcap Hmax.
  destruct (puts_switch_accumulator strm B cap (Data_raw buf) buf n false w
              Hacc Hn Hcap Hmax) as (w' & Hrun & Hacc' & Hfr).
  exists w'. split; [|split; [exact Hacc'|split; [|exact Hfr]]].
  - unfold stream_puts. simpl. unfold puts_body.
    erewrite bind_deref by reflexivity.
    destruct (Z.eqb_spec n (-1)); [lia|].
    rewrite bind_ret. exact Hrun.
  - unfold puts_capacity.
    destruct (Z.leb_spec cap (Z.of_nat (length B) + n + 1)); lia.
Qed.


(** X2.  [write] on an output accumulator appends its data: a string
    given without a length goes in whole and its length is returned; a
    character goes in as one byte and 1 is returned. *)
Theorem write_appends (strm : nat) (B : list byte) (cap : Z) (w : World) :
  accumulator_holds strm B cap w ->
  0 <= cap < 2 ^ 30 ->
  (forall data s,
     VSTRING data w = Some s ->
     0 <= str_len s <= Z.of_nat (length (str_data s)) ->
     Z.of_nat (length B) + str_len s + 1 < 2 ^ 31 - 1 ->
     exists w',
       cmd_write K (V_Cons strm) data sym_nil w = Ok (MAKE_INT (str_len s)) w'
       /\ accumulator_holds strm (B ++ take (Z.to_nat (str_len s)) (str_data s))
            (puts_capacity cap (Z.of_nat (length B)) (str_len s)) w')
  /\ (forall b : byte,
        Z.of_nat (length B) <= cap -> Z.of_nat (length B) + 1 < 2 ^ 30 ->
        exists w' cap',
          cmd_write K (V_Cons strm) (V_Int (int_of_uchar b)) sym_nil w
          = Ok (MAKE_INT 1) w'
          /\ accumulator_holds strm (B ++ [b]) cap' w').
Proof.
  intros Hacc Hcap. split.
  - intros data s Hs Hwf Hmax.
    destruct (puts_switch_accumulator strm B cap (Data_value data) (str_data s)
                (str_len s) true w Hacc Hwf Hcap Hmax) as (w' & Hrun & Hacc' & _).
    exists w'. split; [|exact Hacc'].
    assert (Hputs : stream_puts K (V_Cons strm) (Data_value data) (str_len s) true w
                    = Ok (str_len s) w').
    { unfold stream_puts. simpl. unfold puts_body.
      erewrite bind_deref by (simpl; rewrite Hs; reflexivity).
      assert (Hlen : (if str_len s =? -1
                      then deref (data_len (Data_value data))
                      else ret (str_len s)) w = Ok (str_len s) w).
      { destruct (str_len s =? -1); [|reflexivity].
        unfold deref. simpl. rewrite Hs. reflexivity. }
      rewrite (bind_ok _ _ _ _ _ Hlen). exact Hrun. }
    unfold cmd_write.
    destruct data; simpl in Hs; try discriminate;
      (erewrite bind_deref by (simpl; exact Hs)); simpl;
      rewrite (bind_ok _ _ _ _ _ Hputs); reflexivity.
  - intros b HB Hmax.
    destruct (putc_accumulator_step strm B cap b w Hacc ltac:(lia) Hmax)
      as (w' & Hput & Hacc').
    eexists w', _. split; [|exact Hacc'].
    unfold cmd_write. simpl VINT. rewrite (bind_ok _ _ _ _ _ Hput). reflexivity.
Qed.

(** An array of [n + 1] bytes that starts with the [n] bytes [B] and has
    a zero at offset [n] is [B] and the zero. *)
Lemma exact_payload (B data : list byte) :
  take (length B) data = B -> data !! length B = Some x00 ->
  length data = S (length B) -> data = B ++ [x00].
Proof.
  intros Ht Hz Hl.
  rewrite <- (take_drop (length B) data). rewrite Ht. f_equal.
  assert (Hd : length (drop (length B) data) = 1%nat) by (rewrite length_drop; lia).
  destruct (drop (length B) data) as [|d [|d' rest]] eqn:E; simpl in Hd; try lia.
  f_equal.
  assert (Hh : drop (length B) data !! 0%nat = Some x00).
  { rewrite lookup_drop, Nat.add_0_r. exact Hz. }
  rewrite E in Hh. simpl in Hh. congruence.
Qed.

(** [get-output-stream-string] on an accumulator. *)
Lemma get_output_accumulator (strm : nat) (B : list byte) (cap : Z)
    (w : @World Host) :
  accumulator_holds strm B cap w ->
  exists r w',
    cmd_get_output_stream_string (V_Cons strm) w = Ok r w'
    /\ VSTRING r w' = Some (mkString (B ++ [x00]) (Z.of_nat (length B)))
    /\ accumulator_holds strm [] 0 w'.
Proof.
  intros (q & s & Hcell & Hs & Hlen & Htake & Hterm & Hsize).
  assert (HBl : (length B <= length (str_data s))%nat).
  { rewrite <- Htake at 1. rewrite length_take. lia. }
  assert (Hfinish : forall (r : VALUE) (w1 : @World Host),
            VCONS strm w1 = Some (V_String q, V_Int cap) ->
            (let* fresh := string_dupn [x00] 0 in
             let* cell1 := deref (VCONS strm) in
             do update (store_cons strm (fresh, snd cell1)) then
             let* cell2 := deref (VCONS strm) in
             do update (store_cons strm (fst cell2, MAKE_INT 0)) then
             ret r) w1
            = Ok r (set_conses
                      (fun l => <[strm := (V_String (length (strings w1)), V_Int 0)]> l)
                      (set_strings (fun l => l ++ [mkString [x00] 0]) w1))).
  { intros r w1 Hc1.
    unfold string_dupn at 1. simpl. unfold bind at 1.
    set (w2 := set_strings _ w1).
    assert (Hc2 : VCONS strm w2 = Some (V_String q, V_Int cap)) by exact Hc1.
    mderef Hc2. mupdate ltac:(eapply store_cons_some; exact Hc2).
    set (w3 := set_conses _ w2).
    assert (Hc3 : VCONS strm w3 = Some (V_String (length (strings w1)), V_Int cap)).
    { unfold VCONS, w3. simpl. apply list_lookup_insert_eq.
      eapply lookup_lt_Some; exact Hc1. }
    mderef Hc3. mupdate ltac:(eapply store_cons_some; exact Hc3).
    unfold ret, w3, set_conses. simpl. rewrite list_insert_insert_eq. reflexivity. }
  assert (Hreset : forall w1 : @World Host,
            VCONS strm w1 = Some (V_String q, V_Int cap) ->
            accumulator_holds strm [] 0
              (set_conses
                 (fun l => <[strm := (V_String (length (strings w1)), V_Int 0)]> l)
                 (set_strings (fun l => l ++ [mkString [x00] 0]) w1))).
  { intros w1 Hc1. exists (length (strings w1)), (mkString [x00] 0).
    repeat split.
    - unfold VCONS. simpl. apply list_lookup_insert_eq.
      eapply lookup_lt_Some; exact Hc1.
    - simpl. apply list_lookup_middle. reflexivity. }
  unfold cmd_get_output_stream_string.
  mderef Hcell. simpl. mderef Hs. rewrite Hlen.
  destruct (Z.eqb_spec (Z.of_nat (length B)) cap) as [Heq|Hne]; simpl negb; cbv iota.
  - rewrite bind_ret. rewrite (Hfinish _ w Hcell).
    eexists _, _. split; [reflexivity|]. split; [|exact (Hreset w Hcell)].
    simpl. rewrite lookup_app_l by (eapply lookup_lt_Some; exact Hs).
    rewrite Hs. f_equal. destruct s as [d l]. simpl in *. f_equal; [|exact Hlen].
    apply exact_payload; [exact Htake | exact Hterm | lia].
  - unfold cmd_copy_sequence. rewrite ?bind_assoc.
    assert (Hs' : VSTRING (V_String q) w = Some s) by exact Hs.
    mderef Hs'. rewrite Hlen.
    unfold string_dupn at 1.
    destruct (Z.leb_spec 0 (Z.of_nat (length B))); [|lia].
    destruct (Z.leb_spec (Z.of_nat (length B)) (Z.of_nat (length (str_data s))));
      [|lia].
    simpl andb. cbv iota. unfold bind at 1.
    set (w1 := set_strings _ w).
    assert (Hc1 : VCONS strm w1 = Some (V_String q, V_Int cap)) by exact Hcell.
    rewrite (Hfinish _ w1 Hc1).
    eexists _, _. split; [reflexivity|]. split; [|exact (Hreset w1 Hc1)].
    simpl. rewrite Nat2Z.id, Htake.
    rewrite lookup_app_l by (rewrite length_app; simpl; lia).
    apply list_lookup_middle. reflexivity.
Qed.

(** X3.  [get-output-stream-string] on an accumulator that holds [B]
    returns a string of length [|B|] whose allocated bytes are exactly
    [B] and the terminator (no slack), and leaves the stream a fresh
    accumulator: empty payload, capacity 0. *)
Theorem get_output_stream_string_resets (strm : nat) (B : list byte) (cap : Z)
    (w : @World Host) :
  accumulator_holds strm B cap w ->
  exists r w',
    cmd_get_output_stream_string (V_Cons strm) w = Ok r w'
    /\ VSTRING r w' = Some (mkString (B ++ [x00]) (Z.of_nat (length B)))
    /\ accumulator_holds strm [] 0 w'.
Proof. exact (get_output_accumulator strm B cap w). Qed.

(** One [put-char] on an accumulator, with what it leaves alone. *)
Lemma putc_accumulator_framed (strm : nat) (B : list byte) (cap : Z) (b : byte)
    (w : World) :
  accumulator_holds strm B cap w ->
  Z.of_nat (length B) <= cap < 2 ^ 31 ->
  Z.of_nat (length B) + 1 < 2 ^ 30 ->
  exists w',
    stream_putc K (V_Cons strm) (int_of_uchar b) w = Ok 1 w'
    /\ accumulator_holds strm (B ++ [b])
         (if Z.of_nat (length B) + 1 >=? cap
          then (if cap <? 16 then 32 else cap * 2) else cap) w'
    /\ accumulator_frame strm w w'.
Proof.
  intros (q & s & Hcell & Hs & Hlen & Htake & Hterm & Hsize) Hcap Hmax.
  assert (Hdata : str_data s = B ++ drop (length B) (str_data s)).
  { rewrite <- Htake at 1. symmetry. apply take_drop. }
  assert (Hrest : length (drop (length B) (str_data s))
                  = Z.to_nat (cap + 1 - Z.of_nat (length B))).
  { rewrite length_drop. lia. }
  unfold stream_putc, putc_switch. simpl.
  mderef Hcell. simpl.
  mderef Hs. rewrite Hlen.
  rewrite !(int_wrap_small (Z.of_nat (length B) + 1)) by lia.
  rewrite uchar_of_int_of_uchar.
  destruct (Z.geb_spec (Z.of_nat (length B) + 1) cap) as [Hgrow|Hfit].
  - set (cap' := if cap <? 16 then 32 else cap * 2).
    assert (Hcap' : Z.of_nat (length B) + 1 < cap' /\ cap' + 1 < 2 ^ 31).
    { unfold cap'. destruct (Z.ltb_spec cap 16); lia. }
    replace (if cap <? 16 then 32 else int_wrap (cap * 2)) with cap'.
    2:{ unfold cap'. destruct (Z.ltb_spec cap 16); [reflexivity|].
        rewrite int_wrap_small by lia. reflexivity. }
    rewrite (int_wrap_small (cap' + 1)) by lia.
    rewrite bind_assoc. unfold make_string at 1. unfold bind at 1.
    set (junk := replicate (Z.to_nat (cap' + 1)) (uninit K)).
    set (q' := length (strings w)).
    set (w1 := set_strings _ w).
    assert (Hnew : VSTRING (V_String q') w1 = Some (mkString junk (cap' + 1 - 1))).
    { simpl. apply list_lookup_middle. reflexivity. }
    assert (Hjunk : length junk = Z.to_nat (cap' + 1)).
    { unfold junk. apply length_replicate. }
    unfold string_memcpy.
    mderef Hnew. simpl str_data.
    rewrite ?bind_assoc.
    erewrite bind_deref
      by (apply (memcpy_prefix junk (str_data s) (length B)); lia).
    cbv beta. rewrite Htake.
    mupdate ltac:(eapply store_string_some; exact Hnew).
    set (w2 := set_strings _ w1).
    assert (Hcell2 : VCONS strm w2 = Some (V_String q, V_Int cap)) by exact Hcell.
    mupdate ltac:(eapply store_cons_some; exact Hcell2).
    set (w3 := set_conses _ w2).
    rewrite bind_ret.
    assert (Hs3 : strings w3 !! q'
                  = Some (mkString (B ++ drop (length B) junk) (cap' + 1 - 1))).
    { apply (strings_insert_lookup q' _ _ w1 Hnew). }
    assert (Hrest3 : length (drop (length B) junk)
                     = Z.to_nat (cap' + 1 - Z.of_nat (length B))).
    { rewrite length_drop. lia. }
    rewrite (putc_tail q' _ (length B) b w3 Hs3)
      by (simpl; rewrite length_app; lia).
    eexists. split; [reflexivity|].
    split; [|apply frame_grow].
    destruct (tail_write B (drop (length B) junk) b) as (Ht1 & Ht2 & Ht3); [lia|].
    exists q', (mkString (<[S (length B) := x00]>
                           (<[length B := b]> (B ++ drop (length B) junk)))
                         (Z.of_nat (length B) + 1)).
    split.
    { unfold VCONS. simpl. apply list_lookup_insert_eq.
      eapply lookup_lt_Some; exact Hcell. }
    split.
    { apply (strings_insert_lookup q' _ _ w3 Hs3). }
    simpl. split; [rewrite length_app; simpl; lia|].
    split; [exact Ht1|]. split; [exact Ht2|].
    rewrite Ht3, length_app. lia.
  - rewrite bind_ret.
    rewrite (putc_tail q s (length B) b w Hs) by lia.
    eexists. split; [reflexivity|].
    split; [|eapply frame_fit; exact Hcell].
    destruct (tail_write B (drop (length B) (str_data s)) b) as (Ht1 & Ht2 & Ht3);
      [lia|].
    rewrite <- Hdata in Ht1, Ht2, Ht3.
    exists q, (mkString (<[S (length B) := x00]> (<[length B := b]> (str_data s)))
                        (Z.of_nat (length B) + 1)).
    split; [exact Hcell|].
    split.
    { apply (strings_insert_lookup q s _ w Hs). }
    simpl. split; [rewrite length_app; simpl; lia|].
    split; [exact Ht1|]. split; [exact Ht2|].
    rewrite Ht3. exact Hsize.
Qed.

(** *** Reading from a buffer *)

Lemma store_pos_same (pos : pos_ptr) (v : VALUE) (w : @World Host) :
  load_pos pos w = Some v -> store_pos pos v w = Some w.
Proof.
  destruct pos as [m|t|c|l]; simpl; intros H.
  - destruct (marks w !! m) as [mk|] eqn:E; [|discriminate].
    injection H as <-. unfold set_marks.
    rewrite list_insert_id by (destruct mk; exact E).
    rewrite world_eta. reflexivity.
  - destruct (buffers w !! t) as [tx|] eqn:E; [|discriminate].
    injection H as <-. unfold set_buffers.
    rewrite list_insert_id by (destruct tx; exact E).
    rewrite world_eta. reflexivity.
  - destruct (conses w !! c) as [cell|] eqn:E; [|discriminate].
    injection H as <-. unfold set_conses.
    rewrite list_insert_id by (destruct cell; exact E).
    rewrite world_eta. reflexivity.
  - reflexivity.
Qed.

(** X4.  At the end of a buffer -- the row at or past the logical end,
    or the column at or past the terminator slot of the last row --
    [pos_getc] returns [EOF] and changes nothing, the position
    included. *)
Theorem pos_getc_at_end (tx : nat) (pos : pos_ptr) (col row : Z) (t : TX)
    (w : @World Host) :
  load_pos pos w = Some (V_Pos col row) ->
  VTX tx w = Some t ->
  tx_LogicalEnd t <= row
  \/ (exists ln, zlookup (tx_Lines t) row = Some ln
                 /\ ln_Strlen ln - 1 <= col
                 /\ row + 1 = tx_LogicalEnd t) ->
  pos_getc tx pos w = Ok EOF w.
Proof.
  intros Hld Ht Hend. unfold pos_getc.
  mderef Hld. mderef Ht.
  destruct Hend as [Hrow|(ln & Hln & Hcol & Hlast)].
  - destruct (Z.ltb_spec row (tx_LogicalEnd t)); [lia|].
    mupdate ltac:(apply store_pos_same; exact Hld). reflexivity.
  - destruct (Z.ltb_spec row (tx_LogicalEnd t)); [|lia].
    mderef Hln.
    destruct (Z.geb_spec col (ln_Strlen ln - 1)); [|lia].
    destruct (Z.eqb_spec (row + 1) (tx_LogicalEnd t)); [|lia].
    mupdate ltac:(apply store_pos_same; exact Hld). reflexivity.
Qed.

Lemma set_conses_twice (p : nat) (c1 c2 : VALUE * VALUE) (w : @World Host) :
  set_conses (fun l => <[p := c2]> l) (set_conses (fun l => <[p := c1]> l) w)
  = set_conses (fun l => <[p := c2]> l) w.
Proof. unfold set_conses. simpl. rewrite list_insert_insert_eq. reflexivity. Qed.

Lemma set_conses_same (p : nat) (c : VALUE * VALUE) (w : @World Host) :
  VCONS p w = Some c -> set_conses (fun l => <[p := c]> l) w = w.
Proof.
  intros H. unfold set_conses. rewrite list_insert_id by exact H.
  apply world_eta.
Qed.

Lemma VCONS_set_conses (p : nat) (c c' : VALUE * VALUE) (w : @World Host) :
  VCONS p w = Some c ->
  VCONS p (set_conses (fun l => <[p := c']> l) w) = Some c'.
Proof.
  intros H. unfold VCONS. simpl. apply list_lookup_insert_eq.
  eapply lookup_lt_Some. exact H.
Qed.

(** One read from [(Buffer . Pos)] inside a line. *)
Lemma getc_buffer_pos_char (p q : nat) (col row : Z) (t : TX) (ln : LINE)
    (b : byte) (w : World) :
  VCONS p w = Some (V_Buffer q, V_Pos col row) ->
  VTX q w = Some t -> row < tx_LogicalEnd t ->
  zlookup (tx_Lines t) row = Some ln ->
  col < ln_Strlen ln - 1 -> zlookup (ln_Line ln) col = Some b ->
  stream_getc K (V_Cons p) w
  = Ok (int_of_uchar b)
       (set_conses (fun l => <[p := (V_Buffer q, V_Pos (col + 1) row)]> l) w).
Proof.
  intros Hcell Ht Hrow Hln Hcol Hb.
  unfold stream_getc, getc_switch. simpl.
  mderef Hcell. simpl. erewrite bind_deref by reflexivity.
  unfold pos_getc.
  assert (Hld : load_pos (P_cdr p) w = Some (V_Pos col row)).
  { simpl. unfold VCONS in Hcell. rewrite Hcell. reflexivity. }
  mderef Hld. mderef Ht.
  destruct (Z.ltb_spec row (tx_LogicalEnd t)); [|lia].
  mderef Hln.
  destruct (Z.geb_spec col (ln_Strlen ln - 1)); [lia|].
  mderef Hb.
  assert (Hst : store_pos (P_cdr p) (make_pos (col + 1) row) w
                = Some (set_conses
                          (fun l => <[p := (V_Buffer q, V_Pos (col + 1) row)]> l) w)).
  { simpl. unfold VCONS in Hcell. rewrite Hcell. reflexivity. }
  mupdate ltac:(exact Hst). reflexivity.
Qed.

(** One read from [(Buffer . Pos)] at the end of a line that is not the
    last. *)
Lemma getc_buffer_pos_newline (p q : nat) (col row : Z) (t : TX) (ln : LINE)
    (w : World) :
  VCONS p w = Some (V_Buffer q, V_Pos col row) ->
  VTX q w = Some t -> row + 1 < tx_LogicalEnd t ->
  zlookup (tx_Lines t) row = Some ln ->
  ln_Strlen ln - 1 <= col ->
  stream_getc K (V_Cons p) w
  = Ok 10 (set_conses (fun l => <[p := (V_Buffer q, V_Pos 0 (row + 1))]> l) w).
Proof.
  intros Hcell Ht Hrow Hln Hcol.
  unfold stream_getc, getc_switch. simpl.
  mderef Hcell. simpl. erewrite bind_deref by reflexivity.
  unfold pos_getc.
  assert (Hld : load_pos (P_cdr p) w = Some (V_Pos col row)).
  { simpl. unfold VCONS in Hcell. rewrite Hcell. reflexivity. }
  mderef Hld. mderef Ht.
  destruct (Z.ltb_spec row (tx_LogicalEnd t)); [|lia].
  mderef Hln.
  destruct (Z.geb_spec col (ln_Strlen ln - 1)); [|lia].
  destruct (Z.eqb_spec (row + 1) (tx_LogicalEnd t)); [lia|].
  assert (Hst : store_pos (P_cdr p) (make_pos 0 (row + 1)) w
                = Some (set_conses
                          (fun l => <[p := (V_Buffer q, V_Pos 0 (row + 1))]> l) w)).
  { simpl. unfold VCONS in Hcell. rewrite Hcell. reflexivity. }
  mupdate ltac:(exact Hst). reflexivity.
Qed.

(** Reading the rest of a line, up to its terminator slot. *)
Lemma read_chars_buffer_line (R : list byte) :
  forall (p q : nat) (row : Z) (t : TX) (ln : LINE) (pre tail : list byte)
         (w : World),
    VCONS p w = Some (V_Buffer q, V_Pos (Z.of_nat (length pre)) row) ->
    VTX q w = Some t -> row < tx_LogicalEnd t ->
    zlookup (tx_Lines t) row = Some ln ->
    ln_Line ln = pre ++ R ++ tail ->
    ln_Strlen ln - 1 = Z.of_nat (length pre + length R) ->
    read_chars K (length R) (V_Cons p) w
    = Ok (map int_of_uchar R)
         (set_conses
            (fun l => <[p := (V_Buffer q,
                              V_Pos (Z.of_nat (length pre + length R)) row)]> l) w).
Proof.
  induction R as [|b R IH]; intros p q row t ln pre tail w Hcell Ht Hrow Hln Hline Hlen.
  - simpl. rewrite Nat.add_0_r. rewrite set_conses_same by exact Hcell. reflexivity.
  - simpl length in *.
    assert (Hb : zlookup (ln_Line ln) (Z.of_nat (length pre)) = Some b).
    { unfold zlookup.
      destruct (Z.ltb_spec (Z.of_nat (length pre)) 0); [lia|].
      rewrite Nat2Z.id, Hline. apply list_lookup_middle. reflexivity. }
    pose proof (getc_buffer_pos_char p q _ row t ln b w Hcell Ht Hrow Hln
                  ltac:(lia) Hb) as Hstep.
    set (w1 := set_conses _ w) in Hstep.
    assert (Hcell1 : VCONS p w1
                     = Some (V_Buffer q, V_Pos (Z.of_nat (length (pre ++ [b]))) row)).
    { unfold w1. rewrite (VCONS_set_conses p _ _ w Hcell).
      rewrite length_app. simpl. do 3 f_equal. lia. }
    assert (Ht1 : VTX q w1 = Some t) by exact Ht.
    assert (Hrest := IH p q row t ln (pre ++ [b]) tail w1 Hcell1 Ht1 Hrow Hln).
    rewrite Hline, <- app_assoc in Hrest. specialize (Hrest eq_refl).
    rewrite length_app in Hrest. simpl length in Hrest.
    specialize (Hrest ltac:(lia)).
    simpl read_chars. mok Hstep. mok Hrest.
    unfold ret, w1. simpl map. rewrite set_conses_twice.
    replace (length pre + 1 + length R)%nat with (length pre + S (length R))%nat
      by lia.
    reflexivity.
Qed.

(** X5.  Reading on from [(Buffer . Pos)] at column [|pre|] of a row
    that is not the last: the reads yield the remaining bytes of the
    line, zero bytes included, and then a newline, and the position is
    then column 0 of the next row; nothing else changes. *)
Theorem read_buffer_line (p q : nat) (row : Z) (t : TX) (ln : LINE)
    (pre R tail : list byte) (w : World) :
  VCONS p w = Some (V_Buffer q, V_Pos (Z.of_nat (length pre)) row) ->
  VTX q w = Some t -> row + 1 < tx_LogicalEnd t ->
  zlookup (tx_Lines t) row = Some ln ->
  ln_Line ln = pre ++ R ++ tail ->
  ln_Strlen ln - 1 = Z.of_nat (length pre + length R) ->
  read_chars K (S (length R)) (V_Cons p) w
  = Ok (map int_of_uchar R ++ [10])
       (set_conses (fun l => <[p := (V_Buffer q, V_Pos 0 (row + 1))]> l) w).
Proof.
  intros Hcell Ht Hrow Hln Hline Hlen.
  pose proof (read_chars_buffer_line R p q row t ln pre tail w Hcell Ht
                ltac:(lia) Hln Hline Hlen) as Hrun.
  set (w1 := set_conses _ w) in Hrun.
  assert (Hcell1 : VCONS p w1
                   = Some (V_Buffer q, V_Pos (Z.of_nat (length pre + length R)) row)).
  { unfold w1. apply (VCONS_set_conses p _ _ w Hcell). }
  pose proof (getc_buffer_pos_newline p q _ row t ln w1 Hcell1 Ht Hrow Hln
                ltac:(lia)) as Hnl.
  assert (Hsplit : forall n cs w0 wa wb,
            read_chars K n (V_Cons p) w0 = Ok cs wa ->
            stream_getc K (V_Cons p) wa = Ok 10 wb ->
            read_chars K (S n) (V_Cons p) w0 = Ok (cs ++ [10]) wb).
  { induction n as [|n IHn]; intros cs w0 wa wb Hr Hg.
    - simpl in Hr. injection Hr as <- <-. simpl. mok Hg. reflexivity.
    - change (read_chars K (S n) (V_Cons p) w0)
        with ((let* c := stream_getc K (V_Cons p) in
               let* cs := read_chars K n (V_Cons p) in ret (c :: cs)) w0) in Hr.
      unfold bind at 1 in Hr.
      destruct (stream_getc K (V_Cons p) w0) as [c wc| |] eqn:Ec; try discriminate.
      unfold bind at 1 in Hr.
      destruct (read_chars K n (V_Cons p) wc) as [cs' wd| |] eqn:Er; try discriminate.
      injection Hr as <- <-.
      change (read_chars K (S (S n)) (V_Cons p) w0)
        with ((let* c := stream_getc K (V_Cons p) in
               let* cs := read_chars K (S n) (V_Cons p) in ret (c :: cs)) w0).
      mok Ec. rewrite (bind_ok _ _ _ _ _ (IHn cs' wc wd wb Er Hg)). reflexivity. }
  rewrite (Hsplit _ _ _ _ _ Hrun Hnl). unfold w1. rewrite set_conses_twice.
  reflexivity.
Qed.

(** *** read-line *)

Lemma zstore_middle (W T : list byte) (b0 b : byte) :
  zstore (W ++ b0 :: T) (Z.of_nat (length W)) b = Some (W ++ b :: T).
Proof.
  unfold zstore.
  destruct (Z.leb_spec 0 (Z.of_nat (length W))); [|lia].
  destruct (Z.ltb_spec (Z.of_nat (length W)) (Z.of_nat (length (W ++ b0 :: T))));
    [|rewrite length_app in *; simpl in *; lia].
  simpl. rewrite Nat2Z.id.
  rewrite insert_app_r_alt by lia. rewrite Nat.sub_diag. reflexivity.
Qed.

Lemma int_of_uchar_newline (b : byte) : int_of_uchar b = 10 -> b = x0a.
Proof.
  intros H. rewrite <- (uchar_of_int_of_uchar b), H. reflexivity.
Qed.

(** The loop of [cmd_read_line] over a run of bytes that are neither
    zero nor a newline, while the count stays below 399. *)
Lemma read_line_run (S : list byte) :
  forall (p q : nat) (s : Lisp_String) (pre slack W T : list byte) (f : nat)
         (w : World),
    VCONS p w = Some (V_Int (Z.of_nat (length pre)), V_String q) ->
    strings w !! q = Some s ->
    str_data s = pre ++ S ++ slack ->
    Forall (fun b => b <> x00 /\ b <> x0a) S ->
    (length S <= length T)%nat ->
    (length W + length S < 399)%nat ->
    read_line_loop K (length S + f) (V_Cons p) (W ++ T) (Z.of_nat (length W)) w
    = read_line_loop K f (V_Cons p) (W ++ S ++ drop (length S) T)
        (Z.of_nat (length W + length S))
        (set_conses
           (fun l => <[p := (V_Int (Z.of_nat (length pre + length S)), V_String q)]> l)
           w).
Proof.
  induction S as [|b S IH]; intros p q s pre slack W T f w Hcell Hq Hdata Hok HT Hlen.
  - simpl. rewrite !Nat.add_0_r. rewrite set_conses_same by exact Hcell.
    reflexivity.
  - apply Forall_cons in Hok as [[Hb0 Hbn] Hok].
    destruct T as [|t0 T]; [simpl in HT; lia|].
    simpl length in *.
    assert (Hb : zlookup (str_data s) (Z.of_nat (length pre)) = Some b).
    { unfold zlookup.
      destruct (Z.ltb_spec (Z.of_nat (length pre)) 0); [lia|].
      rewrite Nat2Z.id, Hdata. apply list_lookup_middle. reflexivity. }
    pose proof (getc_string_step p _ (V_String q) s b w Hcell Hq Hb) as Hstep.
    destruct (int_of_uchar b =? 0) eqn:Ez.
    { apply int_of_uchar_zero in Ez. contradiction. }
    simpl negb in Hstep. cbv iota in Hstep.
    set (w1 := set_conses _ w) in Hstep.
    change (read_line_loop K (Datatypes.S (length S) + f) (V_Cons p) (W ++ t0 :: T)
              (Z.of_nat (length W)) w)
      with ((let* c := stream_getc K (V_Cons p) in
             if c =? EOF then ret (W ++ t0 :: T, Z.of_nat (length W))
             else
               let* buf := deref (fun _ => zstore (W ++ t0 :: T) (Z.of_nat (length W))
                                             (uchar_of_int c)) in
               let len := int_wrap (Z.of_nat (length W) + 1) in
               if (len >=? 399) || (c =? 10) then ret (buf, len)
               else read_line_loop K (length S + f) (V_Cons p) buf len) w).
    mok Hstep.
    pose proof (int_of_uchar_range b) as Hr.
    destruct (Z.eqb_spec (int_of_uchar b) EOF) as [E|_]; [unfold EOF in E; lia|].
    rewrite uchar_of_int_of_uchar.
    erewrite bind_deref by apply zstore_middle.
    cbv zeta. rewrite int_wrap_small by lia.
    destruct (Z.geb_spec (Z.of_nat (length W) + 1) 399); [lia|].
    destruct (Z.eqb_spec (int_of_uchar b) 10) as [E|_].
    { apply int_of_uchar_newline in E. contradiction. }
    change (false || false) with false. cbv iota.
    assert (Hcell1 : VCONS p w1
                     = Some (V_Int (Z.of_nat (length (pre ++ [b]))), V_String q)).
    { unfold w1. rewrite (VCONS_set_conses p _ _ w Hcell).
      rewrite length_app. simpl. do 3 f_equal. lia. }
    assert (Hq1 : strings w1 !! q = Some s) by exact Hq.
    assert (Hrest := IH p q s (pre ++ [b]) slack (W ++ [b]) T f w1 Hcell1 Hq1).
    rewrite Hdata, <- app_assoc in Hrest. specialize (Hrest eq_refl Hok ltac:(lia)).
    rewrite !length_app in Hrest. simpl length in Hrest.
    specialize (Hrest ltac:(lia)).
    rewrite <- !app_assoc in Hrest. simpl app in Hrest.
    replace (Z.of_nat (length W) + 1) with (Z.of_nat (length W + 1)) by lia.
    rewrite Hrest. unfold w1. rewrite set_conses_twice.
    simpl drop.
    replace (length W + 1 + length S)%nat with (length W + Datatypes.S (length S))%nat
      by lia.
    replace (length pre + 1 + length S)%nat
      with (length pre + Datatypes.S (length S))%nat by lia.
    reflexivity.
Qed.

Lemma dupn_prefix (S T : list byte) (w : @World Host) :
  string_dupn (S ++ T) (Z.of_nat (length S)) w
  = Ok (V_String (length (strings w)))
       (set_strings
          (fun l => l ++ [mkString (S ++ [x00]) (Z.of_nat (length S))]) w).
Proof.
  unfold string_dupn.
  destruct (Z.leb_spec 0 (Z.of_nat (length S))); [|lia].
  destruct (Z.leb_spec (Z.of_nat (length S)) (Z.of_nat (length (S ++ T))));
    [|rewrite length_app in *; lia].
  simpl. rewrite Nat2Z.id, take_app_length. reflexivity.
Qed.

Lemma read_line_loop_S (f : nat) (stream : VALUE) (buf : list byte) (len : Z) :
  read_line_loop K (S f) stream buf len
  = (let* c := stream_getc K stream in
     if c =? EOF then ret (buf, len)
     else
       let* buf := deref (fun _ => zstore buf len (uchar_of_int c)) in
       let len := int_wrap (len + 1) in
       if (len >=? 399) || (c =? 10) then ret (buf, len)
       else read_line_loop K f stream buf len).
Proof. reflexivity. Qed.

Lemma bind_eq {A B : Type} (m m' : @M Host A) (k : A -> @M Host B)
    (w w' : @World Host) :
  m w = m' w' -> bind m k w = bind m' k w'.
Proof. unfold bind. intros ->. reflexivity. Qed.

(** X6.  [read-line] on a string stream whose next bytes are a run [S]
    of fewer than 399 bytes, none zero or a newline, followed by a
    newline: the result is a fresh string holding [S] and the newline,
    and the stream's offset ends behind the newline.  When the run is
    followed by a zero byte instead, the result is a fresh string
    holding [S] alone, or [nil] with nothing changed when [S] is
    empty, and the offset ends at the zero byte. *)
Theorem read_line_string_stream (p q : nat) (s : Lisp_String)
    (pre S slack : list byte) (e : byte) (w : World) :
  VCONS p w = Some (V_Int (Z.of_nat (length pre)), V_String q) ->
  strings w !! q = Some s ->
  str_data s = pre ++ S ++ e :: slack ->
  Forall (fun b => b <> x00 /\ b <> x0a) S ->
  (length S < 399)%nat ->
  (e = x0a ->
   cmd_read_line K L (V_Cons p) w
   = Ok (V_String (length (strings w)))
        (set_strings
           (fun l => l ++ [mkString ((S ++ [x0a]) ++ [x00])
                                    (Z.of_nat (length S) + 1)])
           (set_conses
              (fun l => <[p := (V_Int (Z.of_nat (length pre + length S) + 1),
                                V_String q)]> l) w)))
  /\ (e = x00 -> S <> [] ->
      cmd_read_line K L (V_Cons p) w
      = Ok (V_String (length (strings w)))
           (set_strings
              (fun l => l ++ [mkString (S ++ [x00]) (Z.of_nat (length S))])
              (set_conses
                 (fun l => <[p := (V_Int (Z.of_nat (length pre + length S)),
                                   V_String q)]> l) w)))
  /\ (e = x00 -> S = [] -> cmd_read_line K L (V_Cons p) w = Ok sym_nil w).
Proof.
  intros Hcell Hq Hdata Hok Hlen.
  destruct (399 - length S)%nat as [|f] eqn:Ef; [lia|].
  assert (Hrun := read_line_run S p q s pre (e :: slack) []
                    (replicate (length S) (uninit K)
                     ++ uninit K :: replicate (Datatypes.S f) (uninit K))
                    (Datatypes.S f) w Hcell Hq Hdata Hok).
  rewrite length_app, length_replicate in Hrun.
  specialize (Hrun ltac:(lia) ltac:(simpl; lia)).
  cbn [app length Nat.add] in Hrun. change (Z.of_nat 0) with 0 in Hrun.
  rewrite drop_app_length' in Hrun by (rewrite length_replicate; reflexivity).
  replace (length S + Datatypes.S f)%nat with 399%nat in Hrun by lia.
  replace (replicate (length S) (uninit K) ++ uninit K :: replicate (Datatypes.S f) (uninit K))
    with (replicate 400 (uninit K)) in Hrun.
  2:{ change (uninit K :: replicate (Datatypes.S f) (uninit K))
        with (replicate (Datatypes.S (Datatypes.S f)) (uninit K)).
      rewrite <- replicate_add. f_equal. lia. }
  set (w1 := set_conses _ w) in Hrun.
  assert (Hcell1 : VCONS p w1
                   = Some (V_Int (Z.of_nat (length pre + length S)), V_String q)).
  { unfold w1. apply (VCONS_set_conses p _ _ w Hcell). }
  assert (He : zlookup (str_data s) (Z.of_nat (length pre + length S)) = Some e).
  { unfold zlookup.
    destruct (Z.ltb_spec (Z.of_nat (length pre + length S)) 0); [lia|].
    rewrite Nat2Z.id, Hdata, app_assoc, <- length_app.
    apply list_lookup_middle. reflexivity. }
  pose proof (getc_string_step p _ (V_String q) s e w1 Hcell1 Hq He) as Hstep.
  unfold cmd_read_line. rewrite (bind_eq _ _ _ _ _ Hrun).
  rewrite read_line_loop_S.
  repeat split.
  - intros ->. simpl in Hstep. mok Hstep.
    change (int_of_uchar x0a) with 10.
    change (10 =? EOF) with false. cbv iota.
    change (uchar_of_int 10) with x0a.
    rewrite bind_assoc. erewrite bind_deref by apply zstore_middle.
    cbv zeta. rewrite int_wrap_small by lia.
    rewrite orb_true_r. cbv iota. rewrite bind_ret. cbn [fst snd].
    destruct (Z.eqb_spec (Z.of_nat (length S) + 1) 0); [lia|].
    replace (S ++ x0a :: replicate (Datatypes.S f) (uninit K))
      with ((S ++ [x0a]) ++ replicate (Datatypes.S f) (uninit K))
      by (rewrite <- app_assoc; reflexivity).
    replace (Z.of_nat (length S) + 1) with (Z.of_nat (length (S ++ [x0a])))
      by (rewrite length_app; simpl; lia).
    rewrite dupn_prefix. unfold w1. rewrite set_conses_twice. reflexivity.
  - intros -> Hne. simpl in Hstep. mok Hstep.
    change (EOF =? EOF) with true. cbv iota.
    rewrite bind_ret. cbn [fst snd].
    destruct (Z.eqb_spec (Z.of_nat (length S)) 0) as [E|_].
    { destruct S; [contradiction|simpl in E; lia]. }
    rewrite dupn_prefix. reflexivity.
  - intros -> ->. simpl in Hstep. mok Hstep.
    change (EOF =? EOF) with true. cbv iota. rewrite bind_ret. simpl.
    unfold ret. unfold w1. simpl length. rewrite Nat.add_0_r.
    rewrite set_conses_same by exact Hcell. reflexivity.
Qed.

(** X7.  [read-line] cuts a line at 399 bytes: on a string stream
    whose next 399 bytes are non-zero, the first 398 of them not a
    newline, the result is a fresh string of exactly these 399 bytes,
    whatever follows, and the stream's offset has advanced by 399, so
    the rest of the line is left for the next read. *)
Theorem read_line_cuts_at_399 (p q : nat) (s : Lisp_String)
    (pre S slack : list byte) (e : byte) (w : World) :
  VCONS p w = Some (V_Int (Z.of_nat (length pre)), V_String q) ->
  strings w !! q = Some s ->
  str_data s = pre ++ S ++ e :: slack ->
  Forall (fun b => b <> x00 /\ b <> x0a) S ->
  length S = 398%nat ->
  e <> x00 ->
  cmd_read_line K L (V_Cons p) w
  = Ok (V_String (length (strings w)))
       (set_strings
          (fun l => l ++ [mkString ((S ++ [e]) ++ [x00]) 399])
          (set_conses
             (fun l => <[p := (V_Int (Z.of_nat (length pre) + 399), V_String q)]> l)
             w)).
Proof.
  intros Hcell Hq Hdata Hok Hlen He0.
  assert (Hrun := read_line_run S p q s pre (e :: slack) []
                    (replicate (length S) (uninit K)
                     ++ uninit K :: replicate 1 (uninit K))
                    1%nat w Hcell Hq Hdata Hok).
  rewrite length_app, length_replicate in Hrun.
  specialize (Hrun ltac:(lia) ltac:(simpl; lia)).
  cbn [app length Nat.add] in Hrun. change (Z.of_nat 0) with 0 in Hrun.
  rewrite drop_app_length' in Hrun by (rewrite length_replicate; reflexivity).
  replace (length S + 1)%nat with 399%nat in Hrun by lia.
  replace (replicate (length S) (uninit K) ++ uninit K :: replicate 1 (uninit K))
    with (replicate 400 (uninit K)) in Hrun.
  2:{ change (uninit K :: replicate 1 (uninit K))
        with (replicate 2 (uninit K)).
      rewrite <- replicate_add. f_equal. lia. }
  set (w1 := set_conses _ w) in Hrun.
  assert (Hcell1 : VCONS p w1
                   = Some (V_Int (Z.of_nat (length pre + length S)), V_String q)).
  { unfold w1. apply (VCONS_set_conses p _ _ w Hcell). }
  assert (He : zlookup (str_data s) (Z.of_nat (length pre + length S)) = Some e).
  { unfold zlookup.
    destruct (Z.ltb_spec (Z.of_nat (length pre + length S)) 0); [lia|].
    rewrite Nat2Z.id, Hdata, app_assoc, <- length_app.
    apply list_lookup_middle. reflexivity. }
  pose proof (getc_string_step p _ (V_String q) s e w1 Hcell1 Hq He) as Hstep.
  destruct (int_of_uchar e =? 0) eqn:Ez.
  { apply int_of_uchar_zero in Ez. contradiction. }
  cbn [negb] in Hstep.
  unfold cmd_read_line. rewrite (bind_eq _ _ _ _ _ Hrun).
  rewrite read_line_loop_S. mok Hstep.
  pose proof (int_of_uchar_range e) as Hr.
  destruct (Z.eqb_spec (int_of_uchar e) EOF) as [E|_]; [unfold EOF in E; lia|].
  rewrite uchar_of_int_of_uchar.
  rewrite bind_assoc. erewrite bind_deref by apply zstore_middle.
  cbv zeta. rewrite int_wrap_small by lia.
  destruct (Z.geb_spec (Z.of_nat (length S) + 1) 399); [|lia].
  cbn [orb]. rewrite bind_ret. cbn [fst snd].
  destruct (Z.eqb_spec (Z.of_nat (length S) + 1) 0); [lia|].
  replace (S ++ e :: replicate 1 (uninit K))
    with ((S ++ [e]) ++ replicate 1 (uninit K))
    by (rewrite <- app_assoc; reflexivity).
  replace (Z.of_nat (length S) + 1) with (Z.of_nat (length (S ++ [e])))
    by (rewrite length_app; simpl; lia).
  rewrite dupn_prefix. unfold w1. rewrite set_conses_twice.
  rewrite length_app, Hlen. cbn [length Nat.add].
  replace (Z.of_nat (length pre + 398) + 1) with (Z.of_nat (length pre) + 399) by lia.
  reflexivity.
Qed.

(** *** streamp against the primitives *)

(** X8.  What [streamp] rejects cannot be read from: when
    [cmd_streamp] answers [nil] for a value, [stream_getc] on that
    value signals [invalid-stream] with the value as payload and
    returns [EOF]. *)
Theorem streamp_nil_getc_signals (v : VALUE) (w : World) :
  cmd_streamp v w = Ok sym_nil w ->
  stream_getc K v w
  = (do cmd_signal sym_invalid_stream [v] then ret EOF) w.
Proof.
  intros H.
  destruct v as [|n|q|bs|p|nm|f|b|m|c r|pr|o]; try discriminate H;
    try reflexivity.
  unfold cmd_streamp, bind, deref in H.
  destruct (VCONS p w) as [[car cdr]|] eqn:Hcell; [|discriminate].
  cbn [fst snd] in H.
  match type of H with
  | (if ?b then _ else _) _ = _ => destruct b eqn:E; [discriminate|]
  end.
  apply orb_false_iff in E as [E _].
  apply orb_false_iff in E as [E Eis].
  apply orb_false_iff in E as [El Ebp].
  assert (Ebp' : BUFFERP car && POSP cdr = false).
  { destruct (BUFFERP car); [|reflexivity].
    destruct (POSP cdr); [discriminate|reflexivity]. }
  unfold stream_getc, getc_switch. change (NILP (V_Cons p)) with false. cbv iota.
  mderef Hcell. cbn [fst snd]. rewrite Eis, Ebp', El. reflexivity.
Qed.

(** X9.  [streamp] and the writers disagree on [(Buffer . x)]: when
    [x] is neither a position nor [t], [cmd_streamp] answers [nil],
    yet [stream_putc] and [stream_puts] write through the cell all the
    same, at the end of the buffer's restriction. *)
Theorem streamp_rejects_writable_cell (p q : nat) (d : VALUE) (c : Z)
    (data : puts_data) (n : Z) (isv : bool) (w : World) :
  VCONS p w = Some (V_Buffer q, d) ->
  POSP d = false -> is_sym sym_t d = false ->
  cmd_streamp (V_Cons p) w = Ok sym_nil w
  /\ stream_putc K (V_Cons p) c w
     = (let* pos := call (cmd_restriction_end K (V_Buffer q)) in
        pos_putc K q (P_local pos) c) w
  /\ (n <> -1 ->
      stream_puts K (V_Cons p) data n isv w
      = (let* buf := deref (data_bytes data isv) in
         let* pos := call (cmd_restriction_end K (V_Buffer q)) in
         pos_puts K q (P_local pos) buf n) w).
Proof.
  intros Hcell Hp Ht. repeat split.
  - unfold cmd_streamp. mderef Hcell. cbn [fst snd].
    rewrite Hp, Ht. reflexivity.
  - unfold stream_putc, putc_switch. change (NILP (V_Cons p)) with false. cbv iota.
    mderef Hcell. cbn [fst snd]. simpl. rewrite Hp. reflexivity.
  - intros Hn. unfold stream_puts, puts_body. change (NILP (V_Cons p)) with false. cbv iota.
    destruct (Z.eqb_spec n (-1)); [contradiction|].
    destruct (data_bytes data isv w) as [buf|] eqn:Eb.
    + rewrite !(bind_deref _ _ _ _ Eb). rewrite bind_ret. unfold puts_switch.
      mderef Hcell. cbn [fst snd]. simpl. rewrite Hp.
      erewrite bind_deref by reflexivity. reflexivity.
    + rewrite !(bind_deref_none _ _ _ Eb). reflexivity.
Qed.

(** *** File objects *)


Lemma VFILE_lookup (p : nat) (lf : Lisp_File) (w : @World Host) :
  VFILE p w = Some lf <-> files w !! p = Some (Some lf).
Proof.
  unfold VFILE. destruct (files w !! p) as [[f|]|]; split; intros H;
    try discriminate; congruence.
Qed.

Lemma store_file_some (p : nat) (lf lf' : Lisp_File) (w : @World Host) :
  VFILE p w = Some lf ->
  store_file p lf' w = Some (set_files (fun l => <[p := Some lf']> l) w).
Proof.
  intros H. apply VFILE_lookup in H. unfold store_file. rewrite H. reflexivity.
Qed.

Lemma VFILE_set_files (p : nat) (lf lf' : Lisp_File) (w : @World Host) :
  VFILE p w = Some lf ->
  VFILE p (set_files (fun l => <[p := Some lf']> l) w) = Some lf'.
Proof.
  intros H. apply VFILE_lookup in H. apply VFILE_lookup. simpl.
  apply list_lookup_insert_eq. eapply lookup_lt_Some. exact H.
Qed.

Lemma set_files_twice (p : nat) (a b : option Lisp_File) (w : @World Host) :
  set_files (fun l => <[p := b]> l) (set_files (fun l => <[p := a]> l) w)
  = set_files (fun l => <[p := b]> l) w.
Proof. unfold set_files. simpl. rewrite list_insert_insert_eq. reflexivity. Qed.

Lemma set_files_same (p : nat) (lf : Lisp_File) (w : @World Host) :
  VFILE p w = Some lf -> set_files (fun l => <[p := Some lf]> l) w = w.
Proof.
  intros H. apply VFILE_lookup in H. unfold set_files.
  rewrite list_insert_id by exact H. apply world_eta.
Qed.

(** The file object after [close]. *)
Lemma close_stores (p : nat) (lf : Lisp_File) (w : @World Host) :
  VFILE p w = Some lf ->
  (let* lf1 := deref (VFILE p) in
   do update (store_file p (mkFile (lf_name lf1) None (lf_dont_close lf1)
                              (lf_marked lf1))) then
   let* lf2 := deref (VFILE p) in
   do update (store_file p (mkFile LISP_NULL (lf_file lf2) (lf_dont_close lf2)
                              (lf_marked lf2))) then
   ret (V_File p)) w
  = Ok (V_File p)
       (set_files
          (fun l => <[p := Some (mkFile LISP_NULL None (lf_dont_close lf)
                                   (lf_marked lf))]> l) w).
Proof.
  intros Hf. mderef Hf.
  mupdate ltac:(eapply store_file_some; exact Hf).
  erewrite bind_deref by (eapply VFILE_set_files; exact Hf).
  mupdate ltac:(eapply store_file_some; eapply VFILE_set_files; exact Hf).
  cbn [lf_name lf_file lf_dont_close lf_marked].
  rewrite set_files_twice. reflexivity.
Qed.

(** X11.  [close] unbinds: afterwards the object has no name and no
    handle, its flags kept.  [fclose] is called on the handle exactly
    when the object was bound and not flagged [LFF_DONT_CLOSE]; an
    unbound or don't-close object is unbound without any call to the C
    library.  Closing twice is closing once. *)
Theorem close_unbinds (p : nat) (lf : Lisp_File) (w : World) :
  fclose_frames K ->
  VFILE p w = Some lf ->
  let closed := mkFile LISP_NULL None (lf_dont_close lf) (lf_marked lf) in
  let w1 := if closable lf then c_fclose K (lf_file lf) w else w in
  let w2 := set_files (fun l => <[p := Some closed]> l) w1 in
  cmd_close K (V_File p) w = Ok (V_File p) w2
  /\ VFILE p w2 = Some closed
  /\ cmd_close K (V_File p) w2 = Ok (V_File p) w2.
Proof.
  intros Hfr Hf closed w1 w2.
  assert (Hf1 : VFILE p w1 = Some lf).
  { unfold w1. destruct (closable lf); [|exact Hf].
    apply VFILE_lookup. rewrite (proj1 (Hfr _ _)). apply VFILE_lookup. exact Hf. }
  assert (Hf2 : VFILE p w2 = Some closed).
  { unfold w2. eapply VFILE_set_files. exact Hf1. }
  repeat split.
  - unfold cmd_close. mderef Hf. unfold close_if_owned.
    fold (closable lf). unfold w2, w1.
    destruct (closable lf).
    + rewrite bind_modify. apply close_stores. exact Hf1.
    + rewrite bind_ret. apply close_stores. exact Hf.
  - exact Hf2.
  - unfold cmd_close. mderef Hf2. unfold close_if_owned.
    change (non_null (lf_name closed)) with false. cbn [andb].
    rewrite bind_ret. rewrite (close_stores p closed w2 Hf2).
    cbn [closed lf_dont_close lf_marked]. fold closed.
    rewrite set_files_same by exact Hf2. reflexivity.
Qed.

(** The allocation branch of [cmd_open] ends in [with_new_file]. *)
Lemma open_alloc (name modes file : VALUE) (w : World) :
  FILEP file = false ->
  cmd_open K name modes file w
  = (if STRINGP name && STRINGP modes then
       let* n := deref (VSTRING name) in
       let* m := deref (VSTRING modes) in
       let* fh := call (c_fopen K (str_data n) (str_data m)) in
       match fh with
       | Some h =>
           do update (store_file (length (files w))
                        (mkFile name (Some h) false false)) then
           do modify (c_set_cloexec K (Some h)) then
           ret (V_File (length (files w)))
       | None =>
           let* e := call (lookup_errno K) in
           cmd_signal sym_file_error [e; name]
       end
     else ret (V_File (length (files w)))) (with_new_file w).
Proof.
  intros Hfile.
  set (p := length (files w)).
  set (blank := mkFile LISP_NULL None false false).
  assert (Hlk : VFILE p (with_new_file w) = Some blank).
  { apply VFILE_lookup. unfold with_new_file, p. simpl.
    apply list_lookup_middle. reflexivity. }
  assert (Halloc : forall B (k : nat -> M B),
            bind (match file with
                  | V_File q =>
                      let* f := deref (VFILE q) in
                      do close_if_owned K f then ret q
                  | _ =>
                      let* w := get_world in
                      let p := length (files w) in
                      do modify (fun w =>
                           set_lfile_chain (p :: lfile_chain w)
                             (set_files (fun l => l ++ [Some blank]) w)) then
                      ret p
                  end) k w = k p (with_new_file w)).
  { intros B k. destruct file; try discriminate Hfile; reflexivity. }
  unfold cmd_open. fold blank. rewrite Halloc.
  mupdate ltac:(eapply store_file_some; exact Hlk).
  rewrite set_files_same by exact Hlk. reflexivity.
Qed.

(** X12.  [open] with two strings and no file object to reuse, when
    [fopen] succeeds: the result is a new file object bound to the
    name and the handle, with no flag set, linked at the head of the
    file chain; the older file objects are as they were, and
    [file-bound-p] and [file-binding] then answer [t] and the name. *)
Theorem open_binds (name modes file : VALUE) (n m : Lisp_String) (h : nat)
    (w w1 : World) :
  fopen_frames K ->
  FILEP file = false ->
  VSTRING name w = Some n -> VSTRING modes w = Some m ->
  c_fopen K (str_data n) (str_data m) (with_new_file w) = (Some h, w1) ->
  let p := length (files w) in
  exists w',
    cmd_open K name modes file w = Ok (V_File p) w'
    /\ VFILE p w' = Some (mkFile name (Some h) false false)
    /\ lfile_chain w' = p :: lfile_chain w
    /\ (forall q, (q < p)%nat -> files w' !! q = files w !! q)
    /\ cmd_file_bound_p (V_File p) w' = Ok sym_t w'
    /\ cmd_file_binding (V_File p) w' = Ok name w'.
Proof.
  intros [Hfo Hce] Hfile Hn Hm Hopen p.
  set (blank := mkFile LISP_NULL None false false).
  set (bound := mkFile name (Some h) false false).
  assert (Hsn : STRINGP name = true).
  { destruct name; simpl in Hn; try discriminate; reflexivity. }
  assert (Hsm : STRINGP modes = true).
  { destruct modes; simpl in Hm; try discriminate; reflexivity. }
  assert (Hnn : non_null name = true).
  { destruct name; try discriminate Hsn; reflexivity. }
  assert (Hn0 : VSTRING name (with_new_file w) = Some n).
  { destruct name; simpl in Hn |- *; try discriminate; exact Hn. }
  assert (Hm0 : VSTRING modes (with_new_file w) = Some m).
  { destruct modes; simpl in Hm |- *; try discriminate; exact Hm. }
  destruct (Hfo (str_data n) (str_data m) (with_new_file w)) as [Hf1 Hc1].
  rewrite Hopen in Hf1, Hc1. simpl in Hf1, Hc1.
  assert (Hlk1 : VFILE p w1 = Some blank).
  { apply VFILE_lookup. rewrite Hf1. unfold p.
    apply list_lookup_middle. reflexivity. }
  set (w2 := set_files (fun l => <[p := Some bound]> l) w1).
  set (w' := c_set_cloexec K (Some h) w2).
  destruct (Hce (Some h) w2) as [Hf2 Hc2]. fold w' in Hf2, Hc2.
  assert (Hlk' : VFILE p w' = Some bound).
  { apply VFILE_lookup. rewrite Hf2. apply VFILE_lookup.
    unfold w2. eapply VFILE_set_files. exact Hlk1. }
  exists w'. repeat split.
  - rewrite open_alloc by exact Hfile.
    rewrite Hsn, Hsm. change (true && true) with true. cbv iota.
    mderef Hn0. mderef Hm0.
    unfold bind at 1. unfold call at 1. rewrite Hopen.
    fold p. fold bound.
    mupdate ltac:(eapply store_file_some; exact Hlk1).
    rewrite bind_modify. reflexivity.
  - exact Hlk'.
  - rewrite Hc2. unfold w2. simpl. rewrite Hc1. reflexivity.
  - intros q Hq. rewrite Hf2. unfold w2. simpl.
    rewrite list_lookup_insert_ne by lia. rewrite Hf1.
    apply lookup_app_l. exact Hq.
  - unfold cmd_file_bound_p. mderef Hlk'. cbn [bound lf_name].
    rewrite Hnn. reflexivity.
  - unfold cmd_file_binding. mderef Hlk'. cbn [bound lf_name].
    rewrite Hnn. reflexivity.
Qed.

(** X13.  [open] without a name and a mode string makes an unbound
    object.  Given no file object, it is a new one at the head of the
    chain, and the C library is not entered.  Given a file object, that
    object is reused: it is closed as by [close], the chain is
    untouched, and all its flags are cleared, [LFF_DONT_CLOSE]
    included. *)
Theorem open_without_name (name modes file : VALUE) (w : World) :
  fclose_frames K ->
  STRINGP name && STRINGP modes = false ->
  (FILEP file = false ->
   cmd_open K name modes file w
   = Ok (V_File (length (files w))) (with_new_file w))
  /\ (forall p lf,
         file = V_File p -> VFILE p w = Some lf ->
         cmd_open K name modes file w
         = Ok (V_File p)
              (set_files
                 (fun l => <[p := Some (mkFile LISP_NULL None false false)]> l)
                 (if closable lf then c_fclose K (lf_file lf) w else w))).
Proof.
  intros Hfr Hstr. split.
  - intros Hfile. rewrite open_alloc by exact Hfile. rewrite Hstr. reflexivity.
  - intros p lf -> Hf. unfold cmd_open.
    rewrite bind_assoc. mderef Hf. unfold close_if_owned. fold (closable lf).
    assert (Hf1 : VFILE p (if closable lf then c_fclose K (lf_file lf) w else w)
                  = Some lf).
    { destruct (closable lf); [|exact Hf].
      apply VFILE_lookup. rewrite (proj1 (Hfr _ _)). apply VFILE_lookup. exact Hf. }
    destruct (closable lf).
    + rewrite bind_assoc, bind_modify, bind_ret.
      mupdate ltac:(eapply store_file_some; exact Hf1).
      rewrite Hstr. reflexivity.
    + rewrite bind_assoc, !bind_ret.
      mupdate ltac:(eapply store_file_some; exact Hf1).
      rewrite Hstr. reflexivity.
Qed.

(** *** The sweep *)

Lemma VFILE_set_files_ne (p q : nat) (x : option Lisp_File) (w : @World Host) :
  q <> p -> VFILE q (set_files (fun l => <[p := x]> l) w) = VFILE q w.
Proof.
  intros Hne. unfold VFILE. simpl.
  rewrite list_lookup_insert_ne by congruence. reflexivity.
Qed.

Lemma VFILE_files (q : nat) (w w' : @World Host) :
  files w' = files w -> VFILE q w' = VFILE q w.
Proof. unfold VFILE. intros ->. reflexivity. Qed.

Lemma close_if_owned_frames (f : Lisp_File) (w : World) :
  fclose_frames K ->
  exists w1, close_if_owned K f w = Ok tt w1
             /\ files w1 = files w /\ lfile_chain w1 = lfile_chain w.
Proof.
  intros Hfr. unfold close_if_owned.
  destruct (non_null (lf_name f) && negb (lf_dont_close f)).
  - eexists. split; [reflexivity|]. apply Hfr.
  - exists w. repeat split.
Qed.

Lemma free_file_some (p : nat) (lf : Lisp_File) (w : @World Host) :
  VFILE p w = Some lf ->
  free_file p w = Some (set_files (fun l => <[p := None]> l) w).
Proof.
  intros H. apply VFILE_lookup in H. unfold free_file. rewrite H. reflexivity.
Qed.

Lemma filter_marked_ext (l : list nat) (w w' : @World Host) :
  (forall q, q ∈ l -> VFILE q w' = VFILE q w) ->
  List.filter (is_marked w') l = List.filter (is_marked w) l.
Proof.
  intros H. apply List.filter_ext_in. intros q Hq.
  unfold is_marked. rewrite H by (apply list_elem_of_In; exact Hq). reflexivity.
Qed.

(** The loop of [file_sweep]: what it makes of the chain it walks. *)
Lemma sweep_chain_spec (l : list nat) :
  fclose_frames K ->
  forall w : World,
    NoDup l ->
    (forall p, p ∈ l -> exists f, VFILE p w = Some f) ->
    exists w',
      sweep_chain K l w = Ok tt w'
      /\ lfile_chain w' = rev (List.filter (is_marked w) l) ++ lfile_chain w
      /\ (forall p f, p ∈ l -> VFILE p w = Some f ->
                      files w' !! p
                      = Some (if lf_marked f then Some (unmark f) else None))
      /\ (forall q, q ∉ l -> files w' !! q = files w !! q).
Proof.
  intros Hfr. induction l as [|p l IH]; intros w Hnd Hlive.
  - exists w. repeat split.
    intros p f Hp. apply elem_of_nil in Hp. contradiction.
  - apply NoDup_cons in Hnd as [Hpl Hnd].
    destruct (Hlive p ltac:(left)) as [f Hf].
    assert (Hstep : exists w2,
               (do (if negb (lf_marked f) then
                      do close_if_owned K f then update (free_file p)
                    else
                      do update (store_file p (mkFile (lf_name f) (lf_file f)
                                                 (lf_dont_close f) false)) then
                      modify (fun w => set_lfile_chain (p :: lfile_chain w) w)) then
                sweep_chain K l) w = sweep_chain K l w2
               /\ lfile_chain w2
                  = (if lf_marked f then [p] else []) ++ lfile_chain w
               /\ files w2 !! p
                  = Some (if lf_marked f then Some (unmark f) else None)
               /\ (forall q, q <> p -> files w2 !! q = files w !! q)).
    { destruct (lf_marked f) eqn:Em; cbn [negb].
      - eexists. split.
        + rewrite bind_assoc.
          mupdate ltac:(eapply store_file_some; exact Hf).
          rewrite bind_modify. reflexivity.
        + repeat split.
          * simpl. apply VFILE_lookup in Hf.
            apply list_lookup_insert_eq. eapply lookup_lt_Some. exact Hf.
          * intros q Hq. simpl. apply list_lookup_insert_ne. congruence.
      - destruct (close_if_owned_frames f w Hfr) as (w1 & Hc & Hf1 & Hc1).
        eexists. split.
        + rewrite bind_assoc. mok Hc.
          mupdate ltac:(eapply free_file_some; rewrite (VFILE_files p w w1 Hf1);
                        exact Hf).
          reflexivity.
        + repeat split.
          * simpl. exact Hc1.
          * simpl. rewrite Hf1. apply VFILE_lookup in Hf.
            apply list_lookup_insert_eq. eapply lookup_lt_Some. exact Hf.
          * intros q Hq. simpl. rewrite Hf1.
            apply list_lookup_insert_ne. congruence. }
    destruct Hstep as (w2 & Hrun & Hch2 & Hp2 & Hoth2).
    assert (Hsame : forall q, q ∈ l -> VFILE q w2 = VFILE q w).
    { intros q Hq. unfold VFILE. rewrite Hoth2; [reflexivity|].
      intros ->. contradiction. }
    destruct (IH w2 Hnd) as (w' & Hsw & Hch & Hin & Hout).
    { intros q Hq. rewrite (Hsame q Hq). apply Hlive. right. exact Hq. }
    exists w'. repeat split.
    + cbn [sweep_chain]. mderef Hf. rewrite Hrun. exact Hsw.
    + rewrite Hch, Hch2, (filter_marked_ext l w w2 Hsame).
      cbn [List.filter]. unfold is_marked at 2. rewrite Hf.
      destruct (lf_marked f); cbn [rev app].
      * rewrite <- app_assoc. reflexivity.
      * reflexivity.
    + intros q g Hq Hg. apply elem_of_cons in Hq as [->|Hq].
      * rewrite Hf in Hg. injection Hg as <-.
        rewrite Hout by exact Hpl. exact Hp2.
      * apply Hin; [exact Hq|]. rewrite (Hsame q Hq). exact Hg.
    + intros q Hq. apply not_elem_of_cons in Hq as [Hqp Hq].
      rewrite Hout by exact Hq. apply Hoth2. exact Hqp.
Qed.

(** X14.  [file_sweep] on a chain of live file objects: every unmarked
    object is freed, every marked one survives with its mark cleared
    and is otherwise unchanged, the file objects off the chain are not
    touched, and the new chain holds the survivors in the reverse of
    their old order. *)
Theorem file_sweep_keeps_marked (w : World) :
  fclose_frames K ->
  chain_ok (lfile_chain w) w ->
  exists w',
    file_sweep K w = Ok tt w'
    /\ lfile_chain w' = rev (List.filter (is_marked w) (lfile_chain w))
    /\ (forall p f, In p (lfile_chain w) -> VFILE p w = Some f ->
                    files w' !! p
                    = Some (if lf_marked f then Some (unmark f) else None))
    /\ (forall q, ~ In q (lfile_chain w) -> files w' !! q = files w !! q).
Proof.
  intros Hfr [Hnd Hlive].
  destruct (sweep_chain_spec (lfile_chain w) Hfr (set_lfile_chain [] w) Hnd)
    as (w' & Hsw & Hch & Hin & Hout).
  { intros p Hp. apply (Hlive p). apply list_elem_of_In. exact Hp. }
  exists w'. repeat split.
  - unfold file_sweep. rewrite bind_get_world, bind_modify. exact Hsw.
  - rewrite Hch. simpl. rewrite app_nil_r. reflexivity.
  - intros p f Hp Hf. apply Hin; [apply list_elem_of_In; exact Hp|exact Hf].
  - intros q Hq. rewrite Hout; [reflexivity|].
    intros Hq'. apply Hq. apply list_elem_of_In. exact Hq'.
Qed.

(** The loop of [file_sweep] does not enter [fclose] when no unmarked
    object on the chain is closable. *)
Lemma sweep_chain_no_fclose (K' : @Collab Host) (l : list nat) :
  forall w : World,
    NoDup l ->
    (forall p f, p ∈ l -> VFILE p w = Some f ->
                 lf_marked f = false -> closable f = false) ->
    sweep_chain K l w = sweep_chain K' l w.
Proof.
  induction l as [|p l IH]; intros w Hnd Hsafe; [reflexivity|].
  apply NoDup_cons in Hnd as [Hpl Hnd].
  cbn [sweep_chain].
  destruct (VFILE p w) as [f|] eqn:Hf.
  2:{ rewrite !(bind_deref_none _ _ _ Hf). reflexivity. }
  rewrite !(bind_deref _ _ _ _ Hf).
  assert (Hnext : forall x (w2 : World),
             w2 = set_files (fun l => <[p := x]> l) w
             \/ w2 = set_lfile_chain (p :: lfile_chain w)
                       (set_files (fun l => <[p := x]> l) w) ->
             sweep_chain K l w2 = sweep_chain K' l w2).
  { intros x w2 Hw2. apply IH; [exact Hnd|].
    intros q g Hq Hg. apply (Hsafe q g); [right; exact Hq|].
    assert (Hqp : q <> p) by (intros ->; contradiction).
    destruct Hw2 as [-> | ->].
    - rewrite VFILE_set_files_ne in Hg by exact Hqp. exact Hg.
    - unfold VFILE in Hg |- *. simpl in Hg.
      rewrite list_lookup_insert_ne in Hg by congruence. exact Hg. }
  destruct (lf_marked f) eqn:Em; cbn [negb].
  - rewrite !bind_assoc.
    erewrite !bind_update by (eapply store_file_some; exact Hf).
    rewrite !bind_modify. eapply Hnext. right. reflexivity.
  - assert (Hc : closable f = false) by (apply (Hsafe p f); [left|exact Hf|exact Em]).
    unfold close_if_owned. unfold closable in Hc. rewrite Hc.
    rewrite !bind_assoc, !bind_ret.
    erewrite !bind_update by (eapply free_file_some; exact Hf).
    eapply Hnext. left. reflexivity.
Qed.

(** X15.  [file_sweep] never closes a handle it does not own: when
    every unmarked object on the chain is unbound or flagged
    [LFF_DONT_CLOSE], [fclose] is not entered, so the outcome of the
    sweep is the same whatever the C library is. *)
Theorem file_sweep_spares_foreign_handles (K' : @Collab Host) (w : World) :
  chain_ok (lfile_chain w) w ->
  (forall p f, In p (lfile_chain w) -> VFILE p w = Some f ->
               lf_marked f = false -> closable f = false) ->
  file_sweep K w = file_sweep K' w.
Proof.
  intros [Hnd _] Hsafe. unfold file_sweep.
  rewrite !bind_get_world, !bind_modify.
  apply sweep_chain_no_fclose; [exact Hnd|].
  intros p f Hp Hf Hm.
  apply (Hsafe p f); [apply list_elem_of_In; exact Hp|exact Hf|exact Hm].
Qed.

Lemma swept_handles_ext (l : list nat) (w w' : @World Host) :
  (forall q, q ∈ l -> VFILE q w' = VFILE q w) ->
  swept_handles w' l = swept_handles w l.
Proof.
  induction l as [|p l IH]; intros H; [reflexivity|].
  unfold swept_handles in *. cbn [flat_map].
  rewrite (H p) by left. f_equal. apply IH.
  intros q Hq. apply H. right. exact Hq.
Qed.

(** The loop of [file_sweep]: what it does to the host. *)
Lemma sweep_chain_host (g : option nat -> Host -> Host) (l : list nat) :
  fclose_acts K g ->
  forall w : World,
    NoDup l ->
    (forall p, p ∈ l -> exists f, VFILE p w = Some f) ->
    exists w',
      sweep_chain K l w = Ok tt w'
      /\ host w' = fold_left (fun hst h => g h hst) (swept_handles w l) (host w).
Proof.
  intros Hact. induction l as [|p l IH]; intros w Hnd Hlive.
  - exists w. split; reflexivity.
  - apply NoDup_cons in Hnd as [Hpl Hnd].
    destruct (Hlive p ltac:(left)) as [f Hf].
    assert (Hstep : exists w2,
               (do (if negb (lf_marked f) then
                      do close_if_owned K f then update (free_file p)
                    else
                      do update (store_file p (mkFile (lf_name f) (lf_file f)
                                                 (lf_dont_close f) false)) then
                      modify (fun w => set_lfile_chain (p :: lfile_chain w) w)) then
                sweep_chain K l) w = sweep_chain K l w2
               /\ host w2
                  = fold_left (fun hst h => g h hst)
                      (if negb (lf_marked f) && closable f then [lf_file f] else [])
                      (host w)
               /\ (forall q, q <> p -> files w2 !! q = files w !! q)).
    { destruct (lf_marked f) eqn:Em; cbn [negb andb].
      - eexists. split.
        + rewrite bind_assoc.
          mupdate ltac:(eapply store_file_some; exact Hf).
          rewrite bind_modify. reflexivity.
        + split; [reflexivity|].
          intros q Hq. simpl. apply list_lookup_insert_ne. congruence.
      - unfold close_if_owned. fold (closable f).
        destruct (closable f) eqn:Ec.
        + eexists. split.
          * rewrite !bind_assoc, bind_modify.
            mupdate ltac:(eapply free_file_some; rewrite Hact; exact Hf).
            reflexivity.
          * split; [rewrite Hact; reflexivity|].
            intros q Hq. rewrite Hact. simpl.
            apply list_lookup_insert_ne. congruence.
        + eexists. split.
          * rewrite !bind_assoc, bind_ret.
            mupdate ltac:(eapply free_file_some; exact Hf).
            reflexivity.
          * split; [reflexivity|].
            intros q Hq. simpl. apply list_lookup_insert_ne. congruence. }
    destruct Hstep as (w2 & Hrun & Hh2 & Hoth2).
    assert (Hsame : forall q, q ∈ l -> VFILE q w2 = VFILE q w).
    { intros q Hq. unfold VFILE. rewrite Hoth2; [reflexivity|].
      intros ->. contradiction. }
    destruct (IH w2 Hnd) as (w' & Hsw & Hh).
    { intros q Hq. rewrite (Hsame q Hq). apply Hlive. right. exact Hq. }
    exists w'. split.
    + cbn [sweep_chain]. mderef Hf. rewrite Hrun. exact Hsw.
    + rewrite Hh, Hh2. unfold swept_handles. cbn [flat_map]. rewrite Hf.
      rewrite fold_left_app. f_equal.
      apply (swept_handles_ext l w w2 Hsame).
Qed.

(** X22.  [file_sweep] closes each unreferenced file once: when
    [fclose] acts on the host alone, the host after the sweep is the
    one reached by entering [fclose] once for every object of the chain
    that is unmarked, bound and not flagged [LFF_DONT_CLOSE], in chain
    order, and for no other. *)
Theorem file_sweep_closes_each_once (g : option nat -> Host -> Host) (w : World) :
  fclose_acts K g ->
  chain_ok (lfile_chain w) w ->
  exists w',
    file_sweep K w = Ok tt w'
    /\ host w'
       = fold_left (fun hst h => g h hst) (swept_handles w (lfile_chain w)) (host w).
Proof.
  intros Hact [Hnd Hlive].
  destruct (sweep_chain_host g (lfile_chain w) Hact (set_lfile_chain [] w) Hnd)
    as (w' & Hsw & Hh).
  { intros p Hp. apply (Hlive p). apply list_elem_of_In. exact Hp. }
  exists w'. split.
  - unfold file_sweep. rewrite bind_get_world, bind_modify. exact Hsw.
  - exact Hh.
Qed.

(** The loop of [streams_kill]. *)
Lemma kill_chain_spec (l : list nat) :
  fclose_frames K ->
  forall w : World,
    NoDup l ->
    (forall p, p ∈ l -> exists f, VFILE p w = Some f) ->
    exists w',
      kill_chain K l w = Ok tt w'
      /\ lfile_chain w' = lfile_chain w
      /\ (forall p, p ∈ l -> files w' !! p = Some None)
      /\ (forall q, q ∉ l -> files w' !! q = files w !! q).
Proof.
  intros Hfr. induction l as [|p l IH]; intros w Hnd Hlive.
  - exists w. repeat split.
    intros p Hp. apply elem_of_nil in Hp. contradiction.
  - apply NoDup_cons in Hnd as [Hpl Hnd].
    destruct (Hlive p ltac:(left)) as [f Hf].
    destruct (close_if_owned_frames f w Hfr) as (w1 & Hc & Hf1 & Hc1).
    set (w2 := set_files (fun l => <[p := None]> l) w1).
    assert (Hp2 : files w2 !! p = Some None).
    { unfold w2. simpl. rewrite Hf1. apply VFILE_lookup in Hf.
      apply list_lookup_insert_eq. eapply lookup_lt_Some. exact Hf. }
    assert (Hoth2 : forall q, q <> p -> files w2 !! q = files w !! q).
    { intros q Hq. unfold w2. simpl. rewrite Hf1.
      apply list_lookup_insert_ne. congruence. }
    destruct (IH w2 Hnd) as (w' & Hk & Hch & Hin & Hout).
    { intros q Hq. unfold VFILE. rewrite Hoth2 by (intros ->; contradiction).
      apply Hlive. right. exact Hq. }
    exists w'. repeat split.
    + cbn [kill_chain]. mderef Hf. mok Hc.
      mupdate ltac:(eapply free_file_some; rewrite (VFILE_files p w w1 Hf1);
                    exact Hf).
      exact Hk.
    + rewrite Hch. exact Hc1.
    + intros q Hq. apply elem_of_cons in Hq as [->|Hq].
      * rewrite Hout by exact Hpl. exact Hp2.
      * apply Hin. exact Hq.
    + intros q Hq. apply not_elem_of_cons in Hq as [Hqp Hq].
      rewrite Hout by exact Hq. apply Hoth2. exact Hqp.
Qed.

(** X16.  [streams_kill] on a chain of live file objects frees every
    object on it, marked or not, leaves the file objects off the chain
    alone, and ends with the empty chain. *)
Theorem streams_kill_frees_all (w : World) :
  fclose_frames K ->
  chain_ok (lfile_chain w) w ->
  exists w',
    streams_kill K w = Ok tt w'
    /\ lfile_chain w' = []
    /\ (forall p, In p (lfile_chain w) -> files w' !! p = Some None)
    /\ (forall q, ~ In q (lfile_chain w) -> files w' !! q = files w !! q).
Proof.
  intros Hfr [Hnd Hlive].
  destruct (kill_chain_spec (lfile_chain w) Hfr w Hnd)
    as (w' & Hk & Hch & Hin & Hout).
  { intros p Hp. apply (Hlive p). apply list_elem_of_In. exact Hp. }
  exists (set_lfile_chain [] w'). repeat split.
  - unfold streams_kill. rewrite bind_get_world. mok Hk. reflexivity.
  - intros p Hp. simpl. apply Hin. apply list_elem_of_In. exact Hp.
  - intros q Hq. simpl. apply Hout.
    intros Hq'. apply Hq. apply list_elem_of_In. exact Hq'.
Qed.

(** *** The standard streams *)

(** X17.  [stdin-file] and its two siblings make their object once:
    called with the static variable still null, they allocate a file
    object at the head of the chain, bound to the fixed name and the C
    stream and flagged [LFF_DONT_CLOSE], and store it in the static
    variable; called with the variable set, they return its value and
    change nothing.  Closing that object unbinds it without entering
    [fclose]. *)
Theorem std_file_once (name : VALUE) (handle : option nat) (w : World) :
  (forall v (w0 : World), files (mark_static L v w0) = files w0
                          /\ lfile_chain (mark_static L v w0) = lfile_chain w0) ->
  let p := length (files w) in
  let pinned := mkFile name handle true false in
  let w' := mark_static L (V_File p)
              (set_files (fun l => <[p := Some pinned]> l) (with_new_file w)) in
  std_file K L name handle LISP_NULL w = Ok (V_File p, V_File p) w'
  /\ VFILE p w' = Some pinned
  /\ lfile_chain w' = p :: lfile_chain w
  /\ std_file K L name handle (V_File p) w' = Ok (V_File p, V_File p) w'
  /\ cmd_close K (V_File p) w'
     = Ok (V_File p)
          (set_files (fun l => <[p := Some (mkFile LISP_NULL None true false)]> l) w').
Proof.
  intros Hms p pinned w'.
  set (blank := mkFile LISP_NULL None false false).
  assert (Hlk : VFILE p (with_new_file w) = Some blank).
  { apply VFILE_lookup. unfold with_new_file, p. simpl.
    apply list_lookup_middle. reflexivity. }
  assert (Hpin : VFILE p w' = Some pinned).
  { unfold w'. apply VFILE_lookup. rewrite (proj1 (Hms _ _)). apply VFILE_lookup.
    eapply VFILE_set_files. exact Hlk. }
  repeat split.
  - unfold std_file. cbn [non_null].
    assert (Hopen : cmd_open K sym_nil sym_nil sym_nil w
                    = Ok (V_File p) (with_new_file w)).
    { rewrite open_alloc by reflexivity. reflexivity. }
    mok Hopen. erewrite bind_deref by reflexivity.
    mderef Hlk.
    mupdate ltac:(eapply store_file_some; exact Hlk).
    erewrite bind_deref by (eapply VFILE_set_files; exact Hlk).
    mupdate ltac:(eapply store_file_some; eapply VFILE_set_files; exact Hlk).
    rewrite set_files_twice.
    erewrite bind_deref by (eapply VFILE_set_files; exact Hlk).
    mupdate ltac:(eapply store_file_some; eapply VFILE_set_files; exact Hlk).
    rewrite set_files_twice.
    rewrite bind_modify. reflexivity.
  - exact Hpin.
  - unfold w'. rewrite (proj2 (Hms _ _)). reflexivity.
  - unfold cmd_close. mderef Hpin. unfold close_if_owned.
    cbn [pinned lf_dont_close negb]. rewrite andb_false_r. rewrite bind_ret.
    rewrite (close_stores p pinned w' Hpin). reflexivity.
Qed.

(** *** copy-stream within one buffer *)

Lemma copy_loop_S (f : nat) (source dest : VALUE) (buff : list byte)
    (ptr len : Z) :
  copy_loop K (S f) source dest buff ptr len
  = (let* c := stream_getc K source in
     if c =? EOF then copy_finish K dest buff ptr len
     else if ptr >=? COPY_BUFSIZ - 1 then
       let* buff := deref (fun _ => zstore buff ptr x00) in
       let* r := stream_puts K dest (Data_raw buff) ptr false in
       if r =? EOF then copy_finish K dest buff ptr len
       else
         let len := int_wrap (len + 1) in
         let* interrupted := call (test_int K) in
         if interrupted : bool then ret LISP_NULL
         else copy_loop K f source dest buff 0 len
     else
       let* buff := deref (fun _ => zstore buff ptr (uchar_of_int c)) in
       let len := int_wrap (len + 1) in
       let* interrupted := call (test_int K) in
       if interrupted : bool then ret LISP_NULL
       else copy_loop K f source dest buff (ptr + 1) len).
Proof. reflexivity. Qed.

Lemma bind_call {A B : Type} (f : @World Host -> A * @World Host)
    (k : A -> @M Host B) (w w' : @World Host) (a : A) :
  f w = (a, w') -> bind (call f) k w = k a w'.
Proof. unfold bind, call. intros ->. reflexivity. Qed.

(** The loop of [cmd_copy_stream] over a run of non-zero bytes of a
    string stream, while the buffer holds fewer than 511 bytes. *)
Lemma copy_loop_run (S : list byte) :
  never_interrupted K ->
  forall (p q : nat) (s : Lisp_String) (dest : VALUE)
         (pre slack W T : list byte) (f : nat) (len : Z) (w : World),
    VCONS p w = Some (V_Int (Z.of_nat (length pre)), V_String q) ->
    strings w !! q = Some s ->
    str_data s = pre ++ S ++ slack ->
    Forall (fun b => b <> x00) S ->
    (length S <= length T)%nat ->
    (length W + length S <= 511)%nat ->
    0 <= len -> len + Z.of_nat (length S) < 2 ^ 31 ->
    copy_loop K (length S + f) (V_Cons p) dest (W ++ T) (Z.of_nat (length W)) len w
    = copy_loop K f (V_Cons p) dest (W ++ S ++ drop (length S) T)
        (Z.of_nat (length W + length S)) (len + Z.of_nat (length S))
        (set_conses
           (fun l => <[p := (V_Int (Z.of_nat (length pre + length S)), V_String q)]> l)
           w).
Proof.
  intros Hni.
  induction S as [|b S IH];
    intros p q s dest pre slack W T f len w Hcell Hq Hdata Hok HT Hlen Hl0 Hl1.
  - simpl. rewrite !Nat.add_0_r, Z.add_0_r. rewrite set_conses_same by exact Hcell.
    reflexivity.
  - apply Forall_cons in Hok as [Hb0 Hok].
    destruct T as [|t0 T]; [simpl in HT; lia|].
    simpl length in *.
    assert (Hb : zlookup (str_data s) (Z.of_nat (length pre)) = Some b).
    { unfold zlookup.
      destruct (Z.ltb_spec (Z.of_nat (length pre)) 0); [lia|].
      rewrite Nat2Z.id, Hdata. apply list_lookup_middle. reflexivity. }
    pose proof (getc_string_step p _ (V_String q) s b w Hcell Hq Hb) as Hstep.
    destruct (int_of_uchar b =? 0) eqn:Ez.
    { apply int_of_uchar_zero in Ez. contradiction. }
    cbn [negb] in Hstep.
    set (w1 := set_conses _ w) in Hstep.
    change (Datatypes.S (length S) + f)%nat with (Datatypes.S (length S + f)).
    rewrite copy_loop_S. mok Hstep.
    pose proof (int_of_uchar_range b) as Hr.
    destruct (Z.eqb_spec (int_of_uchar b) EOF) as [E|_]; [unfold EOF in E; lia|].
    unfold COPY_BUFSIZ.
    destruct (Z.geb_spec (Z.of_nat (length W)) (512 - 1)); [lia|].
    rewrite uchar_of_int_of_uchar.
    erewrite bind_deref by apply zstore_middle.
    cbv zeta. rewrite int_wrap_small by lia.
    rewrite (bind_call _ _ _ _ _ (Hni w1)). cbv iota.
    assert (Hcell1 : VCONS p w1
                     = Some (V_Int (Z.of_nat (length (pre ++ [b]))), V_String q)).
    { unfold w1. rewrite (VCONS_set_conses p _ _ w Hcell).
      rewrite length_app. simpl. do 3 f_equal. lia. }
    assert (Hq1 : strings w1 !! q = Some s) by exact Hq.
    assert (Hrest := IH p q s dest (pre ++ [b]) slack (W ++ [b]) T f (len + 1) w1
                       Hcell1 Hq1).
    rewrite Hdata, <- app_assoc in Hrest. specialize (Hrest eq_refl Hok ltac:(lia)).
    rewrite !length_app in Hrest. simpl length in Hrest.
    specialize (Hrest ltac:(lia) ltac:(lia) ltac:(lia)).
    rewrite <- !app_assoc in Hrest. simpl app in Hrest.
    replace (Z.of_nat (length W) + 1) with (Z.of_nat (length W + 1)) by lia.
    rewrite Hrest. unfold w1. rewrite set_conses_twice.
    simpl drop.
    replace (length W + 1 + length S)%nat with (length W + Datatypes.S (length S))%nat
      by lia.
    replace (length pre + 1 + length S)%nat
      with (length pre + Datatypes.S (length S))%nat by lia.
    replace (len + 1 + Z.of_nat (length S))
      with (len + Z.of_nat (Datatypes.S (length S))) by lia.
    reflexivity.
Qed.

(** [copy-stream] from a string stream with at most 511 bytes left:
    one [stream_puts] of exactly these bytes, after all the reads. *)
Lemma copy_stream_one_flush (p q : nat) (s : Lisp_String) (dest : VALUE)
    (pre S slack : list byte) (fuel : nat) (w : World) :
  never_interrupted K ->
  VCONS p w = Some (V_Int (Z.of_nat (length pre)), V_String q) ->
  strings w !! q = Some s ->
  str_data s = pre ++ S ++ x00 :: slack ->
  Forall (fun b => b <> x00) S ->
  (0 < length S <= 511)%nat ->
  (length S < fuel)%nat ->
  cmd_copy_stream K fuel (V_Cons p) dest w
  = (do stream_puts K dest
          (Data_raw (S ++ x00 :: replicate (511 - length S) (uninit K)))
          (Z.of_nat (length S)) false then
     ret (MAKE_INT (Z.of_nat (length S))))
      (set_conses
         (fun l => <[p := (V_Int (Z.of_nat (length pre + length S)), V_String q)]> l)
         w).
Proof.
  intros Hni Hcell Hq Hdata Hok Hlen Hfuel.
  destruct (fuel - length S)%nat as [|f] eqn:Ef; [lia|].
  assert (Hrun := copy_loop_run S Hni p q s dest pre (x00 :: slack) []
                    (replicate (length S) (uninit K)
                     ++ uninit K :: replicate (511 - length S) (uninit K))
                    (Datatypes.S f) 0 w Hcell Hq Hdata Hok).
  rewrite length_app, length_replicate in Hrun.
  specialize (Hrun ltac:(lia) ltac:(simpl; lia) ltac:(lia) ltac:(lia)).
  cbn [app length Nat.add] in Hrun. change (Z.of_nat 0) with 0 in Hrun.
  rewrite drop_app_length' in Hrun by (rewrite length_replicate; reflexivity).
  replace (length S + Datatypes.S f)%nat with fuel in Hrun by lia.
  replace (replicate (length S) (uninit K)
           ++ uninit K :: replicate (511 - length S) (uninit K))
    with (replicate (Z.to_nat COPY_BUFSIZ) (uninit K)) in Hrun.
  2:{ change (uninit K :: replicate (511 - length S) (uninit K))
        with (replicate (Datatypes.S (511 - length S)) (uninit K)).
      rewrite <- replicate_add. f_equal. unfold COPY_BUFSIZ. lia. }
  set (w1 := set_conses _ w) in Hrun |- *.
  assert (Hcell1 : VCONS p w1
                   = Some (V_Int (Z.of_nat (length pre + length S)), V_String q)).
  { unfold w1. apply (VCONS_set_conses p _ _ w Hcell). }
  assert (He : zlookup (str_data s) (Z.of_nat (length pre + length S)) = Some x00).
  { unfold zlookup.
    destruct (Z.ltb_spec (Z.of_nat (length pre + length S)) 0); [lia|].
    rewrite Nat2Z.id, Hdata, app_assoc, <- length_app.
    apply list_lookup_middle. reflexivity. }
  pose proof (getc_string_step p _ (V_String q) s x00 w1 Hcell1 Hq He) as Hstep.
  simpl in Hstep.
  unfold cmd_copy_stream. rewrite Hrun. rewrite copy_loop_S. mok Hstep.
  change (EOF =? EOF) with true. cbv iota.
  unfold copy_finish.
  destruct (Z.eqb_spec (Z.of_nat (length S)) 0) as [E|_]; [lia|].
  rewrite Z.add_0_l.
  destruct (Z.eqb_spec (Z.of_nat (length S)) 0) as [E|_]; [lia|].
  cbn [negb]. rewrite !bind_assoc.
  erewrite bind_deref by apply zstore_middle.
  rewrite !bind_assoc. reflexivity.
Qed.

(** X18.  [copy-stream] copies a short source exactly: from a string
    stream with between 1 and 511 bytes left, into an output
    accumulator that holds [B], it returns the number of bytes left
    and the accumulator then holds [B] followed by these bytes. *)
Theorem copy_stream_short_exact (p q strm : nat) (s : Lisp_String)
    (pre S slack B : list byte) (cap : Z) (fuel : nat) (w : World) :
  never_interrupted K ->
  VCONS p w = Some (V_Int (Z.of_nat (length pre)), V_String q) ->
  strings w !! q = Some s ->
  str_data s = pre ++ S ++ x00 :: slack ->
  Forall (fun b => b <> x00) S ->
  (0 < length S <= 511)%nat ->
  (length S < fuel)%nat ->
  strm <> p ->
  accumulator_holds strm B cap w ->
  0 <= cap < 2 ^ 30 ->
  Z.of_nat (length B) + 512 < 2 ^ 31 - 1 ->
  exists w',
    cmd_copy_stream K fuel (V_Cons p) (V_Cons strm) w
    = Ok (MAKE_INT (Z.of_nat (length S))) w'
    /\ accumulator_holds strm (B ++ S)
         (puts_capacity cap (Z.of_nat (length B)) (Z.of_nat (length S))) w'.
Proof.
  intros Hni Hcell Hq Hdata Hok Hlen Hfuel Hne Hacc Hcap Hmax.
  rewrite (copy_stream_one_flush p q s (V_Cons strm) pre S slack fuel w
             Hni Hcell Hq Hdata Hok Hlen Hfuel).
  set (w1 := set_conses _ w).
  assert (Hacc1 : accumulator_holds strm B cap w1).
  { destruct Hacc as (qa & sa & Hc & Hrest). exists qa, sa.
    split; [|exact Hrest].
    unfold VCONS, w1. simpl. rewrite list_lookup_insert_ne by congruence.
    exact Hc. }
  destruct (puts_accumulator strm B cap
              (S ++ x00 :: replicate (511 - length S) (uninit K))
              (Z.of_nat (length S)) w1 Hacc1) as (w' & Hputs & Hacc' & _ & _).
  { rewrite length_app. simpl. lia. }
  { exact Hcap. }
  { lia. }
  exists w'. split.
  - mok Hputs. reflexivity.
  - rewrite Nat2Z.id, take_app_length in Hacc'. exact Hacc'.
Qed.

(** X19.  The two ways [copy-stream] ends without writing.  When the
    first read gives [EOF], it returns [nil] and the destination is not
    touched.  When an interrupt is pending after the first byte was
    read, it returns the null value: the byte is consumed from the
    source and never written. *)
Theorem copy_stream_writes_nothing (source dest : VALUE) (fuel : nat)
    (w w1 : World) :
  (stream_getc K source w = Ok EOF w1 ->
   cmd_copy_stream K (S fuel) source dest w = Ok sym_nil w1)
  /\ (forall c w2,
         stream_getc K source w = Ok c w1 -> c <> EOF ->
         test_int K w1 = (true, w2) ->
         cmd_copy_stream K (S fuel) source dest w = Ok LISP_NULL w2).
Proof.
  split.
  - intros Hg. unfold cmd_copy_stream. rewrite copy_loop_S. mok Hg.
    reflexivity.
  - intros c w2 Hg Hc Hint. unfold cmd_copy_stream. rewrite copy_loop_S. mok Hg.
    destruct (Z.eqb_spec c EOF) as [E|_]; [contradiction|].
    change (0 >=? COPY_BUFSIZ - 1) with false. cbv iota.
    erewrite bind_deref by reflexivity.
    cbv zeta. rewrite (bind_call _ _ _ _ _ Hint). reflexivity.
Qed.

(** *** Writing to a buffer *)

Lemma pos_put_read_only (tx : nat) (pos : pos_ptr) (c n : Z) (buf : list byte)
    (w : World) :
  read_only K tx w = true ->
  pos_putc K tx pos c w = Ok EOF w /\ pos_puts K tx pos buf n w = Ok EOF w.
Proof.
  intros Hro. unfold pos_putc, pos_puts.
  rewrite !bind_get_world, Hro. split; reflexivity.
Qed.

(** X20.  [write] to a read-only buffer neither signals nor reports 0:
    for a character and for a string alike it returns [EOF], that is
    -1, and the state is untouched. *)
Theorem write_read_only_buffer (p : nat) (c : Z) (data : VALUE)
    (s : Lisp_String) (w : World) :
  read_only K p w = true ->
  VSTRING data w = Some s -> str_len s <> -1 ->
  cmd_write K (V_Buffer p) (V_Int c) sym_nil w = Ok (MAKE_INT (-1)) w
  /\ cmd_write K (V_Buffer p) data sym_nil w = Ok (MAKE_INT (-1)) w.
Proof.
  intros Hro Hs Hlen.
  destruct (pos_put_read_only p (P_cursor p) c (str_len s) (str_data s) w Hro)
    as [Hc Hp].
  split.
  - unfold cmd_write, stream_putc, putc_switch.
    change (NILP (V_Buffer p)) with false. cbv iota.
    mok Hc. reflexivity.
  - assert (Hd : data_bytes (Data_value data) true w = Some (str_data s)).
    { unfold data_bytes. rewrite Hs. reflexivity. }
    assert (Hputs : stream_puts K (V_Buffer p) (Data_value data) (str_len s) true w
                    = Ok EOF w).
    { unfold stream_puts, puts_body. change (NILP (V_Buffer p)) with false.
      cbv iota. mderef Hd.
      destruct (Z.eqb_spec (str_len s) (-1)); [contradiction|].
      rewrite bind_ret. exact Hp. }
    unfold cmd_write.
    destruct data; try discriminate Hs; mderef Hs; change (INTP sym_nil) with false;
      cbv iota; mok Hputs; reflexivity.
Qed.

(** *** String input streams with a start offset *)

(** X21.  [make-string-input-stream] with an integer START makes the
    stream begin at that offset: the bytes before it are never read,
    whatever they are, and the reads yield the non-zero bytes from
    START up to the next zero byte, then [EOF].  START is not checked
    against the string: an offset outside the string's bytes is
    accepted, and the first read then leaves the string. *)
Theorem string_input_stream_start (pre S slack : list byte) (n : Z) (q : nat)
    (w : World) :
  strings w !! q = Some (mkString (pre ++ S ++ x00 :: slack) n) ->
  Forall (fun b => b <> x00) S ->
  (exists strm w1 w2,
     cmd_make_string_input_stream (V_String q) (V_Int (Z.of_nat (length pre))) w
     = Ok (V_Cons strm) w1
     /\ read_chars K (length S) (V_Cons strm) w1 = Ok (map int_of_uchar S) w2
     /\ stream_getc K (V_Cons strm) w2 = Ok EOF w2)
  /\ (forall k,
         k < 0 \/ Z.of_nat (length (pre ++ S ++ x00 :: slack)) <= k ->
         exists strm w1,
           cmd_make_string_input_stream (V_String q) (V_Int k) w
           = Ok (V_Cons strm) w1
           /\ stream_getc K (V_Cons strm) w1 = Undefined).
Proof.
  intros Hstr Hnz.
  set (strm := length (conses w)).
  split.
  - set (w1 := set_conses
                 (fun l => l ++ [(V_Int (Z.of_nat (length pre)), V_String q)]) w).
    assert (Hcell : VCONS strm w1
                    = Some (V_Int (Z.of_nat (length pre)), V_String q)).
    { unfold VCONS, w1, strm. simpl. apply list_lookup_middle. reflexivity. }
    destruct (read_chars_string S strm q _ pre (x00 :: slack) w1 Hcell Hstr eq_refl Hnz)
      as (w2 & Hrd & Hc2 & Hs2).
    exists strm, w1, w2. split; [reflexivity|]. split; [exact Hrd|].
    assert (Hstr2 : VSTRING (V_String q) w2
                    = Some (mkString (pre ++ S ++ x00 :: slack) n)).
    { simpl. rewrite Hs2. exact Hstr. }
    assert (Hlk : zlookup (pre ++ S ++ x00 :: slack)
                    (Z.of_nat (length pre + length S)) = Some x00).
    { unfold zlookup.
      destruct (Z.ltb_spec (Z.of_nat (length pre + length S)) 0) as [?|_]; [lia|].
      rewrite Nat2Z.id, app_assoc, <- length_app.
      apply list_lookup_middle. reflexivity. }
    rewrite (getc_string_step strm _ _ _ x00 w2 Hc2 Hstr2 Hlk). reflexivity.
  - intros k Hk.
    set (w1 := set_conses (fun l => l ++ [(V_Int k, V_String q)]) w).
    assert (Hcell : VCONS strm w1 = Some (V_Int k, V_String q)).
    { unfold VCONS, w1, strm. simpl. apply list_lookup_middle. reflexivity. }
    assert (Hstr1 : VSTRING (V_String q) w1
                    = Some (mkString (pre ++ S ++ x00 :: slack) n)) by exact Hstr.
    exists strm, w1. split; [reflexivity|].
    unfold stream_getc, getc_switch. change (NILP (V_Cons strm)) with false.
    cbv iota. mderef Hcell. cbn [fst snd INTP STRINGP andb].
    mderef Hstr1. cbn [str_data VINT].
    apply bind_deref_none. unfold zlookup.
    destruct (Z.ltb_spec k 0); [reflexivity|].
    apply lookup_ge_None. lia.
Qed.

(** *** format *)

Lemma strlen_run (text rest : list byte) :
  Forall (fun b => b <> x00) text ->
  strlen (text ++ x00 :: rest) = Some (Z.of_nat (length text)).
Proof.
  induction text as [|b text IH]; intros Hnz.
  - reflexivity.
  - apply Forall_cons in Hnz as [Hb Hnz]. cbn [app strlen].
    destruct (Byte.eqb b x00) eqn:E.
    + apply Byte.byte_dec_bl in E. contradiction.
    + rewrite (IH Hnz). f_equal. simpl length. lia.
Qed.

Lemma text_ok_spec (text : list byte) :
  text_ok text = true ->
  Z.of_nat (length text) < 40 /\ Forall (fun b => b <> x00) text.
Proof.
  unfold text_ok. intros H. apply andb_true_iff in H as [Hl Hf].
  split; [apply Z.ltb_lt; exact Hl|].
  apply Forall_forall. intros b Hb.
  rewrite forallb_forall in Hf. specialize (Hf b (proj1 (list_elem_of_In _ _) Hb)).
  intros ->. discriminate Hf.
Qed.

Lemma cap_ok_bound (cap len : Z) :
  cap_ok cap len -> 0 <= len < 2 ^ 28 -> 0 <= cap < 2 ^ 30.
Proof. unfold cap_ok. lia. Qed.

Lemma cap_ok_puts (cap len n : Z) :
  cap_ok cap len -> 0 <= len -> 0 <= n ->
  cap_ok (puts_capacity cap len n) (len + n).
Proof.
  unfold cap_ok, puts_capacity. intros H Hl Hn.
  destruct (Z.leb_spec cap (len + n + 1)); [|lia].
  destruct (Z.ltb_spec cap 16); lia.
Qed.

Lemma cap_ok_putc (cap len : Z) :
  cap_ok cap len -> 0 <= len ->
  cap_ok (if len + 1 >=? cap then (if cap <? 16 then 32 else cap * 2) else cap)
         (len + 1).
Proof.
  unfold cap_ok. intros H Hl.
  destruct (Z.geb_spec (len + 1) cap); [|lia].
  destruct (Z.ltb_spec cap 16); lia.
Qed.

Lemma lisp_list_ext (bound : nat) (w w' : @World Host) (v : VALUE)
    (vs : list VALUE) :
  (forall p, (p < bound)%nat -> VCONS p w' = VCONS p w) ->
  lisp_list w bound v vs -> lisp_list w' bound v vs.
Proof.
  intros Hsame Hl. induction Hl as [v Hn Hc|p v rest vs Hp Hcell _ IH].
  - apply ll_end; assumption.
  - eapply ll_cons; [exact Hp| |exact IH].
    rewrite (Hsame p Hp). exact Hcell.
Qed.

Lemma frame_lisp_list (strm : nat) (w w' : @World Host) (v : VALUE)
    (vs : list VALUE) :
  accumulator_frame strm w w' ->
  lisp_list w strm v vs -> lisp_list w' strm v vs.
Proof.
  intros (_ & _ & _ & _ & _ & _ & Hoth & _) Hl.
  apply (lisp_list_ext strm w w'); [|exact Hl].
  intros p Hp. apply Hoth. lia.
Qed.

(** The format string [qf] is not the accumulator's payload, and stays
    what it is across a write to the accumulator. *)
Lemma frame_format_string (strm qf : nat) (sf : Lisp_String) (w w' : @World Host) :
  accumulator_frame strm w w' ->
  strings w !! qf = Some sf ->
  (forall d, VCONS strm w <> Some (V_String qf, d)) ->
  strings w' !! qf = Some sf
  /\ (forall d, VCONS strm w' <> Some (V_String qf, d)).
Proof.
  intros (_ & _ & _ & _ & _ & _ & _ & Hkeep & Hpay) Hqf Hnp.
  split; [apply Hkeep; assumption|].
  intros d Hd. destruct (Hpay qf d Hd) as [[d0 Hd0]|Hfresh].
  - exact (Hnp d0 Hd0).
  - apply lookup_lt_Some in Hqf. lia.
Qed.

Lemma read_fmt_at (qf : nat) (sf : Lisp_String) (pre tail : list byte) (b : byte)
    (w : @World Host) :
  strings w !! qf = Some sf ->
  str_data sf = pre ++ b :: tail ->
  read_fmt (V_String qf) (Z.of_nat (length pre)) w = Ok (int_of_uchar b) w.
Proof.
  intros Hqf Hdata. unfold read_fmt.
  assert (Hs : VSTRING (V_String qf) w = Some sf) by exact Hqf.
  mderef Hs.
  assert (Hb : zlookup (str_data sf) (Z.of_nat (length pre)) = Some b).
  { unfold zlookup.
    destruct (Z.ltb_spec (Z.of_nat (length pre)) 0); [lia|].
    rewrite Nat2Z.id, Hdata. apply list_lookup_middle. reflexivity. }
  mderef Hb. reflexivity.
Qed.

(** Flushing the pending literal run of the format string into the
    accumulator. *)
Lemma puts_fmt_accumulator (strm qf : nat) (sf : Lisp_String)
    (pre pend tail B : list byte) (cap : Z) (w : World) :
  strings w !! qf = Some sf ->
  str_data sf = pre ++ pend ++ tail ->
  accumulator_holds strm B cap w ->
  0 <= cap < 2 ^ 30 ->
  Z.of_nat (length B) + Z.of_nat (length pend) + 1 < 2 ^ 31 - 1 ->
  exists w',
    puts_fmt K (V_Cons strm) (V_String qf) (Z.of_nat (length pre))
      (Z.of_nat (length pend)) w = Ok tt w'
    /\ accumulator_holds strm (B ++ pend)
         (puts_capacity cap (Z.of_nat (length B)) (Z.of_nat (length pend))) w'
    /\ accumulator_frame strm w w'.
Proof.
  intros Hqf Hdata Hacc Hcap Hmax.
  destruct (puts_accumulator strm B cap (pend ++ tail) (Z.of_nat (length pend)) w Hacc)
    as (w' & Hputs & Hacc' & _ & Hfr).
  { rewrite length_app. lia. }
  { exact Hcap. }
  { exact Hmax. }
  exists w'. split; [|split; [|exact Hfr]].
  - unfold puts_fmt.
    assert (Hs : VSTRING (V_String qf) w = Some sf) by exact Hqf.
    mderef Hs.
    assert (Htail : (if (0 <=? Z.of_nat (length pre))
                        && (Z.of_nat (length pre) <=? Z.of_nat (length (str_data sf)))
                     then Some (drop (Z.to_nat (Z.of_nat (length pre))) (str_data sf))
                     else None) = Some (pend ++ tail)).
    { destruct (Z.leb_spec 0 (Z.of_nat (length pre))); [|lia].
      destruct (Z.leb_spec (Z.of_nat (length pre)) (Z.of_nat (length (str_data sf))));
        [|rewrite Hdata, length_app in *; lia].
      simpl. rewrite Nat2Z.id, Hdata, drop_app_length. reflexivity. }
    erewrite bind_deref by exact Htail.
    mok Hputs. reflexivity.
  - rewrite Nat2Z.id, take_app_length in Hacc'. exact Hacc'.
Qed.

(** The string [format] hands back when it made the accumulator
    itself. *)
Lemma accumulator_result (strm : nat) (B : list byte) (cap : Z) (w : @World Host) :
  accumulator_holds strm B cap w ->
  exists r w',
    (let* cell := deref (VCONS strm) in
     let* s := deref (VSTRING (fst cell)) in
     if negb (str_len s =? VINT (snd cell))
     then cmd_copy_sequence (fst cell)
     else ret (fst cell)) w = Ok r w'
    /\ VSTRING r w' = Some (mkString (B ++ [x00]) (Z.of_nat (length B))).
Proof.
  intros (q & s & Hcell & Hs & Hlen & Htake & Hterm & Hsize).
  assert (HBl : (length B <= length (str_data s))%nat).
  { rewrite <- Htake at 1. rewrite length_take. lia. }
  assert (Hs' : VSTRING (V_String q) w = Some s) by exact Hs.
  mderef Hcell. cbn [fst snd]. mderef Hs'. rewrite Hlen. cbn [VINT].
  destruct (Z.eqb_spec (Z.of_nat (length B)) cap) as [Heq|Hne]; cbn [negb].
  - exists (V_String q), w. split; [reflexivity|].
    simpl. rewrite Hs. f_equal. destruct s as [d l]. simpl in *. f_equal; [|exact Hlen].
    apply exact_payload; [exact Htake | exact Hterm | lia].
  - unfold cmd_copy_sequence. mderef Hs'. rewrite Hlen.
    unfold string_dupn.
    destruct (Z.leb_spec 0 (Z.of_nat (length B))); [|lia].
    destruct (Z.leb_spec (Z.of_nat (length B)) (Z.of_nat (length (str_data s))));
      [|lia].
    cbn [andb]. eexists _, _. split; [reflexivity|].
    simpl. rewrite Nat2Z.id, Htake. apply list_lookup_middle. reflexivity.
Qed.

(** A numeric directive on the accumulator. *)
Lemma format_directive_num (strm : nat) (B : list byte) (cap c : Z) (val : VALUE)
    (w : World) :
  let text := c_sprintf L c (if INTP val then VINT val else value_word L val) in
  (c =? 100) || (c =? 120) || (c =? 111) || (c =? 99) = true ->
  text_ok text = true ->
  accumulator_holds strm B cap w ->
  0 <= cap < 2 ^ 30 ->
  Z.of_nat (length B) + 41 < 2 ^ 31 - 1 ->
  exists w',
    format_directive K L (V_Cons strm) c val w = Ok tt w'
    /\ accumulator_holds strm (B ++ text)
         (puts_capacity cap (Z.of_nat (length B)) (Z.of_nat (length text))) w'
    /\ accumulator_frame strm w w'.
Proof.
  intros text Hc Hok Hacc Hcap Hmax.
  destruct (text_ok_spec text Hok) as [Hlen Hnz].
  destruct (puts_switch_accumulator strm B cap (Data_raw (text ++ [x00]))
              (text ++ [x00]) (Z.of_nat (length text)) false w Hacc)
    as (w' & Hputs & Hacc' & Hfr).
  { rewrite length_app. simpl. lia. }
  { exact Hcap. }
  { lia. }
  exists w'. split; [|split; [|exact Hfr]].
  - unfold format_directive. rewrite Hc. fold text.
    destruct (Z.leb_spec 40 (Z.of_nat (length text))); [lia|].
    unfold stream_puts, puts_body. change (NILP (V_Cons strm)) with false.
    cbv iota. rewrite !bind_assoc.
    erewrite bind_deref by reflexivity.
    change (-1 =? -1) with true. cbv iota.
    rewrite ?bind_assoc. erewrite bind_deref by (apply strlen_run; exact Hnz).
    mok Hputs. reflexivity.
  - rewrite Nat2Z.id, take_app_length in Hacc'. exact Hacc'.
Qed.

Lemma format_loop_S (f : nat) (stream format : VALUE) (mk_str : bool)
    (fmt last_fmt : Z) (args : VALUE) :
  format_loop K L (S f) stream format mk_str fmt last_fmt args
  = (let* c := read_fmt format fmt in
     let fmt := fmt + 1 in
     if c =? 0 then format_finish K stream format mk_str fmt last_fmt
     else if c =? 37 then
       do (if negb (last_fmt =? fmt)
           then puts_fmt K stream format last_fmt (fmt - last_fmt - 1)
           else ret tt) then
       let* c := read_fmt format fmt in
       let fmt := fmt + 1 in
       if c =? 37 then
         do stream_putc K stream 37 then
         format_loop K L f stream format mk_str fmt fmt args
       else
         match args with
         | LISP_NULL => fun _ => Undefined
         | V_Cons a =>
             let* cell := deref (VCONS a) in
             do format_directive K L stream c (fst cell) then
             format_loop K L f stream format mk_str fmt fmt (snd cell)
         | _ => signal_missing_arg 0
         end
     else format_loop K L f stream format mk_str fmt last_fmt args).
Proof. reflexivity. Qed.

(** The loop of [cmd_format] writing into the accumulator it made: with
    the literal run [pend] pending and the bytes [R] still to scan, it
    ends with the string [B ++ pend ++ rest], where [rest] is what [R]
    renders to. *)
Lemma format_loop_renders (strm qf : nat) (sf : Lisp_String) :
  forall (fuel : nat) (R pre pend slack : list byte) (vs : list VALUE)
         (argsv : VALUE) (B rest : list byte) (cap : Z) (w : World),
    strings w !! qf = Some sf ->
    str_data sf = pre ++ pend ++ R ++ x00 :: slack ->
    (forall d, VCONS strm w <> Some (V_String qf, d)) ->
    accumulator_holds strm B cap w ->
    cap_ok cap (Z.of_nat (length B)) ->
    lisp_list w strm argsv vs ->
    Forall (fun b => b <> x00) R ->
    render L R vs = Some rest ->
    Z.of_nat (length B) + Z.of_nat (length pend) + Z.of_nat (length rest) < 2 ^ 28 ->
    (length R < fuel)%nat ->
    exists r w',
      format_loop K L fuel (V_Cons strm) (V_String qf) true
        (Z.of_nat (length pre + length pend)) (Z.of_nat (length pre)) argsv w
      = Ok r w'
      /\ VSTRING r w' = Some (mkString ((B ++ pend ++ rest) ++ [x00])
                              (Z.of_nat (length (B ++ pend ++ rest)))).
Proof.
  induction fuel as [|fuel IH];
    intros R pre pend slack vs argsv B rest cap w
           Hqf Hdata Hnp Hacc Hcok Hlist Hnz Hr Hsize Hfuel; [lia|].
  rewrite format_loop_S.
  assert (Hflush : forall tail,
             str_data sf = pre ++ pend ++ tail ->
             exists w1,
               puts_fmt K (V_Cons strm) (V_String qf) (Z.of_nat (length pre))
                 (Z.of_nat (length pend)) w = Ok tt w1
               /\ accumulator_holds strm (B ++ pend)
                    (puts_capacity cap (Z.of_nat (length B))
                       (Z.of_nat (length pend))) w1
               /\ accumulator_frame strm w w1).
  { intros tail Htail.
    apply (puts_fmt_accumulator strm qf sf pre pend tail B cap w Hqf Htail Hacc).
    - apply (cap_ok_bound cap _ Hcok). lia.
    - lia. }
  destruct R as [|b R].
  - (* the terminator *)
    injection Hr as <-.
    assert (Hrd : read_fmt (V_String qf) (Z.of_nat (length pre + length pend)) w
                  = Ok 0 w).
    { rewrite <- length_app.
      apply (read_fmt_at qf sf (pre ++ pend) slack x00 w Hqf).
      rewrite Hdata, <- app_assoc. reflexivity. }
    mok Hrd. change (0 =? 0) with true. cbv iota zeta.
    unfold format_finish. rewrite app_nil_r.
    replace (Z.of_nat (length pre + length pend) + 1 - 1)
      with (Z.of_nat (length pre) + Z.of_nat (length pend)) by lia.
    destruct pend as [|p0 pend].
    + rewrite Z.add_0_r, Z.eqb_refl. cbn [negb]. rewrite bind_ret.
      rewrite app_nil_r. apply accumulator_result with (cap := cap). exact Hacc.
    + destruct (Z.eqb_spec (Z.of_nat (length pre))
                  (Z.of_nat (length pre) + Z.of_nat (length (p0 :: pend))))
        as [E|_]; [simpl in E; lia|].
      cbn [negb].
      replace (Z.of_nat (length pre + length (p0 :: pend)) + 1
               - Z.of_nat (length pre) - 1)
        with (Z.of_nat (length (p0 :: pend))) by lia.
      destruct (Hflush (x00 :: slack) Hdata) as (w1 & Hputs & Hacc1 & _).
      mok Hputs. eapply accumulator_result. exact Hacc1.
  - apply Forall_cons in Hnz as [Hb Hnz].
    assert (Hrd : read_fmt (V_String qf) (Z.of_nat (length pre + length pend)) w
                  = Ok (int_of_uchar b) w).
    { rewrite <- length_app.
      apply (read_fmt_at qf sf (pre ++ pend) (R ++ x00 :: slack) b w Hqf).
      rewrite Hdata, <- app_assoc. reflexivity. }
    mok Hrd. cbv zeta.
    destruct (int_of_uchar b =? 0) eqn:Ez.
    { apply int_of_uchar_zero in Ez. contradiction. }
    cbn [render] in Hr.
    destruct (int_of_uchar b =? 37) eqn:Epc.
    + (* a directive *)
      destruct R as [|c2 R]; [discriminate Hr|].
      apply Forall_cons in Hnz as [Hc2 Hnz].
      destruct (Z.eqb_spec (Z.of_nat (length pre))
                  (Z.of_nat (length pre + length pend) + 1)) as [E|_]; [lia|].
      cbn [negb].
      replace (Z.of_nat (length pre + length pend) + 1 - Z.of_nat (length pre) - 1)
        with (Z.of_nat (length pend)) by lia.
      destruct (Hflush (b :: c2 :: R ++ x00 :: slack) Hdata)
        as (w1 & Hputs & Hacc1 & Hfr1).
      mok Hputs.
      destruct (frame_format_string strm qf sf w w1 Hfr1 Hqf Hnp) as [Hqf1 Hnp1].
      pose proof (frame_lisp_list strm w w1 argsv vs Hfr1 Hlist) as Hlist1.
      assert (Hcok1 : cap_ok (puts_capacity cap (Z.of_nat (length B))
                                (Z.of_nat (length pend)))
                             (Z.of_nat (length (B ++ pend)))).
      { rewrite length_app, Nat2Z.inj_add. apply cap_ok_puts; [exact Hcok|lia|lia]. }
      set (cap1 := puts_capacity cap (Z.of_nat (length B)) (Z.of_nat (length pend)))
        in *.
      assert (Hdata2 : str_data sf
                       = (pre ++ pend ++ [b; c2]) ++ [] ++ R ++ x00 :: slack).
      { rewrite Hdata, <- !app_assoc. reflexivity. }
      assert (Hrd2 : read_fmt (V_String qf)
                       (Z.of_nat (length pre + length pend) + 1) w1
                     = Ok (int_of_uchar c2) w1).
      { replace (Z.of_nat (length pre + length pend) + 1)
          with (Z.of_nat (length (pre ++ pend ++ [b])))
          by (rewrite !length_app; simpl; lia).
        apply (read_fmt_at qf sf (pre ++ pend ++ [b]) (R ++ x00 :: slack) c2 w1 Hqf1).
        rewrite Hdata, <- !app_assoc. reflexivity. }
      mok Hrd2. cbv zeta.
      assert (Hpos : Z.of_nat (length pre + length pend) + 1 + 1
                     = Z.of_nat (length (pre ++ pend ++ [b; c2]) + length (@nil byte))).
      { rewrite !length_app. simpl. lia. }
      assert (Hpos' : Z.of_nat (length pre + length pend) + 1 + 1
                      = Z.of_nat (length (pre ++ pend ++ [b; c2]))).
      { rewrite !length_app. simpl. lia. }
      assert (Hlen1 : Z.of_nat (length (B ++ pend))
                      = Z.of_nat (length B) + Z.of_nat (length pend)).
      { rewrite length_app. lia. }
      destruct (int_of_uchar c2 =? 37) eqn:Epc2.
      * (* %% *)
        destruct (render L R vs) as [rest'|] eqn:Er; [|discriminate Hr].
        injection Hr as <-. simpl length in Hsize.
        destruct (putc_accumulator_framed strm (B ++ pend) cap1 x25 w1 Hacc1)
          as (w2 & Hputc & Hacc2 & Hfr2).
        { unfold cap_ok in Hcok1.
          destruct Hacc1 as (q1 & s1 & _ & _ & _ & _ & Hz1 & Hs1).
          apply lookup_lt_Some in Hz1. lia. }
        { lia. }
        change (int_of_uchar x25) with 37 in Hputc. mok Hputc.
        destruct (frame_format_string strm qf sf w1 w2 Hfr2 Hqf1 Hnp1) as [Hqf2 Hnp2].
        pose proof (frame_lisp_list strm w1 w2 argsv vs Hfr2 Hlist1) as Hlist2.
        set (cap2 := if Z.of_nat (length (B ++ pend)) + 1 >=? cap1
                     then (if cap1 <? 16 then 32 else cap1 * 2) else cap1) in *.
        assert (Hcok2 : cap_ok cap2 (Z.of_nat (length ((B ++ pend) ++ [x25])))).
        { replace (Z.of_nat (length ((B ++ pend) ++ [x25])))
            with (Z.of_nat (length (B ++ pend)) + 1)
            by (rewrite (length_app (B ++ pend)); simpl; lia).
          apply cap_ok_putc; [exact Hcok1|lia]. }
        destruct (IH R (pre ++ pend ++ [b; c2]) [] slack vs argsv
                    ((B ++ pend) ++ [x25]) rest' cap2 w2
                    Hqf2 Hdata2 Hnp2 Hacc2 Hcok2 Hlist2 Hnz Er)
          as (r & w' & Hrun & Hres).
        { rewrite (length_app (B ++ pend)). simpl length. lia. }
        { simpl in Hfuel. lia. }
        rewrite <- Hpos in Hrun. rewrite <- Hpos' in Hrun.
        exists r, w'. split; [exact Hrun|].
        rewrite Hres. cbn [app]. rewrite <- !app_assoc. reflexivity.
      * (* a conversion *)
        destruct vs as [|v vs]; [discriminate Hr|].
        inversion Hlist1 as [|a v0 restv vs0 Ha Hcell Hrestl]; subst.
        mderef Hcell. cbn [fst snd].
        destruct ((int_of_uchar c2 =? 100) || (int_of_uchar c2 =? 120)
                  || (int_of_uchar c2 =? 111) || (int_of_uchar c2 =? 99)) eqn:Enum.
        -- set (text := c_sprintf L (int_of_uchar c2)
                          (if INTP v then VINT v else value_word L v)) in *.
           destruct (text_ok text) eqn:Eok; [|discriminate Hr].
           destruct (render L R vs) as [rest'|] eqn:Er; [|discriminate Hr].
           injection Hr as <-.
           destruct (text_ok_spec text Eok) as [Htl _].
           destruct (format_directive_num strm (B ++ pend) cap1 (int_of_uchar c2) v w1
                       Enum Eok Hacc1)
             as (w2 & Hdir & Hacc2 & Hfr2).
           { apply (cap_ok_bound cap1 _ Hcok1). lia. }
           { lia. }
           fold text in Hacc2. mok Hdir.
           destruct (frame_format_string strm qf sf w1 w2 Hfr2 Hqf1 Hnp1)
             as [Hqf2 Hnp2].
           pose proof (frame_lisp_list strm w1 w2 restv vs Hfr2 Hrestl) as Hlist2.
           assert (Hcok2 : cap_ok (puts_capacity cap1 (Z.of_nat (length (B ++ pend)))
                                     (Z.of_nat (length text)))
                                  (Z.of_nat (length ((B ++ pend) ++ text)))).
           { rewrite (length_app (B ++ pend)), Nat2Z.inj_add.
             apply cap_ok_puts; [exact Hcok1|lia|lia]. }
           rewrite length_app in Hsize.
           destruct (IH R (pre ++ pend ++ [b; c2]) [] slack vs restv
                       ((B ++ pend) ++ text) rest' _ w2
                       Hqf2 Hdata2 Hnp2 Hacc2 Hcok2 Hlist2 Hnz Er)
             as (r & w' & Hrun & Hres).
           { rewrite (length_app (B ++ pend)). simpl length. lia. }
           { simpl in Hfuel. lia. }
           rewrite <- Hpos in Hrun. rewrite <- Hpos' in Hrun.
           exists r, w'. split; [exact Hrun|].
           rewrite Hres. cbn [app]. rewrite <- !app_assoc. reflexivity.
        -- destruct ((int_of_uchar c2 =? 115) || (int_of_uchar c2 =? 83)) eqn:Eprt;
             [discriminate Hr|].
           apply orb_false_iff in Eprt as [Es ES].
           unfold format_directive. rewrite Enum, Es, ES. rewrite bind_ret.
           destruct (IH R (pre ++ pend ++ [b; c2]) [] slack vs restv
                       (B ++ pend) rest cap1 w1
                       Hqf1 Hdata2 Hnp1 Hacc1 Hcok1 Hrestl Hnz Hr)
             as (r & w' & Hrun & Hres).
           { simpl length. lia. }
           { simpl in Hfuel. lia. }
           rewrite <- Hpos in Hrun. rewrite <- Hpos' in Hrun.
           exists r, w'. split; [exact Hrun|].
           rewrite Hres. cbn [app]. rewrite <- !app_assoc. reflexivity.
    + (* a literal byte *)
      destruct (render L R vs) as [rest'|] eqn:Er; [|discriminate Hr].
      injection Hr as <-.
      assert (Hdata2 : str_data sf = pre ++ (pend ++ [b]) ++ R ++ x00 :: slack).
      { rewrite Hdata, <- !app_assoc. reflexivity. }
      destruct (IH R pre (pend ++ [b]) slack vs argsv B rest' cap w
                  Hqf Hdata2 Hnp Hacc Hcok Hlist Hnz Er)
        as (r & w' & Hrun & Hres).
      { rewrite length_app. simpl length in *. lia. }
      { simpl in Hfuel. lia. }
      replace (Z.of_nat (length pre + length (pend ++ [b])))
        with (Z.of_nat (length pre + length pend) + 1) in Hrun
        by (rewrite length_app; simpl; lia).
      exists r, w'. split; [exact Hrun|].
      rewrite Hres. rewrite <- !app_assoc. reflexivity.
Qed.

(** The state in which [format] starts to scan when its stream
    argument is [nil]: a fresh accumulator at the next free cell. *)
Lemma format_nil_stream (a0 a1 : nat) (format argsv : VALUE) (fuel : nat)
    (w : World) :
  VCONS a0 w = Some (sym_nil, V_Cons a1) ->
  VCONS a1 w = Some (format, argsv) ->
  STRINGP format = true ->
  let w1 := set_conses
              (fun l => l ++ [(V_String (length (strings w)), MAKE_INT 0)])
              (set_strings (fun l => l ++ [mkString [x00] 0]) w) in
  cmd_format K L fuel (V_Cons a0) w
  = format_loop K L fuel (V_Cons (length (conses w))) format true 0 0 argsv w1
  /\ accumulator_holds (length (conses w)) [] 0 w1
  /\ (forall p, (p < length (conses w))%nat -> VCONS p w1 = VCONS p w)
  /\ (forall q s, strings w !! q = Some s -> strings w1 !! q = Some s)
  /\ (forall q d, VCONS (length (conses w)) w1 = Some (V_String q, d) ->
                  q = length (strings w)).
Proof.
  intros Hc0 Hc1 Hstr w1.
  assert (Hsame : forall p, (p < length (conses w))%nat -> VCONS p w1 = VCONS p w).
  { intros p Hp. unfold VCONS, w1. simpl. apply lookup_app_l. exact Hp. }
  assert (Hc1' : VCONS a1 w1 = Some (format, argsv)).
  { rewrite Hsame; [exact Hc1|]. eapply lookup_lt_Some. exact Hc1. }
  split; [|split; [|split; [exact Hsame|split]]].
  - unfold cmd_format. mderef Hc0. cbn [fst snd]. change (NILP sym_nil) with true.
    cbv iota. rewrite !bind_assoc.
    unfold string_dupn at 1. cbn [Z.leb andb length]. unfold bind at 1.
    change (0 <=? 0) with true. change (0 <=? Z.of_nat 1) with true. cbn [andb].
    rewrite bind_assoc. unfold cmd_cons at 1. unfold bind at 1.
    rewrite bind_ret. cbn [fst snd].
    fold w1. mderef Hc1'. cbn [fst snd].
    destruct format; try discriminate Hstr; reflexivity.
  - exists (length (strings w)), (mkString [x00] 0). repeat split.
    + unfold VCONS, w1. simpl. apply list_lookup_middle. reflexivity.
    + unfold w1. simpl. apply list_lookup_middle. reflexivity.
  - intros q s Hq. unfold w1. simpl. rewrite lookup_app_l; [exact Hq|].
    eapply lookup_lt_Some. exact Hq.
  - intros q d Hd. unfold VCONS, w1 in Hd. simpl in Hd.
    rewrite list_lookup_middle in Hd by reflexivity. congruence.
Qed.

(** X23.  [format] with a [nil] stream returns what the format string
    renders to: for a heap format string whose bytes up to the
    terminator are [F] and an argument list of the values [vs], when
    [render F vs] is [out] the result is a string of length [|out|]
    whose allocated bytes are exactly [out] and the terminator, with no
    slack. *)
Theorem format_renders (a0 a1 qf : nat) (sf : Lisp_String) (F slack out : list byte)
    (argsv : VALUE) (vs : list VALUE) (fuel : nat) (w : World) :
  VCONS a0 w = Some (sym_nil, V_Cons a1) ->
  VCONS a1 w = Some (V_String qf, argsv) ->
  strings w !! qf = Some sf ->
  str_data sf = F ++ x00 :: slack ->
  Forall (fun b => b <> x00) F ->
  lisp_list w (length (conses w)) argsv vs ->
  render L F vs = Some out ->
  Z.of_nat (length out) < 2 ^ 28 ->
  (length F < fuel)%nat ->
  exists r w',
    cmd_format K L fuel (V_Cons a0) w = Ok r w'
    /\ VSTRING r w' = Some (mkString (out ++ [x00]) (Z.of_nat (length out))).
Proof.
  intros Hc0 Hc1 Hqf Hdata Hnz Hlist Hr Hsize Hfuel.
  destruct (format_nil_stream a0 a1 (V_String qf) argsv fuel w Hc0 Hc1 eq_refl)
    as (Hrun & Hacc & Hsame & Hstr & Hpay).
  set (w1 := set_conses _ _) in *.
  destruct (format_loop_renders (length (conses w)) qf sf fuel F [] [] slack vs argsv
              [] out 0 w1) as (r & w' & Hloop & Hres).
  - apply Hstr. exact Hqf.
  - exact Hdata.
  - intros d Hd. apply Hpay in Hd. apply lookup_lt_Some in Hqf. lia.
  - exact Hacc.
  - unfold cap_ok. simpl. lia.
  - apply (lisp_list_ext _ w w1); [exact Hsame|exact Hlist].
  - exact Hnz.
  - exact Hr.
  - simpl. lia.
  - exact Hfuel.
  - exists r, w'. split; [rewrite Hrun; exact Hloop|exact Hres].
Qed.

(** The loop of [cmd_format] over literal bytes: nothing is written,
    only [fmt] moves. *)
Lemma format_loop_scan (stream : VALUE) (mk : bool) (qf : nat) (sf : Lisp_String)
    (S : list byte) :
  forall (pre tail : list byte) (f : nat) (j : Z) (args : VALUE) (w : World),
    strings w !! qf = Some sf ->
    str_data sf = pre ++ S ++ tail ->
    Forall (fun b => b <> x00 /\ b <> x25) S ->
    format_loop K L (length S + f) stream (V_String qf) mk
      (Z.of_nat (length pre)) j args w
    = format_loop K L f stream (V_String qf) mk
        (Z.of_nat (length pre + length S)) j args w.
Proof.
  induction S as [|b S IH]; intros pre tail f j args w Hqf Hdata Hlit.
  - simpl. rewrite Nat.add_0_r. reflexivity.
  - apply Forall_cons in Hlit as [[Hb0 Hbp] Hlit].
    change (length (b :: S) + f)%nat with (Datatypes.S (length S + f)).
    rewrite format_loop_S.
    rewrite (bind_ok _ _ _ _ _ (read_fmt_at qf sf pre (S ++ tail) b w Hqf Hdata)).
    cbv zeta.
    destruct (int_of_uchar b =? 0) eqn:Ez.
    { apply int_of_uchar_zero in Ez. contradiction. }
    destruct (Z.eqb_spec (int_of_uchar b) 37) as [E|_].
    { exfalso. apply Hbp. rewrite <- (uchar_of_int_of_uchar b), E. reflexivity. }
    replace (Z.of_nat (length pre) + 1) with (Z.of_nat (length (pre ++ [b])))
      by (rewrite length_app; simpl; lia).
    rewrite (IH (pre ++ [b]) tail f j args w Hqf)
      by (rewrite ?Hdata, <- ?app_assoc; auto).
    rewrite length_app. simpl length.
    replace (length pre + 1 + length S)%nat
      with (length pre + Datatypes.S (length S))%nat by lia.
    reflexivity.
Qed.

(** X24.  [format] reports a missing argument only when it reaches the
    directive, after the text before it has been written: on an output
    accumulator that holds [B], with a format string that starts with
    the literal text [T] followed by [%] and a character other than
    [%], and no argument left, it signals [missing-arg] with position
    0 and returns the null value, and the accumulator then holds
    [B ++ T]. *)
Theorem format_missing_arg (a0 a1 strm qf : nat) (sf : Lisp_String)
    (T tail B : list byte) (c2 : byte) (cap : Z) (argsv : VALUE) (fuel : nat)
    (w : World) :
  VCONS a0 w = Some (V_Cons strm, V_Cons a1) ->
  VCONS a1 w = Some (V_String qf, argsv) ->
  a1 <> strm ->
  non_null argsv = true -> (forall p, argsv <> V_Cons p) ->
  strings w !! qf = Some sf ->
  str_data sf = T ++ x25 :: c2 :: tail ->
  Forall (fun b => b <> x00 /\ b <> x25) T ->
  c2 <> x25 ->
  (forall d, VCONS strm w <> Some (V_String qf, d)) ->
  accumulator_holds strm B cap w ->
  0 <= cap < 2 ^ 30 ->
  Z.of_nat (length B) + Z.of_nat (length T) + 1 < 2 ^ 31 - 1 ->
  (length T < fuel)%nat ->
  exists w',
    cmd_format K L fuel (V_Cons a0) w = Ok LISP_NULL w'
    /\ accumulator_holds strm (B ++ T)
         (puts_capacity cap (Z.of_nat (length B)) (Z.of_nat (length T))) w'
    /\ conditions w' = conditions w ++ [(sym_missing_arg, [MAKE_INT 0])].
Proof.
  intros Hc0 Hc1 Hne Hnn Hnc Hqf Hdata Hlit Hc2 Hnp Hacc Hcap Hmax Hfuel.
  destruct (fuel - length T)%nat as [|f] eqn:Ef; [lia|].
  replace fuel with (length T + Datatypes.S f)%nat by lia.
  destruct (puts_fmt_accumulator strm qf sf [] T (x25 :: c2 :: tail) B cap w
              Hqf Hdata Hacc Hcap Hmax) as (w1 & Hputs & Hacc1 & Hfr1).
  destruct (frame_format_string strm qf sf w w1 Hfr1 Hqf Hnp) as [Hqf1 _].
  exists (set_conditions (fun l => l ++ [(sym_missing_arg, [MAKE_INT 0])]) w1).
  split; [|split].
  - unfold cmd_format. mderef Hc0. cbn [fst snd]. change (NILP (V_Cons strm)) with false.
    cbv iota. rewrite bind_ret. cbn [fst snd]. mderef Hc1. cbn [fst snd].
    change (format_loop K L (length T + Datatypes.S f) (V_Cons strm) (V_String qf)
              false 0 0 argsv)
      with (format_loop K L (length T + Datatypes.S f) (V_Cons strm) (V_String qf)
              false (Z.of_nat (@length byte [])) 0 argsv).
    rewrite (format_loop_scan (V_Cons strm) false qf sf T [] (x25 :: c2 :: tail)
               (Datatypes.S f) 0 argsv w Hqf Hdata Hlit).
    rewrite format_loop_S. cbn [length Nat.add].
    rewrite (bind_ok _ _ _ _ _
               (read_fmt_at qf sf T (c2 :: tail) x25 w Hqf
                  ltac:(rewrite Hdata; reflexivity))).
    change (int_of_uchar x25) with 37. change (37 =? 0) with false.
    change (37 =? 37) with true. cbv iota zeta.
    destruct (Z.eqb_spec 0 (Z.of_nat (length T) + 1)) as [E|_]; [lia|].
    cbn [negb].
    replace (Z.of_nat (length T) + 1 - 0 - 1) with (Z.of_nat (length T)) by lia.
    change 0 with (Z.of_nat (@length byte [])) at 1.
    mok Hputs.
    assert (Hrd2 : read_fmt (V_String qf) (Z.of_nat (length T) + 1) w1
                   = Ok (int_of_uchar c2) w1).
    { replace (Z.of_nat (length T) + 1) with (Z.of_nat (length (T ++ [x25])))
        by (rewrite length_app; simpl; lia).
      apply (read_fmt_at qf sf (T ++ [x25]) tail c2 w1 Hqf1).
      rewrite Hdata, <- app_assoc. reflexivity. }
    mok Hrd2. cbv zeta.
    destruct (Z.eqb_spec (int_of_uchar c2) 37) as [E|_].
    { exfalso. apply Hc2. rewrite <- (uchar_of_int_of_uchar c2), E. reflexivity. }
    destruct argsv; try discriminate Hnn; try reflexivity.
    exfalso. eapply Hnc. reflexivity.
  - destruct Hacc1 as (q1 & s1 & Hcell1 & Hrest1). exists q1, s1.
    split; [exact Hcell1|exact Hrest1].
  - simpl. destruct Hfr1 as (_ & _ & Hcond & _). rewrite Hcond. reflexivity.
Qed.

(** X25.  A format string that ends in a lone [%] makes [format] read
    behind the string's terminator: with a [nil] stream, a format
    string allocated with exactly its bytes [T ++ "%"] and the
    terminator, and an argument left, the scan takes the terminator
    for the conversion character, consumes the argument, and goes on
    reading at the byte after the terminator, outside the string. *)
Theorem format_trailing_percent (a0 a1 a2 qf : nat) (sf : Lisp_String)
    (T : list byte) (v restv : VALUE) (fuel : nat) (w : World) :
  VCONS a0 w = Some (sym_nil, V_Cons a1) ->
  VCONS a1 w = Some (V_String qf, V_Cons a2) ->
  VCONS a2 w = Some (v, restv) ->
  strings w !! qf = Some sf ->
  str_data sf = T ++ [x25; x00] ->
  Forall (fun b => b <> x00 /\ b <> x25) T ->
  Z.of_nat (length T) < 2 ^ 28 ->
  (length T + 1 < fuel)%nat ->
  cmd_format K L fuel (V_Cons a0) w = Undefined.
Proof.
  intros Hc0 Hc1 Hc2 Hqf Hdata Hlit Hsize Hfuel.
  destruct (format_nil_stream a0 a1 (V_String qf) (V_Cons a2) fuel w Hc0 Hc1 eq_refl)
    as (Hrun & Hacc & Hsame & Hstr & Hpay).
  set (w1 := set_conses _ _) in *.
  set (strm := length (conses w)) in *.
  assert (Hqf1 : strings w1 !! qf = Some sf) by (apply Hstr; exact Hqf).
  assert (Hnp1 : forall d, VCONS strm w1 <> Some (V_String qf, d)).
  { intros d Hd. apply Hpay in Hd. apply lookup_lt_Some in Hqf. lia. }
  assert (Hdata' : str_data sf = [] ++ T ++ [x25; x00]) by exact Hdata.
  destruct (puts_fmt_accumulator strm qf sf [] T [x25; x00] [] 0 w1
              Hqf1 Hdata' Hacc ltac:(lia) ltac:(simpl; lia))
    as (w2 & Hputs & Hacc2 & Hfr2).
  destruct (frame_format_string strm qf sf w1 w2 Hfr2 Hqf1 Hnp1) as [Hqf2 _].
  assert (Hc2' : VCONS a2 w2 = Some (v, restv)).
  { destruct Hfr2 as (_ & _ & _ & _ & _ & _ & Hoth & _).
    assert (Ha2 : (a2 < strm)%nat) by (eapply lookup_lt_Some; exact Hc2).
    rewrite Hoth by lia. rewrite Hsame by exact Ha2. exact Hc2. }
  rewrite Hrun.
  destruct (fuel - length T)%nat as [|[|f]] eqn:Ef; [lia|lia|].
  replace fuel with (length T + Datatypes.S (Datatypes.S f))%nat by lia.
  change (format_loop K L (length T + Datatypes.S (Datatypes.S f)) (V_Cons strm)
            (V_String qf) true 0 0 (V_Cons a2))
    with (format_loop K L (length T + Datatypes.S (Datatypes.S f)) (V_Cons strm)
            (V_String qf) true (Z.of_nat (@length byte [])) 0 (V_Cons a2)).
  rewrite (format_loop_scan (V_Cons strm) true qf sf T [] [x25; x00]
             (Datatypes.S (Datatypes.S f)) 0 (V_Cons a2) w1 Hqf1 Hdata' Hlit).
  rewrite format_loop_S. cbn [length Nat.add].
  rewrite (bind_ok _ _ _ _ _
             (read_fmt_at qf sf T [x00] x25 w1 Hqf1 Hdata)).
  change (int_of_uchar x25) with 37. change (37 =? 0) with false.
  change (37 =? 37) with true. cbv iota zeta.
  destruct (Z.eqb_spec 0 (Z.of_nat (length T) + 1)) as [E|_]; [lia|].
  cbn [negb].
  replace (Z.of_nat (length T) + 1 - 0 - 1) with (Z.of_nat (length T)) by lia.
  change 0 with (Z.of_nat (@length byte [])) at 1.
  mok Hputs.
  assert (Hrd2 : read_fmt (V_String qf) (Z.of_nat (length T) + 1) w2 = Ok 0 w2).
  { replace (Z.of_nat (length T) + 1) with (Z.of_nat (length (T ++ [x25])))
      by (rewrite length_app; simpl; lia).
    apply (read_fmt_at qf sf (T ++ [x25]) [] x00 w2 Hqf2).
    rewrite Hdata, <- app_assoc. reflexivity. }
  mok Hrd2. cbv zeta. change (0 =? 37) with false. cbv iota.
  mderef Hc2'. cbn [fst snd].
  unfold format_directive. cbn [Z.eqb orb]. rewrite bind_ret.
  rewrite format_loop_S.
  unfold read_fmt.
  assert (Hs2 : VSTRING (V_String qf) w2 = Some sf) by exact Hqf2.
  mderef Hs2. rewrite ?bind_assoc. apply bind_deref_none.
  unfold zlookup.
  destruct (Z.ltb_spec (Z.of_nat (length T) + 1 + 1) 0); [reflexivity|].
  apply lookup_ge_None. rewrite Hdata, length_app. simpl. lia.
Qed.

(** *** Accumulators, continued *)

Lemma puts_all_accumulator (strm : nat) (chunks : list (list byte)) :
  forall (B : list byte) (cap : Z) (w : World),
    accumulator_holds strm B cap w ->
    cap_ok cap (Z.of_nat (length B)) ->
    Z.of_nat (length B) + Z.of_nat (length (concat chunks)) < 2 ^ 28 ->
    exists w' cap',
      puts_all K (V_Cons strm) chunks w = Ok tt w'
      /\ accumulator_holds strm (B ++ concat chunks) cap' w'.
Proof.
  induction chunks as [|c chunks IH]; intros B cap w Hacc Hcok Hsize.
  - exists w, cap. split; [reflexivity|]. simpl. rewrite app_nil_r. exact Hacc.
  - simpl concat in *. rewrite length_app in Hsize.
    destruct (puts_accumulator strm B cap c (Z.of_nat (length c)) w Hacc)
      as (w1 & Hputs & Hacc1 & _ & _).
    { lia. }
    { apply (cap_ok_bound cap _ Hcok). lia. }
    { lia. }
    rewrite Nat2Z.id, firstn_all in Hacc1.
    destruct (IH (B ++ c) _ w1 Hacc1) as (w' & cap' & Hrun & Hacc').
    { rewrite length_app, Nat2Z.inj_add. apply cap_ok_puts; [exact Hcok|lia|lia]. }
    { rewrite length_app. lia. }
    exists w', cap'. split.
    + cbn [puts_all]. mok Hputs. exact Hrun.
    + rewrite app_assoc. exact Hacc'.
Qed.

(** X26.  What goes into an output stream comes out of it: after
    [make-string-output-stream], any sequence of byte strings written
    with [stream_puts], [get-output-stream-string] returns a string
    whose bytes are exactly their concatenation and the terminator; a
    second [get-output-stream-string] returns the empty string. *)
Theorem output_stream_round_trip (chunks : list (list byte)) (w : World) :
  Z.of_nat (length (concat chunks)) < 2 ^ 28 ->
  exists strm w1 w2 r w3 r2 w4,
    cmd_make_string_output_stream w = Ok (V_Cons strm) w1
    /\ puts_all K (V_Cons strm) chunks w1 = Ok tt w2
    /\ cmd_get_output_stream_string (V_Cons strm) w2 = Ok r w3
    /\ VSTRING r w3 = Some (mkString (concat chunks ++ [x00])
                              (Z.of_nat (length (concat chunks))))
    /\ cmd_get_output_stream_string (V_Cons strm) w3 = Ok r2 w4
    /\ VSTRING r2 w4 = Some (mkString [x00] 0).
Proof.
  intros Hsize.
  set (q := length (strings w)).
  set (w0 := set_strings (fun l => l ++ [mkString [x00] 0]) w).
  set (strm := length (conses w0)).
  set (w1 := set_conses (fun l => l ++ [(V_String q, MAKE_INT 0)]) w0).
  assert (Hfresh : accumulator_holds strm [] 0 w1).
  { exists q, (mkString [x00] 0). repeat split.
    - unfold VCONS, w1, strm. simpl. apply list_lookup_middle. reflexivity.
    - unfold w1, w0, q. simpl. apply list_lookup_middle. reflexivity. }
  destruct (puts_all_accumulator strm chunks [] 0 w1 Hfresh)
    as (w2 & cap2 & Hputs & Hacc2).
  { unfold cap_ok. simpl. lia. }
  { simpl. lia. }
  simpl in Hacc2.
  destruct (get_output_accumulator strm _ cap2 w2 Hacc2)
    as (r & w3 & Hget & Hres & Hacc3).
  destruct (get_output_accumulator strm _ 0 w3 Hacc3)
    as (r2 & w4 & Hget2 & Hres2 & _).
  exists strm, w1, w2, r, w3, r2, w4.
  repeat split; assumption.
Qed.

(** [stream_puts] of a zero-terminated C string, its length left to
    [strlen]. *)
Lemma puts_cstring_accumulator (strm : nat) (B text rest : list byte) (cap : Z)
    (w : World) :
  Forall (fun b => b <> x00) text ->
  accumulator_holds strm B cap w ->
  0 <= cap < 2 ^ 30 ->
  Z.of_nat (length B) + Z.of_nat (length text) + 1 < 2 ^ 31 - 1 ->
  exists w',
    stream_puts K (V_Cons strm) (Data_raw (text ++ x00 :: rest)) (-1) false w
    = Ok (Z.of_nat (length text)) w'
    /\ accumulator_holds strm (B ++ text)
         (puts_capacity cap (Z.of_nat (length B)) (Z.of_nat (length text))) w'
    /\ accumulator_frame strm w w'.
Proof.
  intros Hnz Hacc Hcap Hmax.
  destruct (puts_switch_accumulator strm B cap (Data_raw (text ++ x00 :: rest))
              (text ++ x00 :: rest) (Z.of_nat (length text)) false w Hacc)
    as (w' & Hputs & Hacc' & Hfr).
  { rewrite length_app. simpl. lia. }
  { exact Hcap. }
  { lia. }
  exists w'. split; [|split; [|exact Hfr]].
  - unfold stream_puts, puts_body. change (NILP (V_Cons strm)) with false.
    cbv iota. erewrite bind_deref by reflexivity.
    change (-1 =? -1) with true. cbv iota.
    rewrite ?bind_assoc. erewrite bind_deref by (apply strlen_run; exact Hnz).
    exact Hputs.
  - rewrite Nat2Z.id, take_app_length in Hacc'. exact Hacc'.
Qed.

(** X27.  What [file_prin] prints on an output accumulator that holds
    [B]: for an unbound file object, [#<file *unbound*>]; for a bound
    one, [#<file ], the bytes of its name up to the first zero byte,
    and [>]. *)
Theorem file_prin_prints (strm f : nat) (lf : Lisp_File) (B : list byte) (cap : Z)
    (w : World) :
  accumulator_holds strm B cap w ->
  cap_ok cap (Z.of_nat (length B)) ->
  VFILE f w = Some lf ->
  (lf_name lf = LISP_NULL ->
   Z.of_nat (length B) < 2 ^ 27 ->
   exists w' cap',
     file_prin K (V_Cons strm) (V_File f) w = Ok tt w'
     /\ accumulator_holds strm
          (B ++ list_byte_of_string "#<file *unbound*>") cap' w')
  /\ (forall (N slack : list byte) (n : Z),
         VSTRING (lf_name lf) w = Some (mkString (N ++ x00 :: slack) n) ->
         Forall (fun b => b <> x00) N ->
         (forall q d, lf_name lf = V_String q ->
                      VCONS strm w <> Some (V_String q, d)) ->
         Z.of_nat (length B) + Z.of_nat (length N) < 2 ^ 27 ->
         exists w' cap',
           file_prin K (V_Cons strm) (V_File f) w = Ok tt w'
           /\ accumulator_holds strm
                (B ++ list_byte_of_string "#<file " ++ N ++ [x3e]) cap' w').
Proof.
  intros Hacc Hcok Hf.
  assert (Hhead : Z.of_nat (length B) < 2 ^ 27 ->
            exists w1,
              stream_puts K (V_Cons strm)
                (Data_raw (list_byte_of_string "#<file " ++ [x00])) (-1) false w
              = Ok 7 w1
              /\ accumulator_holds strm (B ++ list_byte_of_string "#<file ")
                   (puts_capacity cap (Z.of_nat (length B)) 7) w1
              /\ accumulator_frame strm w w1).
  { intros Hsize.
    apply (puts_cstring_accumulator strm B (list_byte_of_string "#<file ") [] cap w).
    - repeat constructor; discriminate.
    - exact Hacc.
    - apply (cap_ok_bound cap _ Hcok). lia.
    - simpl length. lia. }
  assert (Hcok1 : cap_ok (puts_capacity cap (Z.of_nat (length B)) 7)
                         (Z.of_nat (length (B ++ list_byte_of_string "#<file ")))).
  { rewrite length_app. simpl length. rewrite Nat2Z.inj_add.
    apply cap_ok_puts; [exact Hcok|lia|simpl; lia]. }
  assert (Hlen1 : Z.of_nat (length (B ++ list_byte_of_string "#<file "))
                  = Z.of_nat (length B) + 7).
  { rewrite length_app. simpl length. lia. }
  split.
  - intros Hn Hsize.
    destruct (Hhead Hsize) as (w1 & Hputs1 & Hacc1 & Hfr1).
    assert (Hf1 : VFILE f w1 = Some lf).
    { rewrite (VFILE_files f w w1); [exact Hf|]. apply Hfr1. }
    destruct (puts_cstring_accumulator strm _ (list_byte_of_string "*unbound*>") []
                _ w1 ltac:(repeat constructor; discriminate) Hacc1)
      as (w2 & Hputs2 & Hacc2 & _).
    { apply (cap_ok_bound _ _ Hcok1). lia. }
    { simpl length. lia. }
    eexists w2, _. split.
    + unfold file_prin. mok Hputs1. erewrite bind_deref by reflexivity.
      mderef Hf1. rewrite Hn. cbn [non_null]. mok Hputs2. reflexivity.
    + rewrite <- app_assoc in Hacc2. exact Hacc2.
  - intros N slack n Hname Hnz Hnp Hsize.
    destruct (Hhead ltac:(lia)) as (w1 & Hputs1 & Hacc1 & Hfr1).
    assert (Hf1 : VFILE f w1 = Some lf).
    { rewrite (VFILE_files f w w1); [exact Hf|]. apply Hfr1. }
    assert (Hnn : non_null (lf_name lf) = true).
    { destruct (lf_name lf); try discriminate Hname; reflexivity. }
    assert (Hname1 : VSTRING (lf_name lf) w1 = Some (mkString (N ++ x00 :: slack) n)).
    { destruct (lf_name lf) as [| | q | | | | | | | | |] eqn:En;
        try discriminate Hname; [|exact Hname].
      simpl in Hname |- *.
      destruct Hfr1 as (_ & _ & _ & _ & _ & _ & _ & Hkeep & _).
      apply Hkeep; [exact Hname|]. intros d. apply Hnp. reflexivity. }
    destruct (puts_cstring_accumulator strm _ N slack _ w1 Hnz Hacc1)
      as (w2 & Hputs2 & Hacc2 & _).
    { apply (cap_ok_bound _ _ Hcok1). lia. }
    { lia. }
    set (cap2 := puts_capacity _ _ (Z.of_nat (length N))) in *.
    assert (Hcok2 : cap_ok cap2
                      (Z.of_nat (length ((B ++ list_byte_of_string "#<file ") ++ N)))).
    { rewrite (length_app (B ++ _)), Nat2Z.inj_add.
      apply cap_ok_puts; [exact Hcok1|lia|lia]. }
    destruct (putc_accumulator_step strm _ cap2 x3e w2 Hacc2)
      as (w3 & Hputc & Hacc3).
    { destruct Hacc2 as (q2 & s2 & _ & _ & _ & _ & Hz2 & Hs2).
      apply lookup_lt_Some in Hz2.
      pose proof (cap_ok_bound _ _ Hcok2) as Hb.
      rewrite (length_app (B ++ _)) in *. lia. }
    { rewrite (length_app (B ++ _)). lia. }
    change (int_of_uchar x3e) with 62 in Hputc.
    eexists w3, _. split.
    + unfold file_prin. mok Hputs1. erewrite bind_deref by reflexivity.
      mderef Hf1. rewrite Hnn. mderef Hname1. cbn [str_data].
      mok Hputs2. mok Hputc. reflexivity.
    + rewrite <- !app_assoc in Hacc3. exact Hacc3.
Qed.

(** X28.  [file_cmp] answers 0, its verdict for equal, only for two
    bound file objects whose names [same_files] accepts.  An unbound
    file object differs from every value, from itself as well. *)
Theorem file_cmp_needs_bound_files (v1 v2 : VALUE) (w : World) :
  (forall w', file_cmp L v1 v2 w = Ok 0 w' ->
     exists p1 p2 f1 f2 n1 n2,
       v1 = V_File p1 /\ v2 = V_File p2
       /\ VFILE p1 w = Some f1 /\ VFILE p2 w = Some f2
       /\ VSTRING (lf_name f1) w = Some n1 /\ VSTRING (lf_name f2) w = Some n2
       /\ same_files L (str_data n1) (str_data n2) w = (true, w'))
  /\ (forall p f,
         v1 = V_File p -> VFILE p w = Some f -> lf_name f = LISP_NULL ->
         non_null v2 = true ->
         (forall p2, v2 = V_File p2 -> exists f2, VFILE p2 w = Some f2) ->
         file_cmp L v1 v2 w = Ok 1 w /\ file_cmp L v2 v1 w = Ok 1 w
         /\ file_cmp L v1 v1 w = Ok 1 w).
Proof.
  split.
  - intros w' H.
    destruct v1 as [|n1|q1|b1|c1|s1|p1|t1|m1|x1 y1|r1|o1];
      destruct v2 as [|n2|q2|b2|c2|s2|p2|t2|m2|x2 y2|r2|o2];
      try discriminate H;
      try (unfold file_cmp, same_type in H; cbn [VTYPE Nat.eqb] in H;
           match type of H with
           | (if ?b then _ else _) _ = _ => destruct b; discriminate H
           end).
    unfold file_cmp, same_type in H. cbn [VTYPE Nat.eqb] in H.
    unfold bind at 1 in H. unfold deref at 1 in H.
    destruct (VFILE p1 w) as [f1|] eqn:Hf1; [|discriminate H].
    destruct (non_null (lf_name f1)); [|discriminate H].
    unfold bind at 1 in H. unfold deref at 1 in H.
    destruct (VFILE p2 w) as [f2|] eqn:Hf2; [|discriminate H].
    destruct (non_null (lf_name f2)); [|discriminate H].
    unfold bind at 1 in H. unfold deref at 1 in H.
    destruct (VSTRING (lf_name f1) w) as [n1|] eqn:Hn1; [|discriminate H].
    unfold bind at 1 in H. unfold deref at 1 in H.
    destruct (VSTRING (lf_name f2) w) as [n2|] eqn:Hn2; [|discriminate H].
    unfold bind, call in H.
    destruct (same_files L (str_data n1) (str_data n2) w) as [same w1] eqn:Es.
    destruct same; [|discriminate H].
    injection H as <-.
    exists p1, p2, f1, f2, n1, n2. repeat split; assumption.
  - intros p f -> Hf Hn Hnn Hlive.
    assert (Hself : file_cmp L (V_File p) (V_File p) w = Ok 1 w).
    { unfold file_cmp, same_type. cbn [VTYPE Nat.eqb]. mderef Hf. rewrite Hn.
      reflexivity. }
    split; [|split; [|exact Hself]].
    + destruct v2; try discriminate Hnn; try reflexivity.
      unfold file_cmp, same_type. cbn [VTYPE Nat.eqb]. mderef Hf. rewrite Hn.
      reflexivity.
    + destruct v2 as [| | | | | |p2| | | | |]; try discriminate Hnn; try reflexivity.
      destruct (Hlive p2 eq_refl) as [f2 Hf2].
      unfold file_cmp, same_type. cbn [VTYPE Nat.eqb]. mderef Hf2.
      destruct (non_null (lf_name f2)); [|reflexivity].
      mderef Hf. rewrite Hn. reflexivity.
Qed.

(** *** Callable streams and the GC flag *)

Lemma callable_not_nil (stream : VALUE) (w : @World Host) :
  callable_stream stream w -> NILP stream = false.
Proof.
  destruct stream; simpl; try contradiction; [reflexivity|tauto].
Qed.

(** X29.  Every call of a stream function is bracketed: [stream_getc],
    [stream_ungetc] and [stream_putc] on a callable stream enter the
    Lisp function with [gc_inhibit] set, and afterwards store back the
    value the flag had before, whatever the function did to it. *)
Theorem callable_gc_bracket (stream : VALUE) (c : Z) (w : World) :
  callable_stream stream w ->
  (forall res w1,
      call_lisp0 K stream (set_gc_inhibit true w) = (res, w1) ->
      stream_getc K stream w
      = Ok (if non_null res && INTP res then VINT res else EOF)
           (set_gc_inhibit (gc_inhibit w) w1))
  /\ (forall res w1,
         call_lisp1 K stream (MAKE_INT c) (set_gc_inhibit true w) = (res, w1) ->
         stream_ungetc K stream c w
         = Ok (if non_null res && negb (NILP res) then 1 else 0)
              (set_gc_inhibit (gc_inhibit w) w1)
         /\ stream_putc K stream c w
            = Ok (if non_null res && negb (NILP res) then 1 else 0)
                 (set_gc_inhibit (gc_inhibit w) w1)).
Proof.
  intros Hc. pose proof (callable_not_nil stream w Hc) as Hnil.
  assert (Ht : is_sym sym_t stream = false).
  { destruct stream; simpl in Hc; try contradiction; [reflexivity|tauto]. }
  split.
  - intros res w1 Hcall.
    assert (Hcb : getc_callable K stream w
                  = Ok (if non_null res && INTP res then VINT res else EOF)
                       (set_gc_inhibit (gc_inhibit w) w1)).
    { unfold getc_callable, bind, get_world, modify, call, ret.
      rewrite Hcall. reflexivity. }
    unfold stream_getc. rewrite Hnil.
    destruct stream; simpl in Hc; try contradiction.
    + destruct Hc as [d Hd]. unfold getc_switch.
      mderef Hd. exact Hcb.
    + exact Hcb.
  - intros res w1 Hcall.
    assert (Hub : ungetc_callable K stream c w
                  = Ok (if non_null res && negb (NILP res) then 1 else 0)
                       (set_gc_inhibit (gc_inhibit w) w1)).
    { unfold ungetc_callable, bind, get_world, modify, call, ret.
      rewrite Hcall. reflexivity. }
    assert (Hpb : putc_symbol K stream c w
                  = Ok (if non_null res && negb (NILP res) then 1 else 0)
                       (set_gc_inhibit (gc_inhibit w) w1)).
    { unfold putc_symbol. rewrite Ht.
      unfold bind, get_world, modify, call, ret.
      rewrite Hcall. reflexivity. }
    unfold stream_ungetc, stream_putc. rewrite Hnil.
    destruct stream; simpl in Hc; try contradiction.
    + destruct Hc as [d Hd]. unfold ungetc_switch, putc_switch.
      split; mderef Hd; [exact Hub|exact Hpb].
    + split; [exact Hub|exact Hpb].
Qed.

(** *** unget-char without a read before it *)

(** X30.  [stream_ungetc] on a string input stream does not look at
    the offset: at offset 0 it succeeds and leaves the offset -1, and
    the next [stream_getc] then reads before the string's first
    byte. *)
Theorem unget_before_start (p q : nat) (s : Lisp_String) (c : Z) (w : World) :
  VCONS p w = Some (V_Int 0, V_String q) ->
  strings w !! q = Some s ->
  let w1 := set_conses (fun l => <[p := (V_Int (-1), V_String q)]> l) w in
  stream_ungetc K (V_Cons p) c w = Ok 1 w1
  /\ stream_getc K (V_Cons p) w1 = Undefined.
Proof.
  intros Hcell Hq w1. split.
  - unfold stream_ungetc, ungetc_switch. change (NILP (V_Cons p)) with false.
    cbv iota. mderef Hcell. cbn [fst snd INTP STRINGP andb].
    mupdate ltac:(eapply store_cons_some; exact Hcell). reflexivity.
  - assert (Hcell1 : VCONS p w1 = Some (V_Int (-1), V_String q)).
    { unfold w1. apply (VCONS_set_conses p _ _ w Hcell). }
    assert (Hs1 : VSTRING (V_String q) w1 = Some s) by exact Hq.
    unfold stream_getc, getc_switch. change (NILP (V_Cons p)) with false.
    cbv iota. mderef Hcell1. cbn [fst snd INTP STRINGP andb].
    mderef Hs1. apply bind_deref_none. reflexivity.
Qed.

End Properties.

(** * Concrete runs *)

Lemma getc_string_stream_witness :
  let w := demo_world [lisp_string [x61; x62]] [(V_Int 0, V_String 0)] [] []
             sym_nil sym_nil in
  stream_getc demo (V_Cons 0) w
  = Ok 97 (set_conses (fun l => <[0%nat := (V_Int 1, V_String 0)]> l) w).
Proof.
  intros w.
  refine (proj2 (proj2 (getc_string_stream demo 0 0 (V_String 0)
                          (lisp_string [x61; x62]) x61 w
                          eq_refl eq_refl eq_refl)) _).
  discriminate.
Defined.

Lemma string_input_stream_exhaustion_witness :
  let w := demo_world [lisp_string [x61; x62]] [] [] [] sym_nil sym_nil in
  exists strm w1 w2,
    cmd_make_string_input_stream (V_String 0) sym_nil w = Ok (V_Cons strm) w1
    /\ read_chars demo 2 (V_Cons strm) w1 = Ok [97; 98] w2
    /\ stream_getc demo (V_Cons strm) w2 = Ok EOF w2
    /\ VCONS strm w2 = Some (V_Int 2, V_String 0).
Proof.
  intros w.
  refine (string_input_stream_exhaustion demo [x61; x62] [] 0 w eq_refl _).
  repeat constructor; discriminate.
Defined.

(** C3, as stated, fails on a string holding a zero byte: of the string
    of length 2 whose bytes are 0 and 97, two reads yield [EOF] twice,
    and the offset stays 0. *)
Lemma string_input_stream_nul_counterexample :
  let w := demo_world [lisp_string [x00; x61]] [] [] [] sym_nil sym_nil in
  exists strm w1 w2,
    cmd_make_string_input_stream (V_String 0) sym_nil w = Ok (V_Cons strm) w1
    /\ read_chars demo 2 (V_Cons strm) w1 = Ok [EOF; EOF] w2
    /\ [EOF; EOF] <> map int_of_uchar [x00; x61]
    /\ VCONS strm w2 = Some (V_Int 0, V_String 0).
Proof.
  intros w. eexists _, _, _.
  split; [reflexivity|]. split; [reflexivity|]. split; [discriminate|reflexivity].
Qed.

Lemma unget_inverts_read_witness :
  let w := demo_world [] [(V_Buffer 0, V_Pos 2 0)] [demo_buffer] []
             sym_nil sym_nil in
  get_unget demo (V_Cons 0) w = Ok (10, 1) w
  /\ get_unget_get demo (V_Cons 0) w
     = Ok (10, 1, 10)
          (set_conses (fun l => <[0%nat := (V_Buffer 0, V_Pos 0 1)]> l) w).
Proof.
  intros w.
  refine (unget_inverts_read demo (V_Cons 0) 10 w _ _ eq_refl _).
  - eapply uv_buffer_pos; [reflexivity|reflexivity|reflexivity|]. simpl. lia.
  - discriminate.
Defined.

(** C5, as stated, fails.  On the string stream [(0 . "a")] the triple
    get, unget, get returns 97 both times but ends one byte further than
    it started.  And on [(Buffer . Pos)] with the position beyond the
    end of its line, get then unget already ends elsewhere: column 5 of
    the line "ab" comes back as column 2. *)
Lemma unget_triple_counterexample :
  (let w := demo_world [lisp_string [x61]] [(V_Int 0, V_String 0)] [] []
              sym_nil sym_nil in
   exists w3, get_unget_get demo (V_Cons 0) w = Ok (97, 1, 97) w3
              /\ VCONS 0 w3 = Some (V_Int 1, V_String 0)
              /\ w3 <> w)
  /\ (let w := demo_world [] [(V_Buffer 0, V_Pos 5 0)] [demo_buffer] []
                 sym_nil sym_nil in
      exists w2, get_unget demo (V_Cons 0) w = Ok (10, 1) w2
                 /\ VCONS 0 w2 = Some (V_Buffer 0, V_Pos 2 0)
                 /\ w2 <> w).
Proof.
  split; intros w; eexists; (split; [reflexivity|]); (split; [reflexivity|]);
    intros H; apply (f_equal conses) in H; discriminate H.
Qed.

Lemma string_output_stream_roundtrip_witness :
  let w := demo_world [] [] [] [] sym_nil sym_nil in
  exists strm w1 w2 cap,
    cmd_make_string_output_stream w = Ok (V_Cons strm) w1
    /\ accumulator_holds strm [] 0 w1
    /\ put_chars demo (V_Cons strm) (payload 40) w1 = Ok 40 w2
    /\ accumulator_holds strm (payload 40) cap w2
    /\ (payload 40 = [] -> cap = 0)
    /\ (payload 40 <> [] ->
        is_cap_form cap /\ 40 < cap
        /\ forall v, is_cap_form v -> 40 < v -> cap <= v).
Proof.
  intros w.
  refine (string_output_stream_roundtrip demo (payload 40) w _).
  vm_compute. reflexivity.
Defined.

(** C2, as stated, fails for the empty sequence: nothing is written, the
    recorded capacity stays 0, and 0 is neither above [|B|] = 0 nor of
    the form [max(32, 2^k)]. *)
Lemma empty_accumulator_capacity_counterexample :
  let w := demo_world [] [] [] [] sym_nil sym_nil in
  exists strm w1 w2,
    cmd_make_string_output_stream w = Ok (V_Cons strm) w1
    /\ put_chars demo (V_Cons strm) [] w1 = Ok 0 w2
    /\ VCONS strm w2 = Some (V_String 0, V_Int 0)
    /\ ~ is_cap_form 0
    /\ ~ (Z.of_nat (@length byte []) < 0).
Proof.
  intros w. eexists _, _, _.
  split; [reflexivity|]. split; [reflexivity|]. split; [reflexivity|].
  split.
  - intros [k Hk]. lia.
  - simpl. lia.
Qed.

Lemma ungetc_never_signals_witness :
  let w := demo_world [] [(V_Int 1, V_Int 2)] [] [] sym_nil sym_nil in
  conditions w = []
  /\ stream_ungetc quiet_demo (V_Int 7) 65 w = Ok 0 w
  /\ stream_getc quiet_demo (V_Int 7) w
     = Ok EOF (set_conditions (fun l => l ++ [(sym_invalid_stream, [V_Int 7])]) w)
  /\ stream_putc quiet_demo (V_Int 7) 65 w
     = Ok 0 (set_conditions (fun l => l ++ [(sym_invalid_stream, [V_Int 7])]) w)
  /\ stream_ungetc quiet_demo (V_Cons 0) 65 w
     = Ok 0 (set_host (mkDemoHost sym_nil sym_nil [(V_Cons 0, [V_Int 65])]) w).
Proof.
  intros w.
  pose proof (ungetc_never_signals quiet_demo 65 w) as (Hquiet & Hnone & _ & Hcons).
  assert (Hq : quiet_collaborators quiet_demo).
  { repeat split.
    - intros s e w0. simpl. unfold demo_symbol_value.
      destruct (non_null _); reflexivity.
    - intros f a w0. simpl. unfold demo_apply.
      destruct (is_sym _ f); reflexivity. }
  split; [|split].
  - exact (Hquiet Hq (V_Int 7) 0 w eq_refl).
  - exact (proj1 (Hnone (V_Int 7) eq_refl)).
  - split; [exact (proj1 (proj2 (Hnone (V_Int 7) eq_refl)))|].
    split; [exact (proj2 (proj2 (Hnone (V_Int 7) eq_refl)))|].
    exact (Hcons 0%nat (V_Int 1, V_Int 2) LISP_NULL _ eq_refl eq_refl eq_refl eq_refl).
Defined.

(** C9, as stated, fails for a non-stream value that is a cons: on
    [(1 . 2)] [unget-char] does not simply fail, it applies the cons as
    a function.  In a host where applying a non-function signals, the
    call is made (it is in the host's log) and a condition is
    signalled. *)
Lemma ungetc_cons_counterexample :
  let w := demo_world [] [(V_Int 1, V_Int 2)] [] [] sym_nil sym_nil in
  exists w',
    stream_ungetc demo (V_Cons 0) 65 w = Ok 0 w'
    /\ dh_calls (host w') = [(V_Cons 0, [V_Int 65])]
    /\ conditions w = []
    /\ conditions w' = [(V_Symbol "invalid-function", [V_Cons 0])].
Proof.
  intros w. eexists.
  split; [cbv; reflexivity|]. repeat split; reflexivity.
Qed.

Lemma default_stream_fallback_witness :
  (let w := demo_world [] [] [] [] LISP_NULL LISP_NULL in
   stream_putc demo sym_nil 65 w
   = Ok 0 (demo_signal true (V_Symbol "void-value") [sym_standard_output] w)
   /\ stream_getc demo sym_nil w
      = Ok EOF (demo_signal true (V_Symbol "void-value") [sym_standard_input] w))
  /\ (let w := demo_world [] [] [] [] sym_nil (V_Symbol "sink") in
      stream_putc demo sym_nil 65 w = stream_putc demo (V_Symbol "sink") 65 w)
  /\ (let w := demo_world [] [] [] [] sym_nil sym_nil in
      exists res w1,
        call_lisp1 demo sym_nil (MAKE_INT 65) (set_gc_inhibit true w) = (res, w1)
        /\ stream_putc demo sym_nil 65 w
           = Ok (if non_null res && negb (NILP res) then 1 else 0)
                (set_gc_inhibit (gc_inhibit w) w1)).
Proof.
  split; [|split]; intros w.
  - pose proof (default_stream_fallback demo 65 w) as (Hout & Hin & _).
    split; [exact (Hout _ eq_refl) | exact (Hin _ eq_refl)].
  - pose proof (default_stream_fallback demo 65 w) as (_ & _ & Hbound & _).
    apply Hbound; [discriminate | reflexivity].
  - pose proof (default_stream_fallback demo 65 w) as (_ & _ & _ & Hnil).
    eexists _, _. split; [reflexivity|].
    apply (Hnil eq_refl). reflexivity.
Defined.

(** C4, as stated, fails: with [standard-output] bound to the symbol
    [nil], [put-char(nil, c)] applies [nil] as a function.  In a host
    where applying a non-function signals, the call is made (it is in
    the host's log), a condition is signalled, and the state is not what
    it was; the same holds for [get-char] and [standard-input]. *)
Lemma nil_standard_output_counterexample :
  let w := demo_world [] [] [] [] sym_nil sym_nil in
  exists w',
    stream_putc demo sym_nil 65 w = Ok 0 w'
    /\ dh_calls (host w') = [(sym_nil, [V_Int 65])]
    /\ conditions w' = [(V_Symbol "invalid-function", [sym_nil])]
    /\ conditions w = []
    /\ w' <> w
    /\ exists w'',
         stream_getc demo sym_nil w = Ok EOF w''
         /\ conditions w'' = [(V_Symbol "invalid-function", [sym_nil])].
Proof.
  intros w. eexists.
  split; [cbv; reflexivity|]. split; [reflexivity|]. split; [reflexivity|].
  split; [reflexivity|]. split.
  - intros H. apply (f_equal conditions) in H. discriminate H.
  - eexists. split; [cbv; reflexivity | reflexivity].
Qed.

Lemma write_length_argument_witness :
  let w := demo_world [lisp_string [x61; x62; x63]] [] [] [] sym_nil sym_nil in
  let sink := V_Symbol "sink" in
  cmd_write demo sink (V_String 0) (V_Int 5) w
  = Ok LISP_NULL
       (set_conditions (fun l => l ++ [(sym_bad_arg, [V_Int 5; V_Int 3])]) w)
  /\ (exists w1,
        call_lisp1 demo sink (V_String 0) (set_gc_inhibit true w) = (sym_t, w1)
        /\ cmd_write demo sink (V_String 0) (V_Int 3) w
           = Ok (V_Int 3) (set_gc_inhibit false w1))
  /\ (exists w1,
        call_lisp1 demo sink (V_String 1)
          (set_gc_inhibit true
             (set_strings (fun l => l ++ [mkString [x61; x62; x00] 2]) w))
        = (sym_t, w1)
        /\ cmd_write demo sink (V_String 0) (V_Int 2) w
           = Ok (V_Int 2) (set_gc_inhibit false w1)).
Proof.
  intros w sink. split; [|split].
  - refine (proj1 (write_length_argument demo sink (V_String 0)
                     (lisp_string [x61; x62; x63]) 5 w eq_refl) _).
    simpl. lia.
  - eexists. split; [reflexivity|].
    refine (proj1 (proj2 (proj2 (proj2
              (write_length_argument demo sink (V_String 0)
                 (lisp_string [x61; x62; x63]) 3 w eq_refl))))
              eq_refl _ sym_t _ eq_refl).
    simpl. auto.
  - eexists. split; [reflexivity|].
    refine (proj2 (proj2 (proj2 (proj2
              (write_length_argument demo sink (V_String 0)
                 (lisp_string [x61; x62; x63]) 2 w eq_refl))))
              _ _ _ sym_t _ eq_refl).
    + simpl. lia.
    + simpl. lia.
    + simpl. auto.
Defined.

(** C10, as stated, fails for a negative [LENGTH]: -1 is [stream_puts]'s
    own mark for "measure the bytes", so [write] of "ab" with [LENGTH] -1
    hands a callable stream a fresh string of 2 bytes and returns 2. *)
Lemma write_negative_length_counterexample :
  let w := demo_world [lisp_string [x61; x62]] [] [] [] sym_nil sym_nil in
  exists w',
    cmd_write demo (V_Symbol "sink") (V_String 0) (V_Int (-1)) w = Ok (V_Int 2) w'
    /\ -1 < str_len (lisp_string [x61; x62])
    /\ dh_calls (host w') = [(V_Symbol "sink", [V_String 1])]
    /\ strings w' !! 1%nat = Some (mkString [x61; x62; x00] 2)
    /\ 2 <> -1.
Proof.
  intros w. eexists.
  split; [cbv; reflexivity|]. split; [simpl; lia|].
  split; [reflexivity|]. split; [reflexivity|lia].
Qed.

Lemma read_escape_cases_witness :
  let w := demo_world [lisp_string [x34; x31; x7a; x31; x37; x21]]
             [(V_Int 0, V_String 0)] [] [] sym_nil sym_nil in
  let at_offset (i : Z) :=
    set_conses (fun l => <[0%nat := (V_Int i, V_String 0)]> l) w in
  stream_read_esc demo 5 (V_Cons 0) 110 w = Ok (10, 52) (at_offset 1)
  /\ stream_read_esc demo 5 (V_Cons 0) 94 w = Ok (Z.lxor 52 64, 49) (at_offset 2)
  /\ Z.lxor (toupper 97) 64 mod 256 = Z.lxor (toupper 97) 64
  /\ stream_read_esc demo 5 (V_Cons 0) 120 w = Ok (65, 122) (at_offset 3)
  /\ stream_read_esc demo 5 (V_Cons 0) 49 (at_offset 3)
     = Ok (79, 33) (at_offset 6)
  /\ stream_read_esc demo 5 (V_Cons 0) 55 w = Ok (481 mod 256, 122) (at_offset 3)
  /\ stream_read_esc demo 5 (V_Cons 0) 122 w = Ok (122, 52) (at_offset 1).
Proof.
  intros w at_offset.
  pose proof (read_escape_cases demo 5 (V_Cons 0) w)
    as (Hletter & Hctl & Hbyte & Hoct & Hhex & Hother).
  pose proof (read_escape_cases demo 5 (V_Cons 0) (at_offset 3))
    as (_ & _ & _ & Hoct3 & _ & _).
  split; [|split; [|split; [|split; [|split; [|split]]]]].
  - rewrite (Hletter 110 10) by (simpl; auto). reflexivity.
  - rewrite Hctl. reflexivity.
  - apply Hbyte. lia.
  - apply (Hhex [52; 49] 122); reflexivity || (simpl; lia).
  - rewrite (Hoct3 49 eq_refl). reflexivity.
  - rewrite (Hoct 55 eq_refl). reflexivity.
  - rewrite (Hother 122); [reflexivity | lia | simpl; lia | reflexivity].
Defined.

Lemma open_failure_witness :
  let w := demo_world [lisp_string (list_byte_of_string "/nonexistent");
                       lisp_string (list_byte_of_string "r")]
             [] [] [] sym_nil sym_nil in
  exists w0,
    lfile_chain w0 = [0%nat]
    /\ VFILE 0 w0 = Some (mkFile LISP_NULL None false false)
    /\ cmd_open demo (V_String 0) (V_String 1) sym_nil w
       = Ok LISP_NULL
            (set_conditions
               (fun l => l ++ [(sym_file_error,
                                [V_StaticString
                                   (list_byte_of_string "No such file or directory");
                                 V_String 0])]) w0).
Proof.
  intros w.
  destruct (open_failure demo (V_String 0) (V_String 1) sym_nil _ _ w
              eq_refl eq_refl eq_refl) as (w0 & Hchain & Hfile & _ & Hfail).
  exists w0. split; [exact Hchain|]. split; [exact Hfile|].
  exact (proj1 (Hfail w0 _ w0 eq_refl eq_refl)).
Defined.

(** C6, as stated, fails in its last part: after the failed [open] the
    file object just allocated is the head of the file chain, unbound. *)
Lemma open_failure_chain_counterexample :
  let w := demo_world [lisp_string (list_byte_of_string "/nonexistent");
                       lisp_string (list_byte_of_string "r")]
             [] [] [] sym_nil sym_nil in
  exists w',
    cmd_open demo (V_String 0) (V_String 1) sym_nil w = Ok LISP_NULL w'
    /\ lfile_chain w = []
    /\ lfile_chain w' = [0%nat]
    /\ VFILE 0 w' = Some (mkFile LISP_NULL None false false)
    /\ conditions w'
       = [(sym_file_error,
           [V_StaticString (list_byte_of_string "No such file or directory");
            V_String 0])].
Proof.
  intros w. eexists.
  split; [cbv; reflexivity|]. repeat split; reflexivity.
Qed.

(** * Concrete runs of the other operations *)

Lemma fresh_accumulator (ss : list Lisp_String) (cs : list (VALUE * VALUE)) :
  accumulator_holds 0 [] 0
    (demo_world (lisp_string [] :: ss) ((V_String 0, V_Int 0) :: cs) [] []
       sym_nil sym_nil).
Proof. exists 0%nat, (lisp_string []). repeat split. Qed.

Lemma demo_fclose_frames : fclose_frames demo.
Proof. intros h w. split; reflexivity. Qed.

Lemma demo_never_interrupted : never_interrupted demo.
Proof. intros w. reflexivity. Qed.


Lemma write_appends_witness :
  let w := demo_world [lisp_string []; lisp_string [x68; x69]]
             [(V_String 0, V_Int 0)] [] [] sym_nil sym_nil in
  (exists w',
      cmd_write demo (V_Cons 0) (V_String 1) sym_nil w = Ok (MAKE_INT 2) w'
      /\ accumulator_holds 0 [x68; x69] 32 w')
  /\ (exists w' cap',
         cmd_write demo (V_Cons 0) (V_Int 104) sym_nil w = Ok (MAKE_INT 1) w'
         /\ accumulator_holds 0 [x68] cap' w').
Proof.
  intros w.
  destruct (write_appends demo 0 [] 0 w (fresh_accumulator _ _) ltac:(lia))
    as [Hs Hc].
  split.
  - refine (Hs (V_String 1) (lisp_string [x68; x69]) eq_refl _ _); simpl; lia.
  - refine (Hc x68 _ _); simpl; lia.
Defined.

Lemma get_output_stream_string_resets_witness :
  let w := demo_world [mkString ([x61; x62; x00] ++ replicate 30 xff) 2]
             [(V_String 0, V_Int 32)] [] [] sym_nil sym_nil in
  exists r w',
    cmd_get_output_stream_string (V_Cons 0) w = Ok r w'
    /\ VSTRING r w' = Some (mkString [x61; x62; x00] 2)
    /\ accumulator_holds 0 [] 0 w'.
Proof.
  intros w.
  refine (get_output_stream_string_resets 0 [x61; x62] 32 w _).
  exists 0%nat, (mkString ([x61; x62; x00] ++ replicate 30 xff) 2).
  repeat split.
Defined.

Lemma pos_getc_at_end_witness :
  let w := demo_world [] [(V_Buffer 0, V_Pos 1 1)] [demo_buffer] []
             sym_nil sym_nil in
  pos_getc 0 (P_cdr 0) w = Ok EOF w.
Proof.
  intros w.
  refine (pos_getc_at_end 0 (P_cdr 0) 1 1 demo_buffer w eq_refl eq_refl _).
  right. exists (mkLine [x63; x00] 2). repeat split. simpl. lia.
Defined.

Lemma read_buffer_line_witness :
  let w := demo_world [] [(V_Buffer 0, V_Pos 0 0)] [demo_buffer] []
             sym_nil sym_nil in
  read_chars demo 3 (V_Cons 0) w
  = Ok [97; 98; 10]
       (set_conses (fun l => <[0%nat := (V_Buffer 0, V_Pos 0 1)]> l) w).
Proof.
  intros w.
  refine (read_buffer_line demo 0 0 0 demo_buffer (mkLine [x61; x62; x00] 3)
            [] [x61; x62] [x00] w eq_refl eq_refl _ eq_refl eq_refl eq_refl).
  simpl. lia.
Defined.

Lemma read_line_string_stream_witness :
  let w := demo_world [lisp_string [x61; x62; x0a; x63; x64]]
             [(V_Int 0, V_String 0)] [] [] sym_nil sym_nil in
  cmd_read_line demo demo2 (V_Cons 0) w
  = Ok (V_String 1)
       (set_strings (fun l => l ++ [mkString [x61; x62; x0a; x00] 3])
          (set_conses (fun l => <[0%nat := (V_Int 3, V_String 0)]> l) w)).
Proof.
  intros w.
  refine (proj1 (read_line_string_stream demo demo2 0 0
                   (lisp_string [x61; x62; x0a; x63; x64])
                   [] [x61; x62] [x63; x64; x00] x0a w
                   eq_refl eq_refl eq_refl _ _) eq_refl).
  - repeat constructor; discriminate.
  - simpl. lia.
Defined.

Lemma read_line_cuts_at_399_witness :
  let w := demo_world [lisp_string (replicate 398 x61 ++ [x62; x63])]
             [(V_Int 0, V_String 0)] [] [] sym_nil sym_nil in
  cmd_read_line demo demo2 (V_Cons 0) w
  = Ok (V_String 1)
       (set_strings
          (fun l => l ++ [mkString ((replicate 398 x61 ++ [x62]) ++ [x00]) 399])
          (set_conses (fun l => <[0%nat := (V_Int (0 + 399), V_String 0)]> l) w)).
Proof.
  intros w.
  refine (read_line_cuts_at_399 demo demo2 0 0
            (lisp_string (replicate 398 x61 ++ [x62; x63]))
            [] (replicate 398 x61) [x63; x00] x62 w
            eq_refl eq_refl eq_refl _ _ _).
  - apply Forall_replicate. split; discriminate.
  - apply length_replicate.
  - discriminate.
Defined.

Lemma streamp_nil_getc_signals_witness :
  let w := demo_world [] [(V_Int 1, V_Int 2)] [] [] sym_nil sym_nil in
  stream_getc demo (V_Cons 0) w
  = Ok EOF
       (set_conditions (fun l => l ++ [(sym_invalid_stream, [V_Cons 0])]) w).
Proof.
  intros w.
  exact (streamp_nil_getc_signals demo (V_Cons 0) w eq_refl).
Defined.

Lemma streamp_rejects_writable_cell_witness :
  let w := demo_world [] [(V_Buffer 0, V_Int 7)] [demo_buffer] []
             sym_nil sym_nil in
  cmd_streamp (V_Cons 0) w = Ok sym_nil w
  /\ stream_putc demo (V_Cons 0) 97 w
     = (let* pos := call (cmd_restriction_end demo (V_Buffer 0)) in
        pos_putc demo 0 (P_local pos) 97)%stream w
  /\ (1 <> -1 ->
      stream_puts demo (V_Cons 0) (Data_raw [x61; x00]) 1 false w
      = (let* buf := deref (data_bytes (Data_raw [x61; x00]) false) in
         let* pos := call (cmd_restriction_end demo (V_Buffer 0)) in
         pos_puts demo 0 (P_local pos) buf 1)%stream w).
Proof.
  intros w.
  exact (streamp_rejects_writable_cell demo 0 0 (V_Int 7) 97
           (Data_raw [x61; x00]) 1 false w eq_refl eq_refl eq_refl).
Defined.


Lemma close_unbinds_witness :
  let w := file_world [Some (mkFile (V_StaticString [x66]) (Some 3%nat) false true)]
             [0%nat] in
  let w2 := file_world [Some (mkFile LISP_NULL None false true)] [0%nat] in
  cmd_close demo (V_File 0) w = Ok (V_File 0) w2
  /\ VFILE 0 w2 = Some (mkFile LISP_NULL None false true)
  /\ cmd_close demo (V_File 0) w2 = Ok (V_File 0) w2.
Proof.
  intros w w2.
  exact (close_unbinds demo 0 _ w demo_fclose_frames eq_refl).
Defined.

Lemma disk_fopen_frames : fopen_frames disk_demo.
Proof. split; intros; split; reflexivity. Qed.

Lemma open_binds_witness :
  let w := demo_world [lisp_string (list_byte_of_string "notes");
                       lisp_string (list_byte_of_string "r")]
             [] [] [] sym_nil sym_nil in
  exists w',
    cmd_open disk_demo (V_String 0) (V_String 1) sym_nil w = Ok (V_File 0) w'
    /\ VFILE 0 w' = Some (mkFile (V_String 0) (Some 7%nat) false false)
    /\ lfile_chain w' = [0%nat]
    /\ (forall q, (q < 0)%nat -> files w' !! q = files w !! q)
    /\ cmd_file_bound_p (V_File 0) w' = Ok sym_t w'
    /\ cmd_file_binding (V_File 0) w' = Ok (V_String 0) w'.
Proof.
  intros w.
  exact (open_binds disk_demo (V_String 0) (V_String 1) sym_nil _ _ 7 w _
           disk_fopen_frames eq_refl eq_refl eq_refl eq_refl).
Defined.

Lemma open_without_name_witness :
  let w := file_world [Some (mkFile (V_StaticString [x66]) (Some 3%nat) true false)]
             [0%nat] in
  cmd_open demo sym_nil sym_nil sym_nil w = Ok (V_File 1) (with_new_file w)
  /\ cmd_open demo sym_nil sym_nil (V_File 0) w
     = Ok (V_File 0)
          (file_world [Some (mkFile LISP_NULL None false false)] [0%nat]).
Proof.
  intros w.
  destruct (open_without_name demo sym_nil sym_nil sym_nil w demo_fclose_frames
              eq_refl) as [Hnew _].
  destruct (open_without_name demo sym_nil sym_nil (V_File 0) w demo_fclose_frames
              eq_refl) as [_ Hold].
  split.
  - exact (Hnew eq_refl).
  - exact (Hold 0%nat _ eq_refl eq_refl).
Defined.

(** Three file objects: a marked bound one, an unmarked bound one that
    is flagged don't-close, and an unmarked unbound one. *)
Lemma three_files_chain_ok :
  let w := file_world
             [Some (mkFile (V_StaticString [x61]) (Some 3%nat) false true);
              Some (mkFile (V_StaticString [x62]) (Some 4%nat) true false);
              Some (mkFile LISP_NULL None false false)]
             [2; 1; 0]%nat in
  chain_ok (lfile_chain w) w.
Proof.
  intros w. split.
  - repeat (apply NoDup_cons_2; [rewrite ?elem_of_cons, ?elem_of_nil; lia|]).
    apply NoDup_nil_2.
  - intros p Hp. simpl in Hp.
    destruct Hp as [<-|[<-|[<-|[]]]]; eexists; reflexivity.
Qed.

Lemma file_sweep_keeps_marked_witness :
  let w := file_world
             [Some (mkFile (V_StaticString [x61]) (Some 3%nat) false true);
              Some (mkFile (V_StaticString [x62]) (Some 4%nat) true false);
              Some (mkFile LISP_NULL None false false)]
             [2; 1; 0]%nat in
  exists w',
    file_sweep demo w = Ok tt w'
    /\ lfile_chain w' = [0%nat]
    /\ (forall p f, In p [2; 1; 0]%nat -> VFILE p w = Some f ->
                    files w' !! p
                    = Some (if lf_marked f then Some (unmark f) else None))
    /\ (forall q, ~ In q [2; 1; 0]%nat -> files w' !! q = files w !! q).
Proof.
  intros w.
  exact (file_sweep_keeps_marked demo w demo_fclose_frames three_files_chain_ok).
Defined.

Lemma file_sweep_spares_foreign_handles_witness :
  let w := file_world
             [Some (mkFile (V_StaticString [x61]) (Some 3%nat) false true);
              Some (mkFile (V_StaticString [x62]) (Some 4%nat) true false);
              Some (mkFile LISP_NULL None false false)]
             [2; 1; 0]%nat in
  file_sweep demo w = file_sweep disk_demo w.
Proof.
  intros w.
  refine (file_sweep_spares_foreign_handles demo disk_demo w
            three_files_chain_ok _).
  intros p f Hp Hf Hm. simpl in Hp.
  destruct Hp as [<-|[<-|[<-|[]]]]; injection Hf as <-;
    try reflexivity; discriminate Hm.
Defined.

Lemma streams_kill_frees_all_witness :
  let w := file_world
             [Some (mkFile (V_StaticString [x61]) (Some 3%nat) false true);
              Some (mkFile (V_StaticString [x62]) (Some 4%nat) true false);
              Some (mkFile LISP_NULL None false false)]
             [2; 1; 0]%nat in
  exists w',
    streams_kill demo w = Ok tt w'
    /\ lfile_chain w' = []
    /\ (forall p, In p [2; 1; 0]%nat -> files w' !! p = Some None)
    /\ (forall q, ~ In q [2; 1; 0]%nat -> files w' !! q = files w !! q).
Proof.
  intros w.
  exact (streams_kill_frees_all demo w demo_fclose_frames three_files_chain_ok).
Defined.

Lemma std_file_once_witness :
  let w := file_world [] [] in
  let w' := file_world [Some (mkFile stdin_name (Some 0%nat) true false)] [0%nat] in
  cmd_stdin_file demo demo2 LISP_NULL w = Ok (V_File 0, V_File 0) w'
  /\ VFILE 0 w' = Some (mkFile stdin_name (Some 0%nat) true false)
  /\ lfile_chain w' = [0%nat]
  /\ cmd_stdin_file demo demo2 (V_File 0) w' = Ok (V_File 0, V_File 0) w'
  /\ cmd_close demo (V_File 0) w'
     = Ok (V_File 0)
          (file_world [Some (mkFile LISP_NULL None true false)] [0%nat]).
Proof.
  intros w w'.
  refine (std_file_once demo demo2 stdin_name (Some 0%nat) w _).
  intros v w0. split; reflexivity.
Defined.

Lemma copy_stream_short_exact_witness :
  let w := demo_world [lisp_string []; lisp_string [x61; x62; x63]]
             [(V_String 0, V_Int 0); (V_Int 0, V_String 1)] [] []
             sym_nil sym_nil in
  exists w',
    cmd_copy_stream demo 4 (V_Cons 1) (V_Cons 0) w = Ok (MAKE_INT 3) w'
    /\ accumulator_holds 0 [x61; x62; x63] 32 w'.
Proof.
  intros w.
  refine (copy_stream_short_exact demo 1 1 0 (lisp_string [x61; x62; x63])
            [] [x61; x62; x63] [] [] 0 4 w demo_never_interrupted
            eq_refl eq_refl eq_refl _ _ _ _ (fresh_accumulator _ _) _ _).
  - repeat constructor; discriminate.
  - simpl. lia.
  - simpl. lia.
  - discriminate.
  - lia.
  - simpl. lia.
Defined.

Lemma copy_stream_writes_nothing_witness :
  let w := demo_world [lisp_string []] [(V_Int 0, V_String 0)] [] []
             sym_nil sym_nil in
  cmd_copy_stream demo 1 (V_Cons 0) (V_Cons 0) w = Ok sym_nil w.
Proof.
  intros w.
  exact (proj1 (copy_stream_writes_nothing demo (V_Cons 0) (V_Cons 0) 0 w w)
           eq_refl).
Defined.

Lemma write_read_only_buffer_witness :
  let w := demo_world [lisp_string [x68; x69]] [] [demo_buffer] []
             sym_nil sym_nil in
  cmd_write demo (V_Buffer 0) (V_Int 104) sym_nil w = Ok (MAKE_INT (-1)) w
  /\ cmd_write demo (V_Buffer 0) (V_String 0) sym_nil w = Ok (MAKE_INT (-1)) w.
Proof.
  intros w.
  refine (write_read_only_buffer demo 0 104 (V_String 0) _ w eq_refl eq_refl _).
  discriminate.
Defined.

Lemma string_input_stream_start_witness :
  let w := demo_world [lisp_string [x61; x00; x63; x64]] [] [] []
             sym_nil sym_nil in
  (exists strm w1 w2,
      cmd_make_string_input_stream (V_String 0) (V_Int 2) w = Ok (V_Cons strm) w1
      /\ read_chars demo 2 (V_Cons strm) w1 = Ok [99; 100] w2
      /\ stream_getc demo (V_Cons strm) w2 = Ok EOF w2)
  /\ (exists strm w1,
         cmd_make_string_input_stream (V_String 0) (V_Int 5) w
         = Ok (V_Cons strm) w1
         /\ stream_getc demo (V_Cons strm) w1 = Undefined).
Proof.
  intros w.
  destruct (string_input_stream_start demo [x61; x00] [x63; x64] [] 4 0 w
              eq_refl ltac:(repeat constructor; discriminate)) as [Hrun Hout].
  split.
  - exact Hrun.
  - refine (Hout 5 _). right. simpl. lia.
Defined.

Lemma file_sweep_closes_each_once_witness :
  let w := file_world
             [Some (mkFile (V_StaticString [x61]) (Some 3%nat) false true);
              Some (mkFile (V_StaticString [x62]) (Some 4%nat) false false);
              Some (mkFile (V_StaticString [x63]) (Some 5%nat) true false)]
             [2; 1; 0]%nat in
  exists w',
    file_sweep disk_demo w = Ok tt w'
    /\ host w' = log_fclose (Some 4%nat) (host w).
Proof.
  intros w.
  refine (file_sweep_closes_each_once disk_demo log_fclose w _ _).
  - intros h w0. reflexivity.
  - split.
    + repeat (apply NoDup_cons_2; [rewrite ?elem_of_cons, ?elem_of_nil; lia|]).
      apply NoDup_nil_2.
    + intros p Hp. simpl in Hp.
      destruct Hp as [<-|[<-|[<-|[]]]]; eexists; reflexivity.
Defined.

Lemma format_renders_witness :
  let w := demo_world [lisp_string (list_byte_of_string "%d + %d = %d")]
             [(sym_nil, V_Cons 1); (V_String 0, V_Cons 2);
              (V_Int 2, V_Cons 3); (V_Int 3, V_Cons 4); (V_Int 5, sym_nil)]
             [] [] sym_nil sym_nil in
  exists r w',
    cmd_format demo demo2 20 (V_Cons 0) w = Ok r w'
    /\ VSTRING r w'
       = Some (mkString (list_byte_of_string "2 + 3 = 5" ++ [x00]) 9).
Proof.
  intros w.
  refine (format_renders demo demo2 0 1 0 _ (list_byte_of_string "%d + %d = %d") []
            (list_byte_of_string "2 + 3 = 5") (V_Cons 2)
            [V_Int 2; V_Int 3; V_Int 5] 20 w
            eq_refl eq_refl eq_refl eq_refl _ _ eq_refl _ _).
  - repeat constructor; discriminate.
  - eapply ll_cons; [simpl; lia|reflexivity|].
    eapply ll_cons; [simpl; lia|reflexivity|].
    eapply ll_cons; [simpl; lia|reflexivity|].
    apply ll_end; [reflexivity|discriminate].
  - simpl. lia.
  - simpl. lia.
Defined.

Lemma format_missing_arg_witness :
  let w := demo_world [lisp_string []; lisp_string (list_byte_of_string "ab%d")]
             [(V_String 0, V_Int 0); (V_Cons 0, V_Cons 2); (V_String 1, sym_nil)]
             [] [] sym_nil sym_nil in
  exists w',
    cmd_format demo demo2 10 (V_Cons 1) w = Ok LISP_NULL w'
    /\ accumulator_holds 0 [x61; x62] 32 w'
    /\ conditions w' = [(sym_missing_arg, [MAKE_INT 0])].
Proof.
  intros w.
  refine (format_missing_arg demo demo2 1 2 0 1 _ [x61; x62] [x00] [] x64 0 sym_nil
            10 w eq_refl eq_refl _ eq_refl _ eq_refl eq_refl _ _ _
            (fresh_accumulator _ _) _ _ _).
  - discriminate.
  - discriminate.
  - repeat constructor; discriminate.
  - discriminate.
  - discriminate.
  - lia.
  - simpl. lia.
  - simpl. lia.
Defined.

Lemma format_trailing_percent_witness :
  let w := demo_world [lisp_string (list_byte_of_string "50%")]
             [(sym_nil, V_Cons 1); (V_String 0, V_Cons 2); (V_Int 1, sym_nil)]
             [] [] sym_nil sym_nil in
  cmd_format demo demo2 10 (V_Cons 0) w = Undefined.
Proof.
  intros w.
  refine (format_trailing_percent demo demo2 0 1 2 0 _ [x35; x30] (V_Int 1) sym_nil
            10 w eq_refl eq_refl eq_refl eq_refl eq_refl _ _ _).
  - repeat constructor; discriminate.
  - simpl. lia.
  - simpl. lia.
Defined.

Lemma output_stream_round_trip_witness :
  let w := demo_world [] [] [] [] sym_nil sym_nil in
  exists strm w1 w2 r w3 r2 w4,
    cmd_make_string_output_stream w = Ok (V_Cons strm) w1
    /\ puts_all demo (V_Cons strm)
         [list_byte_of_string "hello"; list_byte_of_string "!"] w1 = Ok tt w2
    /\ cmd_get_output_stream_string (V_Cons strm) w2 = Ok r w3
    /\ VSTRING r w3 = Some (mkString (list_byte_of_string "hello!" ++ [x00]) 6)
    /\ cmd_get_output_stream_string (V_Cons strm) w3 = Ok r2 w4
    /\ VSTRING r2 w4 = Some (mkString [x00] 0).
Proof.
  intros w.
  refine (output_stream_round_trip demo
            [list_byte_of_string "hello"; list_byte_of_string "!"] w _).
  simpl. lia.
Defined.

Lemma file_prin_prints_witness :
  let w := heap_world [lisp_string []] [(V_String 0, V_Int 0)]
             [Some (mkFile stdin_name (Some 0%nat) true false);
              Some (mkFile LISP_NULL None false false)] [1; 0]%nat in
  (exists w' cap',
      file_prin demo (V_Cons 0) (V_File 1) w = Ok tt w'
      /\ accumulator_holds 0 (list_byte_of_string "#<file *unbound*>") cap' w')
  /\ (exists w' cap',
         file_prin demo (V_Cons 0) (V_File 0) w = Ok tt w'
         /\ accumulator_holds 0 (list_byte_of_string "#<file <stdin>>") cap' w').
Proof.
  intros w.
  assert (Hacc : accumulator_holds 0 [] 0 w).
  { exists 0%nat, (lisp_string []). repeat split. }
  assert (Hcok : cap_ok 0 (Z.of_nat (@length byte []))).
  { unfold cap_ok. simpl. lia. }
  split.
  - refine (proj1 (file_prin_prints demo 0 1 _ [] 0 w Hacc Hcok eq_refl) eq_refl _).
    simpl. lia.
  - refine (proj2 (file_prin_prints demo 0 0 _ [] 0 w Hacc Hcok eq_refl)
              (list_byte_of_string "<stdin>") [] 7 eq_refl _ _ _).
    + repeat constructor; discriminate.
    + intros q d Hq. discriminate Hq.
    + simpl. lia.
Defined.

Lemma file_cmp_needs_bound_files_witness :
  let w := file_world [Some (mkFile LISP_NULL None false false);
                       Some (mkFile (V_StaticString [x61]) (Some 3%nat) false false)]
             [1; 0]%nat in
  file_cmp demo2 (V_File 0) (V_File 1) w = Ok 1 w
  /\ file_cmp demo2 (V_File 1) (V_File 0) w = Ok 1 w
  /\ file_cmp demo2 (V_File 0) (V_File 0) w = Ok 1 w.
Proof.
  intros w.
  refine (proj2 (file_cmp_needs_bound_files demo2 (V_File 0) (V_File 1) w)
            0%nat _ eq_refl eq_refl eq_refl eq_refl _).
  intros p2 Hp2. injection Hp2 as <-. eexists. reflexivity.
Defined.

Lemma callable_gc_bracket_witness :
  let w := demo_world [] [] [] [] sym_nil sym_nil in
  let w1 := set_host (mkDemoHost sym_nil sym_nil [(V_Symbol "sink", [])]) w in
  stream_getc demo (V_Symbol "sink") w = Ok EOF w1.
Proof.
  intros w w1.
  refine (proj1 (callable_gc_bracket demo (V_Symbol "sink") 97 w _) sym_t _ eq_refl).
  split; reflexivity.
Defined.

Lemma unget_before_start_witness :
  let w := demo_world [lisp_string [x61]] [(V_Int 0, V_String 0)] [] []
             sym_nil sym_nil in
  let w1 := set_conses (fun l => <[0%nat := (V_Int (-1), V_String 0)]> l) w in
  stream_ungetc demo (V_Cons 0) 97 w = Ok 1 w1
  /\ stream_getc demo (V_Cons 0) w1 = Undefined.
Proof.
  intros w w1.
  exact (unget_before_start demo 0 0 _ 97 w eq_refl eq_refl).
Defined.
